(** * Brother's AI: the chat-history data-access module

    A shallow embedding of the conversation bookkeeping of
    [src/lib/speech-recognition.ts] (second document of that file, the
    Supabase data-access layer) together with the [chat_history] table of
    [NEW_DATABASE_SCHEMA.sql], and the properties of the rank allocator,
    the conversation segmenter, the session tracker and the range deleter.

    Integers are [Z] (the [chat_rank] column is a PostgreSQL INTEGER, far
    inside the range where JavaScript numbers are exact), strings are
    [String.string], and the remote table is an explicit state that every
    awaited Supabase call reads or updates. *)

From Stdlib Require Import ZArith List Bool Lia.
From Stdlib Require Import Ascii String.
From Stdlib Require Import DecimalString DecimalZ DecimalPos.
From Stdlib Require Import Sorted Permutation.
Import ListNotations.

Open Scope string_scope.
Open Scope Z_scope.
Open Scope list_scope.

(* ================================================================== *)
(** * JavaScript string primitives used by the module *)
(* ================================================================== *)

Module Js.

(** Characters ['0'..'9']. *)
Definition is_digit (c : ascii) : bool :=
  let n := nat_of_ascii c in (48 <=? n)%nat && (n <=? 57)%nat.

(** The white space that [parseInt] skips (TAB, LF, VT, FF, CR, SP). *)
Definition is_space (c : ascii) : bool :=
  let n := nat_of_ascii c in
  ((9 <=? n)%nat && (n <=? 13)%nat) || (n =? 32)%nat.

(** [Number.prototype.toString] / template interpolation of an integer:
    decimal digits, a leading ['-'] for negative numbers, ["0"] for zero. *)
Definition toString (n : Z) : string :=
  NilEmpty.string_of_int (Z.to_int n).

Fixpoint all_digits (s : string) : bool :=
  match s with
  | EmptyString => true
  | String c s' => is_digit c && all_digits s'
  end.

(** Longest prefix of decimal digits, and what follows it. *)
Fixpoint digit_prefix (s : string) : string :=
  match s with
  | EmptyString => EmptyString
  | String c s' => if is_digit c then String c (digit_prefix s') else EmptyString
  end.

Fixpoint skip_spaces (s : string) : string :=
  match s with
  | EmptyString => EmptyString
  | String c s' => if is_space c then skip_spaces s' else s
  end.

(** Value of a non-empty digit string; [None] is NaN. *)
Definition digits_value (p : string) : option Z :=
  match p with
  | EmptyString => None
  | _ => option_map Z.of_uint (NilEmpty.uint_of_string p)
  end.

(** [parseInt(s, 10)]: skip leading white space, read an optional sign,
    then the longest run of digits; no digit at all gives NaN ([None]). *)
Definition parseInt (s : string) : option Z :=
  match skip_spaces s with
  | String "-" s' => option_map Z.opp (digits_value (digit_prefix s'))
  | String "+" s' => digits_value (digit_prefix s')
  | s' => digits_value (digit_prefix s')
  end.

(** [s.replace(pat, rep)] with a string pattern: only the first
    occurrence is replaced. *)
Fixpoint drop (n : nat) (s : string) : string :=
  match n, s with
  | O, _ => s
  | S n', String _ s' => drop n' s'
  | S _, EmptyString => EmptyString
  end.

Fixpoint replace (pat rep s : string) : string :=
  if prefix pat s then (rep ++ drop (String.length pat) s)%string
  else match s with
       | EmptyString => EmptyString
       | String c s' => String c (replace pat rep s')
       end.

(** [s.includes(pat)]. *)
Fixpoint includes (pat s : string) : bool :=
  prefix pat s ||
  match s with
  | EmptyString => false
  | String _ s' => includes pat s'
  end.

(** Strings made of decimal digits and minus signs only. *)
Fixpoint sign_or_digits (s : string) : bool :=
  match s with
  | EmptyString => true
  | String c s' => (is_digit c || Ascii.eqb c "-") && sign_or_digits s'
  end.

(** Last character of a string, if any. *)
Fixpoint last_char (s : string) : option ascii :=
  match s with
  | EmptyString => None
  | String c EmptyString => Some c
  | String _ s' => last_char s'
  end.

End Js.

(* ================================================================== *)
(** * Data model *)
(* ================================================================== *)

(** One row of [chat_history] ([DbChatHistory]). *)
Record DbChatHistory : Type := mkRow {
  chat_id : string;
  user_id : string;
  user_request : string;
  ai_response : string;
  chat_rank : Z;
  created_at : string;
  updated_at : string
}.

(** [const chatId = `${userId}${nextRank}`] (also [p_user_id || v_chat_rank]
    in the SQL helper [create_chat_entry]). *)
Definition chatId (userId : string) (rank : Z) : string :=
  (userId ++ Js.toString rank)%string.

(** A user id that does not end in a decimal digit (the empty id included). *)
Definition no_trailing_digit (u : string) : bool :=
  match Js.last_char u with
  | None => true
  | Some c => negb (Js.is_digit c)
  end.

Inductive Role : Type := user | assistant.

Record FileAttachment : Type := mkAttachment {
  att_id : string;
  att_name : string;
  att_size : Z;
  att_type : string;
  att_url : string
}.

Record Message : Type := mkMessage {
  msg_id : string;
  content : string;
  role : Role;
  timestamp : string;
  attachments : option (list FileAttachment)
}.

Record Conversation : Type := mkConversation {
  id : string;
  title : string;
  conv_timestamp : string;
  preview : string;
  messages : list Message;
  sessionId : string;
  startRank : Z
}.

(** The object the segmenter accumulates for the run being built. *)
Record ConvData : Type := mkConvData {
  cd_startRank : Z;
  cd_entries : list DbChatHistory;
  cd_sessionId : string
}.

(** The host environment of one call: the clock ([Date.now()],
    [new Date().toISOString()]), the random suffix
    [Math.random().toString(36).substr(2, 9)], and the locale-dependent
    display formatters [formatTime] and [formatTimestamp]. *)
Record Env : Type := mkEnv {
  dateNow : Z;
  isoNow : string;
  randomSuffix : string;
  formatTime : string -> string;
  formatTimestamp : string -> string
}.

(* ================================================================== *)
(** * The remote store *)
(* ================================================================== *)

Inductive DbError : Type :=
| DuplicateKey          (* primary key or idx_chat_history_user_rank *)
| ForeignKeyViolation   (* fk_user *)
| TransportError.       (* network failure, timeout, denied request *)

(** What a Supabase call resolves to: [{ data, error }]. *)
Inductive Result (A : Type) : Type :=
| Ok (data : A)
| Error (error : DbError).
Arguments Ok {A} data.
Arguments Error {A} error.

(** The requests the module sends to the [chat_history] table. *)
Inductive Request : Type :=
| SelectMaxRank (userId : string)
| SelectHistory (userId : string)
| SelectRanksFrom (startRank : Z)
| SelectFrom (startRank : Z)
| Insert (row : DbChatHistory)
| DeleteRange (lo hi : Z).

(** The backend as the client sees it: the [users] and [chat_history]
    tables, the transport failures still to come (one flag per call, in
    order; none left means every call goes through), and the journal of
    requests received so far. *)
Record Backend : Type := mkBackend {
  users : list string;
  chat_history : list DbChatHistory;
  faults : list bool;
  journal : list Request
}.

(** Receiving a request: it is journalled and the next transport flag is
    consumed. *)
Definition receive (q : Request) (db : Backend) : bool * Backend :=
  match faults db with
  | [] => (false, mkBackend (users db) (chat_history db) [] (journal db ++ [q]))
  | f :: fs => (f, mkBackend (users db) (chat_history db) fs (journal db ++ [q]))
  end.

Definition with_rows (rows : list DbChatHistory) (db : Backend) : Backend :=
  mkBackend (users db) rows (faults db) (journal db).

(** [.order('chat_rank', { ascending: true })]: a stable insertion sort. *)
Fixpoint insert_by_rank (r : DbChatHistory) (l : list DbChatHistory)
  : list DbChatHistory :=
  match l with
  | [] => [r]
  | x :: l' =>
      if chat_rank r <=? chat_rank x then r :: x :: l'
      else x :: insert_by_rank r l'
  end.

Fixpoint order_by_rank (l : list DbChatHistory) : list DbChatHistory :=
  match l with
  | [] => []
  | r :: l' => insert_by_rank r (order_by_rank l')
  end.

(** [.eq('user_id', userId)] and [.gte('chat_rank', startRank)]. *)
Definition eq_user (userId : string) (r : DbChatHistory) : bool :=
  String.eqb (user_id r) userId.

Definition gte_rank (startRank : Z) (r : DbChatHistory) : bool :=
  startRank <=? chat_rank r.

Definition in_range (lo hi : Z) (r : DbChatHistory) : bool :=
  (lo <=? chat_rank r) && (chat_rank r <=? hi).

(** [select('chat_rank').eq('user_id', u).order('chat_rank',
    { ascending: false }).limit(1).maybeSingle()]: the greatest rank of the
    user, [null] when the user has no row. *)
Definition select_max_rank (userId : string) (db : Backend)
  : Result (option Z) * Backend :=
  let '(failed, db') := receive (SelectMaxRank userId) db in
  if failed then (Error TransportError, db')
  else
    (Ok (option_map chat_rank
           (hd_error (rev (order_by_rank
                             (filter (eq_user userId) (chat_history db)))))),
     db').

(** [select('*').eq('user_id', u).order('chat_rank', { ascending: true })]. *)
Definition select_history (userId : string) (db : Backend)
  : Result (list DbChatHistory) * Backend :=
  let '(failed, db') := receive (SelectHistory userId) db in
  if failed then (Error TransportError, db')
  else (Ok (order_by_rank (filter (eq_user userId) (chat_history db))), db').

(** [select('*').gte('chat_rank', r).order('chat_rank', { ascending: true })]:
    there is no [user_id] filter on this query. *)
Definition select_from (startRank : Z) (db : Backend)
  : Result (list DbChatHistory) * Backend :=
  let '(failed, db') := receive (SelectFrom startRank) db in
  if failed then (Error TransportError, db')
  else (Ok (order_by_rank (filter (gte_rank startRank) (chat_history db))), db').

(** [select('chat_rank').gte('chat_rank', r).order(...)]: the same rows,
    projected on their rank. *)
Definition select_ranks_from (startRank : Z) (db : Backend)
  : Result (list Z) * Backend :=
  let '(failed, db') := receive (SelectRanksFrom startRank) db in
  if failed then (Error TransportError, db')
  else
    (Ok (map chat_rank
           (order_by_rank (filter (gte_rank startRank) (chat_history db)))),
     db').

(** The constraints of the table: [chat_id] is the primary key,
    [(user_id, chat_rank)] is unique, [user_id] references [users]. *)
Definition key_taken (row : DbChatHistory) (rows : list DbChatHistory) : bool :=
  existsb (fun r => String.eqb (chat_id r) (chat_id row)
                    || (String.eqb (user_id r) (user_id row)
                        && (chat_rank r =? chat_rank row))) rows.

Definition known_user (userId : string) (db : Backend) : bool :=
  existsb (String.eqb userId) (users db).

Definition insert (row : DbChatHistory) (db : Backend)
  : Result unit * Backend :=
  let '(failed, db') := receive (Insert row) db in
  if failed then (Error TransportError, db')
  else if key_taken row (chat_history db) then (Error DuplicateKey, db')
  else if negb (known_user (user_id row) db) then (Error ForeignKeyViolation, db')
  else (Ok tt, with_rows (chat_history db ++ [row]) db').

(** [delete().gte('chat_rank', lo).lte('chat_rank', hi)]: again without a
    [user_id] filter. *)
Definition delete_range (lo hi : Z) (db : Backend) : Result unit * Backend :=
  let '(failed, db') := receive (DeleteRange lo hi) db in
  if failed then (Error TransportError, db')
  else
    (Ok tt,
     with_rows (filter (fun r => negb (in_range lo hi r)) (chat_history db)) db').

(* ================================================================== *)
(** * Session tracker *)
(* ================================================================== *)

(** The two module-level variables [currentSessionId] and
    [currentSessionStartRank]. *)
Record Session : Type := mkSession {
  currentSessionId : option string;
  currentSessionStartRank : Z
}.

(** Their initial values: [null] and [0]. *)
Definition initialSession : Session := mkSession None 0.

(** [`session_${Date.now()}_${Math.random().toString(36).substr(2, 9)}`]. *)
Definition freshSessionId (env : Env) : string :=
  ("session_" ++ Js.toString (dateNow env) ++ "_" ++ randomSuffix env)%string.

Definition startNewSession (env : Env) (st : Session) : string * Session :=
  let currentSessionId' := freshSessionId env in
  (currentSessionId', mkSession (Some currentSessionId') (currentSessionStartRank st)).

Definition getCurrentSessionId (st : Session) : option string :=
  currentSessionId st.

Definition setCurrentSession (sessionId : string) (startRank : Z) (st : Session)
  : Session :=
  mkSession (Some sessionId) startRank.

Definition clearCurrentSession (st : Session) : Session :=
  mkSession None 0.

(** [!currentSessionId]: [null] and the empty string are falsy. *)
Definition noSession (st : Session) : bool :=
  match currentSessionId st with
  | None => true
  | Some EmptyString => true
  | Some _ => false
  end.

(* ================================================================== *)
(** * Conversation segmenter *)
(* ================================================================== *)

(** The two display messages of one entry, as both
    [createConversationFromEntries] and [getConversationMessages] push them. *)
Definition userMessage (env : Env) (entry : DbChatHistory) : Message :=
  mkMessage (chat_id entry ++ "_user")%string (user_request entry) user
            (formatTime env (created_at entry)) None.

Definition assistantMessage (env : Env) (entry : DbChatHistory) : Message :=
  mkMessage (chat_id entry ++ "_assistant")%string (ai_response entry) assistant
            (formatTime env (created_at entry)) None.

(** [entries.forEach(entry => { messages.push(..); messages.push(..) })]
    on an initially empty [messages]. *)
Definition pushMessages (env : Env) (entries : list DbChatHistory)
  : list Message :=
  fold_left (fun messages entry =>
               (messages ++ [userMessage env entry])
                 ++ [assistantMessage env entry])
            entries [].

(** [s.substring(0, n) + (s.length > n ? '...' : '')]. *)
Definition truncate (n : nat) (s : string) : string :=
  (substring 0 n s ++ (if (n <? String.length s)%nat then "..." else ""))%string.

(** [createConversationFromEntries]; [None] is the [TypeError] raised when
    [data.entries] is empty and [firstEntry] is [undefined]. *)
Definition createConversationFromEntries (env : Env) (data : ConvData)
  : option Conversation :=
  let messages := pushMessages env (cd_entries data) in
  match hd_error (cd_entries data), hd_error (rev (cd_entries data)) with
  | Some firstEntry, Some lastEntry =>
      Some (mkConversation
              (cd_sessionId data)
              (truncate 50 (user_request firstEntry))
              (formatTimestamp env (created_at lastEntry))
              (truncate 100 (user_request firstEntry))
              messages
              (cd_sessionId data)
              (cd_startRank data))
  | _, _ => None
  end.

(** [!currentConversation || (prevEntry && entry.chat_rank !==
    prevEntry.chat_rank + 1)]. *)
Definition shouldStartNew (currentConversation : option ConvData)
           (prevEntry : option DbChatHistory) (entry : DbChatHistory) : bool :=
  match currentConversation with
  | None => true
  | Some _ =>
      match prevEntry with
      | None => false
      | Some prev => negb (chat_rank entry =? chat_rank prev + 1)
      end
  end.

(** [if (currentConversation && currentConversation.entries.length > 0)
    conversations.push(finish(currentConversation))]; [None] when [finish]
    throws. The segmenter is written over the function applied to a
    finished run, which in the source is [createConversationFromEntries]. *)
Definition pushFinished {A : Type} (finish : ConvData -> option A)
           (conversations : list A) (currentConversation : option ConvData)
  : option (list A) :=
  match currentConversation with
  | Some cur =>
      match cd_entries cur with
      | [] => Some conversations
      | _ :: _ =>
          match finish cur with
          | Some c => Some (conversations ++ [c])
          | None => None
          end
      end
  | None => Some conversations
  end.

(** The [for] loop of [fetchConversations] from index [i] on: [rest] is
    [chatHistory.slice(i)] and [prevEntry] is [chatHistory[i - 1]] ([null]
    when [i = 0]). The result is the final [conversations] and
    [currentConversation]; [None] is an exception. *)
Fixpoint segmentLoop {A : Type} (finish : ConvData -> option A)
         (prevEntry : option DbChatHistory) (rest : list DbChatHistory)
         (conversations : list A) (currentConversation : option ConvData)
  : option (list A * option ConvData) :=
  match rest with
  | [] => Some (conversations, currentConversation)
  | entry :: rest' =>
      if shouldStartNew currentConversation prevEntry entry then
        match pushFinished finish conversations currentConversation with
        | Some conversations' =>
            segmentLoop finish (Some entry) rest' conversations'
              (Some (mkConvData (chat_rank entry) [entry]
                                ("conv_" ++ Js.toString (chat_rank entry))%string))
        | None => None
        end
      else
        match currentConversation with
        | Some cur =>
            segmentLoop finish (Some entry) rest' conversations
              (Some (mkConvData (cd_startRank cur) (cd_entries cur ++ [entry])
                                (cd_sessionId cur)))
        | None => None
        end
  end.

(** The loop, the push of the last run, and the final [reverse()]. *)
Definition segment {A : Type} (finish : ConvData -> option A)
           (chatHistory : list DbChatHistory) : option (list A) :=
  match segmentLoop finish None chatHistory [] None with
  | Some (conversations, currentConversation) =>
      match pushFinished finish conversations currentConversation with
      | Some conversations' => Some (rev conversations')
      | None => None
      end
  | None => None
  end.

(** The runs themselves, newest first: the segmenter with the finished run
    kept as it is. *)
Definition segmentRuns (chatHistory : list DbChatHistory) : list ConvData :=
  match segment Some chatHistory with
  | Some runs => runs
  | None => []
  end.

(** [fetchConversations]: a failed read, an empty history and a caught
    exception all give [[]]. *)
Definition fetchConversations (env : Env) (userId : string) (db : Backend)
  : list Conversation * Backend :=
  match select_history userId db with
  | (Error _, db') => ([], db')
  | (Ok chatHistory, db') =>
      match chatHistory with
      | [] => ([], db')
      | _ :: _ =>
          match segment (createConversationFromEntries env) chatHistory with
          | Some conversations => (conversations, db')
          | None => ([], db')
          end
      end
  end.

(* ================================================================== *)
(** * Rank allocator and append paths *)
(* ================================================================== *)

(** [(maxRankData?.chat_rank || 0) + 1]: [null] and a rank of [0] are both
    falsy. *)
Definition nextRankOf (maxRankData : option Z) : Z :=
  match maxRankData with
  | Some r => (if r =? 0 then 0 else r) + 1
  | None => 0 + 1
  end.

(** [createChatEntry]. The function awaits the backend twice, first for the
    greatest rank and then for the insert; [meanwhile] is what other clients
    do to the backend between the two calls (the identity when the caller is
    alone). The result is the new [chat_id], or [None] for [null]. *)
Definition createChatEntry (env : Env) (meanwhile : Backend -> Backend)
           (userId userRequest aiResponse : string)
           (st : Session) (db : Backend)
  : option string * Session * Backend :=
  match select_max_rank userId db with
  | (Error rankError, db1) => (None, st, db1)
  | (Ok maxRankData, db1) =>
      let nextRank := nextRankOf maxRankData in
      let chatId := chatId userId nextRank in
      let st' :=
        if noSession st
        then mkSession (Some (freshSessionId env)) nextRank
        else st in
      match insert (mkRow chatId userId userRequest aiResponse nextRank
                          (isoNow env) (isoNow env))
                   (meanwhile db1) with
      | (Error insertError, db2) => (None, st', db2)
      | (Ok _, db2) => (Some chatId, st', db2)
      end
  end.

(** The default exchange that [saveCurrentSession] filters out. *)
Definition isDefaultMessage (m : Message) : bool :=
  String.eqb (content m) "Who are you?"
  || Js.includes "I am Brother's AI" (content m).

Definition isRole (r : Role) (m : Message) : bool :=
  match r, role m with
  | user, user => true
  | assistant, assistant => true
  | _, _ => false
  end.

(** The loop [for (i = 0; i < n; i += 2)] of [saveCurrentSession] over the
    remaining messages: a well-formed pair is inserted at [nextRank], which
    is then incremented; a malformed pair is skipped; the first failed
    insert returns [false]. *)
Fixpoint savePairs (env : Env) (userId : string) (msgs : list Message)
         (nextRank : Z) (db : Backend) : bool * Backend :=
  match msgs with
  | userMsg :: assistantMsg :: rest =>
      if isRole user userMsg && isRole assistant assistantMsg then
        match insert (mkRow (chatId userId nextRank) userId
                            (content userMsg) (content assistantMsg) nextRank
                            (isoNow env) (isoNow env)) db with
        | (Error _, db') => (false, db')
        | (Ok _, db') => savePairs env userId rest (nextRank + 1) db'
        end
      else savePairs env userId rest nextRank db
  | _ => (true, db)
  end.

(** [saveCurrentSession]: the [error] of the max-rank read is not
    destructured, only its [data]. *)
Definition saveCurrentSession (env : Env) (userId : string)
           (messages : list Message) (db : Backend) : bool * Backend :=
  match messages with
  | [] => (true, db)
  | _ :: _ =>
      let nonDefaultMessages :=
        filter (fun m => negb (isDefaultMessage m)) messages in
      match nonDefaultMessages with
      | [] => (true, db)
      | _ :: _ =>
          let '(res, db1) := select_max_rank userId db in
          let maxRankData :=
            match res with
            | Ok data => data
            | Error _ => None
            end in
          savePairs env userId nonDefaultMessages (nextRankOf maxRankData) db1
      end
  end.

(* ================================================================== *)
(** * Range deleter and single-conversation read *)
(* ================================================================== *)

(** [conversationId.replace('conv_', '').replace('session_', '')] followed
    by [parseInt(rankStr, 10)]; [None] is NaN. *)
Definition parseConversationId (conversationId : string) : option Z :=
  Js.parseInt (Js.replace "session_" "" (Js.replace "conv_" "" conversationId)).

(** The loop of [deleteConversation] that looks for the end of the
    continuous range, from index [i] on ([entries] is the rest of the
    array from [i]). *)
Fixpoint findEndRank (entries : list Z) (endRank : Z) : Z :=
  match entries with
  | [] => endRank
  | r :: rest =>
      if r =? endRank then
        match rest with
        | r' :: _ =>
            if r' =? endRank + 1 then findEndRank rest (endRank + 1)
            else endRank
        | [] => endRank
        end
      else findEndRank rest endRank
  end.

Definition deleteConversation (conversationId : string) (db : Backend)
  : bool * Backend :=
  match parseConversationId conversationId with
  | None => (false, db)
  | Some startRank =>
      match select_ranks_from startRank db with
      | (Error fetchError, db1) => (false, db1)
      | (Ok [], db1) => (false, db1)
      | (Ok entries, db1) =>
          let endRank := findEndRank entries startRank in
          match delete_range startRank endRank db1 with
          | (Error _, db2) => (false, db2)
          | (Ok _, db2) => (true, db2)
          end
      end
  end.

(** The loop of [getConversationMessages] collecting the entries whose
    ranks are [expectedRank], [expectedRank + 1], ... and stopping at the
    first other rank. *)
Fixpoint continuousEntries (entries : list DbChatHistory) (expectedRank : Z)
  : list DbChatHistory :=
  match entries with
  | [] => []
  | entry :: rest =>
      if chat_rank entry =? expectedRank
      then entry :: continuousEntries rest (expectedRank + 1)
      else []
  end.

Definition getConversationMessages (env : Env) (conversationId : string)
           (db : Backend) : list Message * Backend :=
  match parseConversationId conversationId with
  | None => ([], db)
  | Some startRank =>
      match select_from startRank db with
      | (Error fetchError, db1) => ([], db1)
      | (Ok [], db1) => ([], db1)
      | (Ok entries, db1) =>
          (pushMessages env (continuousEntries entries startRank), db1)
      end
  end.

(* ================================================================== *)
(** * Vocabulary of the statements *)
(* ================================================================== *)

(** The rule of the design for where a run starts: at the first entry
    overall, or where the previous entry's rank is not exactly the current
    rank minus one. *)
Definition startsRun (prevEntry : option DbChatHistory) (entry : DbChatHistory)
  : bool :=
  match prevEntry with
  | None => true
  | Some prev => negb (chat_rank prev =? chat_rank entry - 1)
  end.

(** The ranks of the entries of a log at which that rule starts a run,
    oldest first. *)
Fixpoint runStarts (prevEntry : option DbChatHistory)
         (log : list DbChatHistory) : list Z :=
  match log with
  | [] => []
  | entry :: log' =>
      (if startsRun prevEntry entry then [chat_rank entry] else [])
        ++ runStarts (Some entry) log'
  end.

(** The runs of a log as non-empty lists (first entry, later entries),
    oldest first: an entry joins the run that follows it when that run
    begins one rank above it. *)
Fixpoint groupRuns (log : list DbChatHistory)
  : list (DbChatHistory * list DbChatHistory) :=
  match log with
  | [] => []
  | entry :: log' =>
      match groupRuns log' with
      | (next, others) :: runs =>
          if chat_rank next =? chat_rank entry + 1
          then (entry, next :: others) :: runs
          else (entry, []) :: (next, others) :: runs
      | [] => [(entry, [])]
      end
  end.

(** The run being built absorbs the first of the runs still to come when
    that one begins one rank above the previous entry. *)
Definition attach (cur : DbChatHistory * list DbChatHistory)
           (prev : DbChatHistory)
           (runs : list (DbChatHistory * list DbChatHistory))
  : list (DbChatHistory * list DbChatHistory) :=
  match runs with
  | (next, others) :: runs' =>
      if chat_rank next =? chat_rank prev + 1
      then (fst cur, snd cur ++ next :: others) :: runs'
      else cur :: (next, others) :: runs'
  | [] => [cur]
  end.

(** The two messages of an entry, spelled out. *)
Definition entryMessages (env : Env) (entry : DbChatHistory) : list Message :=
  [ mkMessage (chat_id entry ++ "_user")%string (user_request entry) user
              (formatTime env (created_at entry)) None;
    mkMessage (chat_id entry ++ "_assistant")%string (ai_response entry)
              assistant (formatTime env (created_at entry)) None ].

(** The accumulator the segmenter holds for a run. *)
Definition runOf (g : DbChatHistory * list DbChatHistory) : ConvData :=
  mkConvData (chat_rank (fst g)) (fst g :: snd g)
             ("conv_" ++ Js.toString (chat_rank (fst g)))%string.

(** The conversation [createConversationFromEntries] builds from it. *)
Definition conversationOf (env : Env)
           (g : DbChatHistory * list DbChatHistory) : Conversation :=
  mkConversation
    ("conv_" ++ Js.toString (chat_rank (fst g)))%string
    (truncate 50 (user_request (fst g)))
    (formatTimestamp env (created_at (hd (fst g) (rev (snd g)))))
    (truncate 100 (user_request (fst g)))
    (pushMessages env (fst g :: snd g))
    ("conv_" ++ Js.toString (chat_rank (fst g)))%string
    (chat_rank (fst g)).

(** Ranks [r], [r + 1], [r + 2], ... along a list of entries. *)
Fixpoint consecutiveFrom (r : Z) (entries : list DbChatHistory) : Prop :=
  match entries with
  | [] => True
  | entry :: rest => chat_rank entry = r /\ consecutiveFrom (r + 1) rest
  end.

(** Strictly increasing ranks. *)
Definition rank_lt (a b : DbChatHistory) : Prop := chat_rank a < chat_rank b.

(** Ranks in ascending order. *)
Definition rank_le (a b : DbChatHistory) : Prop := chat_rank a <= chat_rank b.

(** The rows of a user, in rank order: what [fetchConversations] reads. *)
Definition historyOf (userId : string) (db : Backend) : list DbChatHistory :=
  order_by_rank (filter (eq_user userId) (chat_history db)).

(** The index [idx_chat_history_user_rank]: no two rows share
    [(user_id, chat_rank)]. *)
Definition uniqueRanks (rows : list DbChatHistory) : Prop :=
  NoDup (map (fun r => (user_id r, chat_rank r)) rows).

(** A table that holds rows of one user only. *)
Definition singleUser (userId : string) (rows : list DbChatHistory) : Prop :=
  Forall (fun r => user_id r = userId) rows.

(** The next call to the backend is not hit by a transport failure. *)
Definition reachable (db : Backend) : Prop :=
  hd false (faults db) = false.

(** The next two calls to the backend go through. *)
Definition reachableTwice (db : Backend) : Prop :=
  hd false (faults db) = false /\ hd false (tl (faults db)) = false.

(** Sample data. *)
Definition sampleEnv : Env :=
  mkEnv 1700000000000 "2023-11-14T22:13:20.000Z" "k3j9x0q2a"
        (fun iso => iso) (fun iso => iso).

Definition sampleRow (userId : string) (rank : Z) : DbChatHistory :=
  mkRow (chatId userId rank) userId
        ("question " ++ Js.toString rank)%string
        ("answer " ++ Js.toString rank)%string
        rank "2023-11-14T22:13:20.000Z" "2023-11-14T22:13:20.000Z".

Definition sampleDb (rows : list DbChatHistory) (faults : list bool) : Backend :=
  mkBackend ["ann@example.com"; "bob@example.com"] rows faults [].

(** The log of the first scenario: ranks 1, 2, 3, 5, 6 of one user, stored
    in no particular order. *)
Definition sampleLog : list DbChatHistory :=
  map (sampleRow "ann@example.com") [3; 1; 6; 2; 5].

(** A second client of the same user that appends at rank 4 while the
    first one is between its read and its insert. *)
Definition rival (db : Backend) : Backend :=
  snd (insert (sampleRow "ann@example.com" 4) db).

(** The row [createChatEntry] tries to insert once the greatest rank is
    known. *)
Definition newRow (env : Env) (userId userRequest aiResponse : string)
           (maxRankData : option Z) : DbChatHistory :=
  mkRow (chatId userId (nextRankOf maxRankData)) userId userRequest aiResponse
        (nextRankOf maxRankData) (isoNow env) (isoNow env).

(** The table of the collision scenario: ranks 1, 2, 3 of one user. *)
Definition collisionDb : Backend :=
  sampleDb (map (sampleRow "ann@example.com") [1; 2; 3]) [].

(** A table with a gap left by a deletion: ranks 5 and 6 of one user; the
    first call to come is hit by a transport failure. *)
Definition gappedDb : Backend :=
  sampleDb (map (sampleRow "ann@example.com") [5; 6]) [true].

(** Two users who each have one exchange, at rank 1. *)
Definition twoUsersDb : Backend :=
  sampleDb [sampleRow "ann@example.com" 1; sampleRow "bob@example.com" 1] [].

(** One user with the run 1, 2, 3 and another with a row at rank 2. *)
Definition overlapDb : Backend :=
  sampleDb [sampleRow "ann@example.com" 1; sampleRow "ann@example.com" 2;
            sampleRow "ann@example.com" 3; sampleRow "bob@example.com" 2] [].

(** One exchange typed in the current session. *)
Definition sampleMessages : list Message :=
  [ mkMessage "msg_1" "What is a monad?" user "10:13 PM" None;
    mkMessage "msg_2" "A monoid in the category of endofunctors." assistant
              "10:13 PM" None ].

(** The requests of a journal that read the greatest rank, and those that
    insert a row. *)
Definition isSelectMaxRank (q : Request) : bool :=
  match q with SelectMaxRank _ => true | _ => false end.

Definition isInsert (q : Request) : bool :=
  match q with Insert _ => true | _ => false end.

(* ================================================================== *)
(** * The SQL helpers of the schema *)
(* ================================================================== *)

(** [MAX(chat_rank)] over the selected rows; [None] is NULL, the value of
    the aggregate on no row. *)
Fixpoint sqlMax (ranks : list Z) : option Z :=
  match ranks with
  | [] => None
  | r :: rest =>
      match sqlMax rest with
      | None => Some r
      | Some m => Some (Z.max r m)
      end
  end.

(** [get_next_chat_rank(p_user_id)]:
    [SELECT COALESCE(MAX(chat_rank), 0) + 1 FROM chat_history
     WHERE user_id = p_user_id]. *)
Definition get_next_chat_rank (p_user_id : string)
           (rows : list DbChatHistory) : Z :=
  match sqlMax (map chat_rank (filter (eq_user p_user_id) rows)) with
  | Some m => m
  | None => 0
  end + 1.

(** [create_chat_entry(p_user_id, p_user_request, p_ai_response)]: the
    rank from [get_next_chat_rank], the id [p_user_id || v_chat_rank], and
    one INSERT whose [created_at] and [updated_at] take the column default
    [NOW()], here [now]. The function runs inside the database, so there
    is no transport to fail; a violated constraint raises, which is the
    [Error] result. *)
Definition create_chat_entry (now : string)
           (p_user_id p_user_request p_ai_response : string) (db : Backend)
  : Result string * Backend :=
  let v_chat_rank := get_next_chat_rank p_user_id (chat_history db) in
  let v_chat_id := (p_user_id ++ Js.toString v_chat_rank)%string in
  let row := mkRow v_chat_id p_user_id p_user_request p_ai_response
                   v_chat_rank now now in
  if key_taken row (chat_history db) then (Error DuplicateKey, db)
  else if negb (known_user p_user_id db) then (Error ForeignKeyViolation, db)
  else (Ok v_chat_id, with_rows (chat_history db ++ [row]) db).

(* ================================================================== *)
(** * Vocabulary of the further properties *)
(* ================================================================== *)

(** No row of another user, and no row of the user at another rank,
    carries an id that [userId] derives: with ids made by concatenation
    this is a condition on the table, not a consequence of the schema. *)
Definition idsOwned (userId : string) (rows : list DbChatHistory) : Prop :=
  forall r k,
    In r rows -> chat_id r = chatId userId k ->
    user_id r = userId /\ chat_rank r = k.

(** Every row carries the id derived from its user and rank. *)
Definition derivedIds (rows : list DbChatHistory) : Prop :=
  Forall (fun r => chat_id r = chatId (user_id r) (chat_rank r)) rows.

(** The caller is alone: nothing happens between its read and its
    insert. *)
Definition alone (db : Backend) : Backend := db.

(** No transport failure is to come. *)
Definition faultFree (db : Backend) : Prop := faults db = [].

(** A table of two users with derived ids. *)
Definition mixedDb : Backend :=
  sampleDb [sampleRow "ann@example.com" 1; sampleRow "bob@example.com" 1;
            sampleRow "ann@example.com" 2; sampleRow "ann@example.com" 4] [].

(** A row that [saveCurrentSession] sends for [userId] out of the messages
    [msgs]: a row of that user with the derived id, made of the content of
    a user message and of an assistant message of the list. *)
Definition sentFrom (userId : string) (msgs : list Message)
           (r : DbChatHistory) : Prop :=
  user_id r = userId
  /\ chat_id r = chatId userId (chat_rank r)
  /\ exists mu ma,
      In mu msgs /\ In ma msgs /\ role mu = user /\ role ma = assistant
      /\ user_request r = content mu /\ ai_response r = content ma.

(* ================================================================== *)
(** * The callers in [App.tsx] *)
(* ================================================================== *)


(** The updater of [handleDeleteConversation]:
    [prev => prev.filter(conv => conv.id !== id)]. *)
Definition removeConversation (convId : string) (prev : list Conversation)
  : list Conversation :=
  filter (fun conv => negb (String.eqb (id conv) convId)) prev.

(** A string in which no decimal digit occurs. *)
Fixpoint noDigits (s : string) : bool :=
  match s with
  | EmptyString => true
  | String c s' => negb (Js.is_digit c) && noDigits s'
  end.

(** The exchanges of a chat, each saved as it completes: what
    [handleSendMessage] does with [createChatEntry] after every answer,
    here for a caller that is alone. *)
Fixpoint appendExchanges (env : Env) (userId : string)
         (exchanges : list (string * string)) (st : Session) (db : Backend)
  : Session * Backend :=
  match exchanges with
  | [] => (st, db)
  | (userRequest, aiResponse) :: rest =>
      let '(_, st', db') :=
        createChatEntry env alone userId userRequest aiResponse st db in
      appendExchanges env userId rest st' db'
  end.

(** The row stored for an exchange at a rank. *)
Definition exchangeRow (env : Env) (userId : string) (rank : Z)
           (exchange : string * string) : DbChatHistory :=
  mkRow (chatId userId rank) userId (fst exchange) (snd exchange) rank
        (isoNow env) (isoNow env).

(** The rows of a list of exchanges stored from a rank on. *)
Fixpoint exchangeRows (env : Env) (userId : string) (rank : Z)
         (exchanges : list (string * string)) : list DbChatHistory :=
  match exchanges with
  | [] => []
  | x :: rest =>
      exchangeRow env userId rank x :: exchangeRows env userId (rank + 1) rest
  end.

(** The messages of a session in which every exchange is a user message
    followed by an assistant message. *)
Definition sessionMessages (ids : string) (time : string)
           (exchanges : list (string * string)) : list Message :=
  flat_map (fun x => [ mkMessage ids (fst x) user time None;
                       mkMessage ids (snd x) assistant time None ])
           exchanges.

(** No text of the exchanges is one that [saveCurrentSession] takes for
    the default greeting. *)
Definition noDefaultText (exchanges : list (string * string)) : Prop :=
  Forall (fun x =>
            isDefaultMessage (mkMessage "" (fst x) user "" None) = false
            /\ isDefaultMessage (mkMessage "" (snd x) assistant "" None)
               = false) exchanges.

(** A string in which no underscore occurs, as the base-36 suffix of a
    session id. *)
Fixpoint noUnderscore (s : string) : bool :=
  match s with
  | EmptyString => true
  | String c s' => negb (Ascii.eqb c "_") && noUnderscore s'
  end.

(* ================================================================== *)
(** * Feedback management *)
(* ================================================================== *)

(** The feedback functions of the data-access module and the [feedback]
    table of [FEEDBACK_TABLE_SCHEMA.sql].  The table lives beside [users],
    which its foreign key [fk_feedback_user] references. *)
Module Feedback.

Inductive FeedbackType : Type := General | Bug | Suggestion | Praise.

Definition feedbackTypeText (t : FeedbackType) : string :=
  match t with
  | General => "general"
  | Bug => "bug"
  | Suggestion => "suggestion"
  | Praise => "praise"
  end.

(** The [status] argument of [updateFeedbackStatus]. *)
Inductive Status : Type := New | Reviewed | Resolved.

Definition statusText (s : Status) : string :=
  match s with
  | New => "new"
  | Reviewed => "reviewed"
  | Resolved => "resolved"
  end.

(** [interface FeedbackData]; an optional field left out is [None]. *)
Record FeedbackData : Type := mkFeedbackData {
  feedback : string;
  name : option string;
  contact : option string;
  feedbackType : option FeedbackType
}.

(** [interface FeedbackEntry], a row of the table. *)
Record FeedbackEntry : Type := mkFeedbackEntry {
  feedback_id : string;
  user_id : option string;
  feedback_text : string;
  user_name : option string;
  contact_info : option string;
  feedback_type : string;
  status : string;
  created_at : string;
  updated_at : string
}.

(** [x || null] on an optional string: [undefined], [null] and the empty
    string all give [null]. *)
Definition orNull (x : option string) : option string :=
  match x with
  | Some EmptyString => None
  | Some s => Some s
  | None => None
  end.

(** The two tables and the transport failures still to come, one flag per
    call. *)
Record Store : Type := mkStore {
  users : list string;
  feedback_table : list FeedbackEntry;
  faults : list bool
}.

Definition receive (db : Store) : bool * Store :=
  match faults db with
  | [] => (false, db)
  | f :: fs => (f, mkStore (users db) (feedback_table db) fs)
  end.

Definition id_taken (feedbackId : string) (rows : list FeedbackEntry) : bool :=
  existsb (fun r => String.eqb (feedback_id r) feedbackId) rows.

(** [fk_feedback_user]: a [user_id] that is not [NULL] must be in [users]. *)
Definition user_allowed (userId : option string) (db : Store) : bool :=
  match userId with
  | None => true
  | Some u => existsb (String.eqb u) (users db)
  end.

(** [from('feedback').insert(row)]. *)
Definition insert (row : FeedbackEntry) (db : Store) : Result unit * Store :=
  let '(failed, db') := receive db in
  if failed then (Error TransportError, db')
  else if id_taken (feedback_id row) (feedback_table db) then
    (Error DuplicateKey, db')
  else if negb (user_allowed (user_id row) db) then
    (Error ForeignKeyViolation, db')
  else
    (Ok tt, mkStore (users db') (feedback_table db ++ [row]) (faults db')).

Definition set_status (statusValue updatedAt : string) (r : FeedbackEntry)
  : FeedbackEntry :=
  mkFeedbackEntry (feedback_id r) (user_id r) (feedback_text r) (user_name r)
                  (contact_info r) (feedback_type r) statusValue
                  (created_at r) updatedAt.

(** [from('feedback').update({ status, updated_at }).eq('feedback_id', id)]. *)
Definition update_status (feedbackId statusValue updatedAt : string)
           (db : Store) : Result unit * Store :=
  let '(failed, db') := receive db in
  if failed then (Error TransportError, db')
  else
    (Ok tt,
     mkStore (users db')
             (map (fun r => if String.eqb (feedback_id r) feedbackId
                            then set_status statusValue updatedAt r else r)
                  (feedback_table db))
             (faults db')).

(** [from('feedback').select('status')]. *)
Definition select_status (db : Store) : Result (list string) * Store :=
  let '(failed, db') := receive db in
  if failed then (Error TransportError, db')
  else (Ok (map status (feedback_table db)), db').

Definition newFeedbackId (env : Env) : string :=
  ("feedback_" ++ Js.toString (dateNow env) ++ "_" ++ randomSuffix env)%string.

(** The object [submitFeedback] passes to [insert]. *)
Definition submittedRow (env : Env) (feedbackData : FeedbackData)
           (userId : option string) : FeedbackEntry :=
  mkFeedbackEntry (newFeedbackId env) (orNull userId) (feedback feedbackData)
                  (orNull (name feedbackData))
                  (orNull (contact feedbackData))
                  (match feedbackType feedbackData with
                   | Some t => feedbackTypeText t
                   | None => "general"
                   end)
                  "new" (isoNow env) (isoNow env).

Definition submitFeedback (env : Env) (feedbackData : FeedbackData)
           (userId : option string) (db : Store) : option string * Store :=
  let feedbackId := newFeedbackId env in
  let row := submittedRow env feedbackData userId in
  match insert row db with
  | (Error _, db') => (None, db')
  | (Ok _, db') => (Some feedbackId, db')
  end.

Definition updateFeedbackStatus (env : Env) (feedbackId : string)
           (statusValue : Status) (db : Store) : bool * Store :=
  match update_status feedbackId (statusText statusValue) (isoNow env) db with
  | (Error _, db') => (false, db')
  | (Ok _, db') => (true, db')
  end.

Record Stats : Type := mkStats {
  total : Z;
  new : Z;
  reviewed : Z;
  resolved : Z
}.

(** [data.filter(f => f.status === s).length]. *)
Definition countStatus (s : string) (data : list string) : Z :=
  Z.of_nat (List.length (filter (String.eqb s) data)).

Definition getFeedbackStats (db : Store) : Stats * Store :=
  match select_status db with
  | (Error _, db') => (mkStats 0 0 0 0, db')
  | (Ok data, db') =>
      (mkStats (Z.of_nat (List.length data))
               (countStatus "new" data)
               (countStatus "reviewed" data)
               (countStatus "resolved" data),
       db')
  end.

(** The calls of the module that write the table. *)
Inductive Call : Type :=
| Submit (env : Env) (feedbackData : FeedbackData) (userId : option string)
| UpdateStatus (env : Env) (feedbackId : string) (statusValue : Status)
| ReadStats.

Definition call (c : Call) (db : Store) : Store :=
  match c with
  | Submit env feedbackData userId =>
      snd (submitFeedback env feedbackData userId db)
  | UpdateStatus env feedbackId statusValue =>
      snd (updateFeedbackStatus env feedbackId statusValue db)
  | ReadStats => snd (getFeedbackStats db)
  end.

(** The stores the module reaches from a table without rows. *)
Definition reached (users0 : list string) (faults0 : list bool)
           (calls : list Call) : Store :=
  fold_left (fun db c => call c db) calls (mkStore users0 [] faults0).

(** The statuses the module writes. *)
Definition isStatus (s : string) : bool :=
  String.eqb s "new" || String.eqb s "reviewed" || String.eqb s "resolved".

(** What a store of the module satisfies: the primary key, the foreign
    key, and statuses among the three the module writes. *)
Definition wellFormed (users0 : list string) (db : Store) : Prop :=
  users db = users0
  /\ NoDup (map feedback_id (feedback_table db))
  /\ Forall (fun r => isStatus (status r) = true) (feedback_table db)
  /\ Forall (fun r => user_allowed (user_id r) db = true) (feedback_table db).

(** [0] or [1] as a condition holds. *)
Definition one_if (b : bool) : Z := if b then 1 else 0.

Definition sampleEntry (feedbackId statusValue : string) : FeedbackEntry :=
  mkFeedbackEntry feedbackId None "text" None None "general" statusValue
                  "2023-11-14T22:13:20.000Z" "2023-11-14T22:13:20.000Z".

Definition sampleFeedback : FeedbackData :=
  mkFeedbackData "Great app" (Some "") None None.

Definition sampleStore : Store := mkStore ["ann@example.com"] [] [].

End Feedback.

(* ================================================================== *)
(** * Display of a conversation's age *)
(* ================================================================== *)

Module Display.

(** [formatTimestamp(isoString)] on the two instants it compares, in
    milliseconds: [now] is [new Date().getTime()] and [date] is
    [new Date(isoString).getTime()]; [toLocaleDateString] is the
    environment's.  [Math.floor(x / k)] is [x / k] on [Z]. *)
Definition formatTimestamp (toLocaleDateString : Z -> string)
           (now date : Z) : string :=
  let diffInMs := now - date in
  let diffInMinutes := diffInMs / 60000 in
  let diffInHours := diffInMs / 3600000 in
  let diffInDays := diffInMs / 86400000 in
  if diffInMinutes <? 1 then "Just now"
  else if diffInMinutes <? 60 then
    (Js.toString diffInMinutes ++ " min ago")%string
  else if diffInHours <? 24 then
    (Js.toString diffInHours ++ " hour"
       ++ (if (1 <? diffInHours)%Z then "s" else "") ++ " ago")%string
  else if diffInDays <? 7 then
    (Js.toString diffInDays ++ " day"
       ++ (if (1 <? diffInDays)%Z then "s" else "") ++ " ago")%string
  else toLocaleDateString date.

(** [k] whole units of [unit] milliseconds have passed, and not [k + 1]. *)
Definition wholeUnits (unit k diffInMs : Z) : Prop :=
  unit * k <= diffInMs < unit * (k + 1).

End Display.

(* ================================================================== *)
(** * The answer generator and its retries *)
(* ================================================================== *)

(** [GeminiService.generateResponse] of [gemini.ts], which
    [handleSendMessage] calls before it stores the exchange: the fallback
    to the next model on a 404 and the retries with back-off.  The prompt
    and the attachments do not steer the control flow and are left out. *)
Module Gemini.

(** What [await this.model.generateContent(parts)] and the reading of the
    response come to: a text, an [Error] with a message, or another thrown
    value. *)
Inductive Outcome : Type :=
| Resolves (text : string)
| Rejects (message : string)
| RejectsOther.

(** The environment: the key, the outcome of each call to the API in the
    order of the calls, [String.prototype.toLowerCase], and the two
    [replace] calls that strip a leading "Assistant:" or "AI:". *)
Record Runtime : Type := mkRuntime {
  API_KEY : string;
  generateContent : nat -> Outcome;
  toLowerCase : string -> string;
  cleanUp : string -> string
}.

Definition isApiKeyConfigured (rt : Runtime) : bool :=
  negb (String.eqb (API_KEY rt) "")
  && negb (String.eqb (API_KEY rt) "YOUR_API_KEY_HERE").

Definition modelNames : list string :=
  [ "gemini-2.0-flash-exp"; "gemini-1.5-flash-latest"; "gemini-1.5-flash";
    "gemini-pro" ].

(** The service object, with two counters added for the statements: the
    calls made to the API and the milliseconds spent in back-off. *)
Record Service : Type := mkService {
  currentModelIndex : nat;
  calls : nat;
  waited : Z
}.

(** [tryNextModel]: [None] is the thrown 'All available models have been
    tried'. *)
Definition tryNextModel (sv : Service) : option Service :=
  if (currentModelIndex sv <? List.length modelNames - 1)%nat then
    Some (mkService (S (currentModelIndex sv)) (calls sv) (waited sv))
  else None.

(** The messages for which a retry is made. *)
Definition retryable (rt : Runtime) (message : string) : bool :=
  let errorMessage := toLowerCase rt message in
  Js.includes "network" errorMessage
  || Js.includes "timeout" errorMessage
  || Js.includes "overload" errorMessage
  || Js.includes "502" errorMessage
  || Js.includes "503" errorMessage
  || Js.includes "504" errorMessage.

(** What the caller gets: the cleaned text, one of the apologies (chosen
    from the message of the error, [None] for a thrown value that is no
    [Error]), or the exception of a missing key. *)
Inductive Reply : Type :=
| Answer (text : string)
| Apology (message : option string)
| Throws.

Definition maxRetries : nat := 3.

Definition called (sv : Service) : Service :=
  mkService (currentModelIndex sv) (S (calls sv)) (waited sv).

Definition backOff (retryCount : nat) (sv : Service) : Service :=
  mkService (currentModelIndex sv) (calls sv)
            (waited sv + 2 ^ Z.of_nat retryCount * 1000).

(** [generateResponse]; the recursion is on [fuel], one unit per call of
    the API, and [None] is a run that needs more. *)
Fixpoint generateResponse (fuel : nat) (rt : Runtime) (retryCount : nat)
         (sv : Service) : option (Reply * Service) :=
  if negb (isApiKeyConfigured rt) then Some (Throws, sv)
  else
    match fuel with
    | O => None
    | S fuel' =>
        let sv1 := called sv in
        match generateContent rt (calls sv) with
        | Resolves text => Some (Answer (cleanUp rt text), sv1)
        | RejectsOther => Some (Apology None, sv1)
        | Rejects message =>
            let retry :=
              if (retryCount <? maxRetries)%nat && retryable rt message then
                generateResponse fuel' rt (S retryCount)
                                 (backOff retryCount sv1)
              else Some (Apology (Some message), sv1) in
            if Js.includes "404" message then
              match tryNextModel sv1 with
              | Some sv2 => generateResponse fuel' rt 0 sv2
              | None => retry
              end
            else retry
        end
    end.

(** The calls a run can still make: four per model left after the current
    one, and what is left of the four of the current one. *)
Definition callsLeft (retryCount : nat) (sv : Service) : nat :=
  4 * (3 - currentModelIndex sv) + Nat.max 1 (4 - retryCount).

(** The back-off a run can still spend, in milliseconds. *)
Definition backOffLeft (retryCount : nat) (sv : Service) : Z :=
  7000 * Z.of_nat (3 - currentModelIndex sv)
  + (8000 - 2 ^ Z.of_nat (Nat.min retryCount 3) * 1000).

(** What a run of [generateResponse] may have done to the service. *)
Definition withinBounds (retryCount : nat) (sv sv' : Service) : Prop :=
  (calls sv <= calls sv' <= calls sv + callsLeft retryCount sv)%nat
  /\ (currentModelIndex sv <= currentModelIndex sv'
      <= Nat.max (currentModelIndex sv) 3)%nat
  /\ waited sv <= waited sv' <= waited sv + backOffLeft retryCount sv.

(** An API that answers every fourth call with a 404 and the others with
    a 503. *)
Definition worstRuntime : Runtime :=
  mkRuntime "key"
            (fun n => if (n mod 4 =? 3)%nat then Rejects "404 Not Found"
                      else Rejects "503 Service Unavailable")
            (fun s => s) (fun s => s).

End Gemini.

(* ================================================================== *)
(** * Restoring the active conversation in [App.tsx] *)
(* ================================================================== *)

(** The branch "use most recent conversation" of the data loader:
    [dbConversations[0]] when it has messages, otherwise a new session.
    The result names the conversation whose messages are shown, [None]
    standing for the default messages. *)
Definition useMostRecent (env : Env) (dbConversations : list Conversation)
           (st : Session) : option Conversation * Session :=
  match dbConversations with
  | mostRecentConv :: _ =>
      if (0 <? List.length (messages mostRecentConv))%nat then
        (Some mostRecentConv,
         setCurrentSession (sessionId mostRecentConv)
                           (startRank mostRecentConv) st)
      else (None, snd (startNewSession env st))
  | [] => (None, snd (startNewSession env st))
  end.

(** What the data loader does with the list it fetched and the id saved
    under [brothers_ai_active_conversation_<userId>] ([None] when the key
    is absent). *)
Definition restoreActiveConversation (env : Env)
           (savedActiveConv : option string)
           (dbConversations : list Conversation) (st : Session)
  : option Conversation * Session :=
  match savedActiveConv, dbConversations with
  | Some (String c s), _ :: _ =>
      match find (fun conv => String.eqb (id conv) (String c s))
                 dbConversations with
      | Some lastConversation =>
          if (0 <? List.length (messages lastConversation))%nat then
            (Some lastConversation,
             setCurrentSession (sessionId lastConversation)
                               (startRank lastConversation) st)
          else useMostRecent env dbConversations st
      | None => useMostRecent env dbConversations st
      end
  | _, _ :: _ => useMostRecent env dbConversations st
  | _, [] => (None, snd (startNewSession env st))
  end.

(* ================================================================== *)
(** * Properties of the string primitives *)
(* ================================================================== *)

Module JsFacts.
Import Js.

Lemma toString_inj (n m : Z) : toString n = toString m -> n = m.
Proof.
  unfold toString. intros H.
  apply DecimalZ.to_int_inj.
  pose proof (NilEmpty.isi (Z.to_int n)) as Hn.
  pose proof (NilEmpty.isi (Z.to_int m)) as Hm.
  rewrite H in Hn. congruence.
Qed.

Lemma all_digits_uint (d : Decimal.uint) :
  all_digits (NilEmpty.string_of_uint d) = true.
Proof. induction d; simpl; auto. Qed.

Lemma to_uint_nonnil (p : positive) : Pos.to_uint p <> Decimal.Nil.
Proof.
  intros H.
  pose proof (DecimalPos.Unsigned.of_to p) as Hp.
  rewrite H in Hp. discriminate.
Qed.

Lemma toString_pos (p : positive) :
  toString (Zpos p) = NilEmpty.string_of_uint (Pos.to_uint p).
Proof. reflexivity. Qed.

Lemma toString_neg (p : positive) :
  toString (Zneg p) = String "-" (NilEmpty.string_of_uint (Pos.to_uint p)).
Proof. reflexivity. Qed.

Lemma toString_digits (n : Z) : 0 <= n -> all_digits (toString n) = true.
Proof.
  destruct n as [|p|p]; intros Hn.
  - reflexivity.
  - rewrite toString_pos. apply all_digits_uint.
  - lia.
Qed.

Lemma string_of_uint_nonempty (d : Decimal.uint) :
  d <> Decimal.Nil -> NilEmpty.string_of_uint d <> EmptyString.
Proof. destruct d; simpl; congruence. Qed.

Lemma toString_nonempty (n : Z) : toString n <> EmptyString.
Proof.
  destruct n as [|p|p].
  - discriminate.
  - rewrite toString_pos. apply string_of_uint_nonempty, to_uint_nonnil.
  - rewrite toString_neg. discriminate.
Qed.

Lemma append_cancel_l (u a b : string) :
  (u ++ a)%string = (u ++ b)%string -> a = b.
Proof. induction u; simpl; intros H; [assumption | injection H; auto]. Qed.

Lemma all_digits_app (a b : string) :
  all_digits (a ++ b)%string = all_digits a && all_digits b.
Proof.
  induction a; simpl; [reflexivity|].
  rewrite IHa. now rewrite andb_assoc.
Qed.

Lemma last_char_digits (s : string) (c : ascii) :
  all_digits s = true -> last_char s = Some c -> is_digit c = true.
Proof.
  induction s as [|a s IH]; simpl; [discriminate|].
  intros Ha Hl. apply andb_true_iff in Ha as [Ha Hs].
  destruct s as [|b s'].
  - now injection Hl as <-.
  - now apply IH.
Qed.

Lemma last_char_app (u d : string) :
  d <> EmptyString -> last_char (u ++ d)%string = last_char d.
Proof.
  intros Hd. induction u as [|a u IH]; simpl; [reflexivity|].
  destruct (u ++ d)%string eqn:E.
  - destruct u; simpl in E; [contradiction | discriminate].
  - exact IH.
Qed.

(** A digit string cannot start with a non-empty prefix that ends in a
    non-digit. *)
Lemma digits_no_prefix (u d : string) :
  all_digits (u ++ d)%string = true ->
  (match last_char u with Some c => negb (is_digit c) | None => true end) = true ->
  u = EmptyString.
Proof.
  intros Had Hu.
  rewrite all_digits_app in Had. apply andb_true_iff in Had as [Hud _].
  destruct (last_char u) as [c|] eqn:El.
  - rewrite (last_char_digits u c Hud El) in Hu. discriminate.
  - destruct u as [|a u]; [reflexivity|].
    exfalso. clear -El. revert a El.
    induction u as [|b u IH]; simpl; intros a El; [discriminate|].
    now apply (IH b).
Qed.

Lemma last_char_tail (a : ascii) (u : string) :
  (match last_char (String a u) with
   | Some c => negb (is_digit c) | None => true end) = true ->
  (match last_char u with
   | Some c => negb (is_digit c) | None => true end) = true.
Proof. destruct u; simpl; auto. Qed.

(** Splitting a string into a part that does not end in a digit and a
    digit suffix is unique. *)
Lemma split_digits_unique (u1 u2 d1 d2 : string) :
  (match last_char u1 with Some c => negb (is_digit c) | None => true end) = true ->
  (match last_char u2 with Some c => negb (is_digit c) | None => true end) = true ->
  all_digits d1 = true -> all_digits d2 = true ->
  (u1 ++ d1)%string = (u2 ++ d2)%string -> u1 = u2 /\ d1 = d2.
Proof.
  revert u2. induction u1 as [|a u1 IH]; intros u2 H1 H2 Hd1 Hd2 E.
  - simpl in E. subst d1.
    rewrite (digits_no_prefix u2 d2 Hd1 H2). auto.
  - destruct u2 as [|b u2].
    + simpl in E. subst d2.
      pose proof (digits_no_prefix (String a u1) d1 Hd2 H1). discriminate.
    + simpl in E. injection E as -> E.
      destruct (IH u2 (last_char_tail _ _ H1) (last_char_tail _ _ H2) Hd1 Hd2 E)
        as [-> ->].
      auto.
Qed.

End JsFacts.

(* ================================================================== *)
(** * Entry ids *)
(* ================================================================== *)

(** Two different (user, rank) pairs with the same derived id: user ["a1"]
    at rank 2 and user ["a"] at rank 12 both get ["a12"]. *)
Lemma chatId_collision :
  ~ (forall (u1 u2 : string) (r1 r2 : Z),
        (u1, r1) <> (u2, r2) -> chatId u1 r1 <> chatId u2 r2).
Proof.
  intros H.
  apply (H "a1" "a" 2 12); [discriminate | reflexivity].
Qed.

(** C4, amended: for two entries of the same user, or of users whose ids do
    not end in a decimal digit and with ranks that are not negative,
    distinct (userId, rank) pairs give distinct entry ids. *)
Theorem chatId_unique (u1 u2 : string) (r1 r2 : Z) :
  u1 = u2 \/
  (no_trailing_digit u1 = true /\ no_trailing_digit u2 = true
   /\ 0 <= r1 /\ 0 <= r2) ->
  (u1, r1) <> (u2, r2) ->
  chatId u1 r1 <> chatId u2 r2.
Proof.
  unfold chatId. intros Hside Hne E. apply Hne. clear Hne.
  destruct Hside as [-> | (H1 & H2 & Hr1 & Hr2)].
  - apply JsFacts.append_cancel_l, JsFacts.toString_inj in E. now subst.
  - destruct (JsFacts.split_digits_unique u1 u2 _ _ H1 H2
                (JsFacts.toString_digits r1 Hr1)
                (JsFacts.toString_digits r2 Hr2) E) as [-> Hd].
    apply JsFacts.toString_inj in Hd. now subst.
Qed.

Lemma chatId_unique_witness :
  chatId "ann@example.com" 12 <> chatId "bob@example.org" 12.
Proof.
  apply chatId_unique.
  - right. split; [reflexivity | split; [reflexivity | split; lia]].
  - discriminate.
Defined.

(* ================================================================== *)
(** * The segmenter *)
(* ================================================================== *)

Section Segmenter.

Variable env : Env.

Lemma pushMessages_acc (entries : list DbChatHistory) (acc : list Message) :
  fold_left (fun messages entry =>
               (messages ++ [userMessage env entry])
                 ++ [assistantMessage env entry])
            entries acc
  = acc ++ flat_map (entryMessages env) entries.
Proof.
  revert acc. induction entries as [|e entries IH]; intros acc; simpl.
  - now rewrite app_nil_r.
  - rewrite IH. now rewrite <- !app_assoc.
Qed.

Lemma pushMessages_flat_map (entries : list DbChatHistory) :
  pushMessages env entries = flat_map (entryMessages env) entries.
Proof. unfold pushMessages. now rewrite pushMessages_acc. Qed.

Lemma hd_error_snoc {A : Type} (l : list A) (x : A) :
  hd_error (l ++ [x]) = Some (hd x l).
Proof. now destruct l. Qed.

Lemma createConversationFromEntries_runOf
      (g : DbChatHistory * list DbChatHistory) :
  createConversationFromEntries env (runOf g) = Some (conversationOf env g).
Proof.
  destruct g as [first others].
  unfold createConversationFromEntries, runOf, conversationOf.
  cbn [cd_entries cd_sessionId cd_startRank fst snd hd_error rev].
  now rewrite hd_error_snoc.
Qed.

End Segmenter.

Section SegmentLoop.

Context {A : Type}.
Variable finish : ConvData -> option A.
Variable built : DbChatHistory * list DbChatHistory -> A.
Hypothesis finish_runOf : forall g, finish (runOf g) = Some (built g).

Lemma groupRuns_cons (entry : DbChatHistory) (log : list DbChatHistory) :
  exists others runs, groupRuns (entry :: log) = (entry, others) :: runs.
Proof.
  simpl. destruct (groupRuns log) as [|[next others] runs]; [eauto|].
  destruct (chat_rank next =? chat_rank entry + 1); eauto.
Qed.

Lemma groupRuns_attach (entry : DbChatHistory) (log : list DbChatHistory) :
  groupRuns (entry :: log) = attach (entry, []) entry (groupRuns log).
Proof.
  simpl. unfold attach.
  destruct (groupRuns log) as [|[next others] runs]; reflexivity.
Qed.

Lemma pushFinished_runOf (conversations : list A)
      (g : DbChatHistory * list DbChatHistory) :
  pushFinished finish conversations (Some (runOf g))
  = Some (conversations ++ [built g]).
Proof. unfold pushFinished. simpl. now rewrite finish_runOf. Qed.

(** The loop invariant: from any point of the walk, the loop followed by
    the push of the last run adds to [conversations] the run being built,
    extended as far as the ranks stay consecutive, then the runs of what
    is left. *)
Lemma segmentLoop_runs (rest : list DbChatHistory) :
  forall (prev : DbChatHistory) (cur : DbChatHistory * list DbChatHistory)
         (conversations : list A),
    match segmentLoop finish (Some prev) rest conversations (Some (runOf cur))
    with
    | Some (conversations', currentConversation) =>
        pushFinished finish conversations' currentConversation
    | None => None
    end
    = Some (conversations ++ map built (attach cur prev (groupRuns rest))).
Proof.
  induction rest as [|entry rest IH]; intros prev cur conversations.
  - cbn [segmentLoop groupRuns attach map]. apply pushFinished_runOf.
  - cbn [segmentLoop]. unfold shouldStartNew.
    destruct (groupRuns_cons entry rest) as (others & runs & Hg).
    destruct (chat_rank entry =? chat_rank prev + 1) eqn:Hstep;
      cbn [negb].
    + specialize (IH entry (fst cur, snd cur ++ [entry]) conversations).
      unfold runOf in IH |- *.
      cbn [fst snd cd_startRank cd_entries cd_sessionId app] in IH |- *.
      rewrite IH. do 2 f_equal.
      rewrite Hg. unfold attach at 2. rewrite Hstep.
      rewrite groupRuns_attach in Hg. unfold attach in *.
      destruct (groupRuns rest) as [|[next others'] runs'].
      * injection Hg as <- <-. cbn [fst snd]. reflexivity.
      * cbn [fst snd] in *.
        destruct (chat_rank next =? chat_rank entry + 1);
          injection Hg as <- <-; cbn [app]; rewrite <- ?app_assoc; reflexivity.
    + rewrite pushFinished_runOf.
      specialize (IH entry (entry, []) (conversations ++ [built cur])).
      unfold runOf in IH at 1. cbn [fst snd] in IH. rewrite IH.
      rewrite <- groupRuns_attach, Hg. unfold attach. rewrite Hstep.
      now rewrite <- app_assoc.
Qed.

(** The whole segmenter: the runs of the log, built and reversed. *)
Lemma segment_groupRuns (chatHistory : list DbChatHistory) :
  segment finish chatHistory = Some (rev (map built (groupRuns chatHistory))).
Proof.
  unfold segment. destruct chatHistory as [|entry rest].
  - reflexivity.
  - cbn [segmentLoop shouldStartNew pushFinished].
    pose proof (segmentLoop_runs rest entry (entry, []) []) as H.
    unfold runOf in H at 1. cbn [fst snd] in H.
    destruct (segmentLoop finish (Some entry) rest [] _) as [[cs k]|];
      [|discriminate].
    rewrite H. cbn [app]. now rewrite <- groupRuns_attach.
Qed.

End SegmentLoop.

Section Runs.

Variable env : Env.

Lemma segmentRuns_groupRuns (chatHistory : list DbChatHistory) :
  segmentRuns chatHistory = rev (map runOf (groupRuns chatHistory)).
Proof.
  unfold segmentRuns.
  now rewrite (segment_groupRuns Some runOf (fun g => eq_refl)).
Qed.

Lemma segment_conversations (chatHistory : list DbChatHistory) :
  segment (createConversationFromEntries env) chatHistory
  = Some (rev (map (conversationOf env) (groupRuns chatHistory))).
Proof.
  apply segment_groupRuns. apply createConversationFromEntries_runOf.
Qed.

(** What [fetchConversations] returns: nothing when the read fails,
    otherwise the conversations of the runs of the user's history, newest
    first. *)
Lemma fetchConversations_groupRuns (userId : string) (db : Backend) :
  fst (fetchConversations env userId db)
  = if hd false (faults db) then []
    else rev (map (conversationOf env) (groupRuns (historyOf userId db))).
Proof.
  unfold fetchConversations, select_history, receive, historyOf.
  destruct (faults db) as [|[|] fs]; cbn [hd fst]; try reflexivity.
  - destruct (order_by_rank _) as [|e l] eqn:E; [reflexivity|].
    now rewrite segment_conversations.
  - destruct (order_by_rank _) as [|e l] eqn:E; [reflexivity|].
    now rewrite segment_conversations.
Qed.

Lemma groupRuns_concat (log : list DbChatHistory) :
  flat_map (fun g => fst g :: snd g) (groupRuns log) = log.
Proof.
  induction log as [|entry log IH]; [reflexivity|].
  cbn [groupRuns]. destruct (groupRuns log) as [|[next others] runs].
  - simpl in IH. now subst log.
  - destruct (chat_rank next =? chat_rank entry + 1);
      cbn [flat_map fst snd app] in *; now rewrite IH.
Qed.

Lemma groupRuns_consecutive (log : list DbChatHistory) :
  Forall (fun g => consecutiveFrom (chat_rank (fst g)) (fst g :: snd g))
         (groupRuns log).
Proof.
  induction log as [|entry log IH]; [constructor|].
  cbn [groupRuns]. destruct (groupRuns log) as [|[next others] runs].
  - constructor; [|constructor]. simpl. auto.
  - inversion IH as [|g gs Hnext Hruns]; subst.
    destruct (chat_rank next =? chat_rank entry + 1) eqn:Hstep.
    + constructor; [|assumption].
      apply Z.eqb_eq in Hstep. cbn [fst snd consecutiveFrom] in *.
      rewrite <- Hstep. tauto.
    + constructor; [simpl; auto|]. constructor; assumption.
Qed.

Lemma startsRun_step (prev entry : DbChatHistory) :
  startsRun (Some prev) entry = negb (chat_rank entry =? chat_rank prev + 1).
Proof.
  unfold startsRun. f_equal.
  destruct (chat_rank entry =? chat_rank prev + 1) eqn:E.
  - apply Z.eqb_eq in E. apply Z.eqb_eq. lia.
  - apply Z.eqb_neq in E. apply Z.eqb_neq. lia.
Qed.

Lemma groupRuns_starts_cons (log : list DbChatHistory) :
  forall entry,
    map (fun g => chat_rank (fst g)) (groupRuns (entry :: log))
    = chat_rank entry :: runStarts (Some entry) log.
Proof.
  induction log as [|next log IH]; intros entry; [reflexivity|].
  specialize (IH next).
  change (groupRuns (entry :: next :: log))
    with (match groupRuns (next :: log) with
          | (n, others) :: runs =>
              if chat_rank n =? chat_rank entry + 1
              then (entry, n :: others) :: runs
              else (entry, []) :: (n, others) :: runs
          | [] => [(entry, [])]
          end).
  destruct (groupRuns_cons next log) as (others & runs & Hg).
  rewrite Hg in *. cbn [runStarts]. rewrite startsRun_step.
  cbn [map fst] in IH. injection IH as IH.
  destruct (chat_rank next =? chat_rank entry + 1); cbn [map fst negb app];
    now rewrite IH.
Qed.

Lemma groupRuns_starts (log : list DbChatHistory) :
  map (fun g => chat_rank (fst g)) (groupRuns log) = runStarts None log.
Proof.
  destruct log as [|entry log]; [reflexivity|].
  now rewrite groupRuns_starts_cons.
Qed.

End Runs.

(* ================================================================== *)
(** * Reading the table in rank order *)
(* ================================================================== *)

Section RankOrder.

Lemma insert_by_rank_In (r x : DbChatHistory) (l : list DbChatHistory) :
  In x (insert_by_rank r l) <-> x = r \/ In x l.
Proof.
  induction l as [|y l IH]; simpl.
  - intuition.
  - destruct (chat_rank r <=? chat_rank y); simpl; rewrite ?IH; intuition.
Qed.

Lemma order_by_rank_In (x : DbChatHistory) (l : list DbChatHistory) :
  In x (order_by_rank l) <-> In x l.
Proof.
  induction l as [|y l IH]; simpl; [tauto|].
  rewrite insert_by_rank_In, IH. intuition.
Qed.

Lemma insert_by_rank_sorted (r : DbChatHistory) (l : list DbChatHistory) :
  StronglySorted rank_lt l ->
  ~ In (chat_rank r) (map chat_rank l) ->
  StronglySorted rank_lt (insert_by_rank r l).
Proof.
  induction l as [|y l IH]; intros Hs Hr; simpl.
  - constructor; constructor.
  - inversion Hs as [|? ? Hl Hy]; subst.
    assert (Hne : chat_rank y <> chat_rank r) by (simpl in Hr; tauto).
    destruct (chat_rank r <=? chat_rank y) eqn:E.
    + apply Z.leb_le in E. constructor; [assumption|].
      constructor; [unfold rank_lt; lia|].
      rewrite Forall_forall in *. intros z Hz.
      specialize (Hy z Hz). unfold rank_lt in *. lia.
    + apply Z.leb_gt in E. constructor.
      * apply IH; [assumption|]. simpl in Hr. tauto.
      * rewrite Forall_forall in *. intros z Hz.
        apply (proj1 (insert_by_rank_In _ _ _)) in Hz as [->|Hz];
          [unfold rank_lt; lia|auto].
Qed.

Lemma order_by_rank_sorted (l : list DbChatHistory) :
  NoDup (map chat_rank l) -> StronglySorted rank_lt (order_by_rank l).
Proof.
  induction l as [|r l IH]; intros Hnd; simpl.
  - constructor.
  - inversion Hnd as [|? ? Hr Hl]; subst.
    apply insert_by_rank_sorted; [now apply IH|].
    intros Hin. apply Hr.
    apply in_map_iff in Hin as (x & Hx & Hin).
    apply (proj1 (order_by_rank_In _ _)) in Hin.
    apply in_map_iff. exists x. split; assumption.
Qed.

Lemma insert_by_rank_least (r : DbChatHistory) (l : list DbChatHistory) :
  Forall (fun y => chat_rank r <= chat_rank y) l ->
  insert_by_rank r l = r :: l.
Proof.
  destruct l as [|y l]; [reflexivity|].
  intros H. inversion H as [|? ? Hy _]; subst. simpl.
  apply Z.leb_le in Hy. now rewrite Hy.
Qed.

(** Filtering a sorted list commutes with inserting into it. *)
Lemma insert_by_rank_filter (p : DbChatHistory -> bool) (r : DbChatHistory)
      (l : list DbChatHistory) :
  StronglySorted rank_lt l ->
  filter p (insert_by_rank r l)
  = if p r then insert_by_rank r (filter p l) else filter p l.
Proof.
  induction l as [|y l IH]; intros Hs.
  - simpl. destruct (p r); reflexivity.
  - inversion Hs as [|? ? Hl Hy]; subst. specialize (IH Hl).
    cbn [insert_by_rank]. destruct (chat_rank r <=? chat_rank y) eqn:E.
    + cbn [filter]. destruct (p r); [|reflexivity].
      rewrite insert_by_rank_least; [reflexivity|].
      apply Z.leb_le in E.
      assert (Hall : Forall (fun z => chat_rank r <= chat_rank z) (y :: l)).
      { constructor; [assumption|].
        rewrite Forall_forall in *. intros z Hz.
        specialize (Hy z Hz). unfold rank_lt in Hy. lia. }
      change (if p y then y :: filter p l else filter p l)
        with (filter p (y :: l)).
      rewrite Forall_forall in *. intros z Hz.
      apply filter_In in Hz as [Hz _]. auto.
    + cbn [filter]. rewrite IH.
      destruct (p y), (p r); cbn [insert_by_rank]; rewrite ?E; reflexivity.
Qed.

Lemma filter_sorted (p : DbChatHistory -> bool) (l : list DbChatHistory) :
  StronglySorted rank_lt l -> StronglySorted rank_lt (filter p l).
Proof.
  induction 1 as [|y l Hl IH Hy]; simpl; [constructor|].
  destruct (p y); [|assumption].
  constructor; [assumption|].
  rewrite Forall_forall in *. intros z Hz.
  apply filter_In in Hz as [Hz _]. auto.
Qed.

(** With distinct ranks, filtering before or after the sort is the same. *)
Lemma order_by_rank_filter (p : DbChatHistory -> bool)
      (l : list DbChatHistory) :
  NoDup (map chat_rank l) ->
  order_by_rank (filter p l) = filter p (order_by_rank l).
Proof.
  induction l as [|r l IH]; intros Hnd; [reflexivity|].
  inversion Hnd as [|? ? Hr Hl]; subst.
  cbn [order_by_rank filter].
  rewrite insert_by_rank_filter by now apply order_by_rank_sorted.
  destruct (p r); cbn [order_by_rank]; now rewrite IH.
Qed.

Lemma singleUser_filter (userId : string) (rows : list DbChatHistory) :
  singleUser userId rows -> filter (eq_user userId) rows = rows.
Proof.
  induction 1 as [|r rows Hr _ IH]; simpl; [reflexivity|].
  unfold eq_user at 1. rewrite Hr, String.eqb_refl. now rewrite IH.
Qed.

Lemma singleUser_ranks (userId : string) (rows : list DbChatHistory) :
  singleUser userId rows -> uniqueRanks rows -> NoDup (map chat_rank rows).
Proof.
  unfold uniqueRanks. intros Hu Hnd.
  assert (E : map (fun r => (user_id r, chat_rank r)) rows
              = map (pair userId) (map chat_rank rows)).
  { rewrite map_map. apply map_ext_in. intros r Hr.
    unfold singleUser in Hu. rewrite Forall_forall in Hu.
    now rewrite (Hu r Hr). }
  rewrite E in Hnd. now apply NoDup_map_inv in Hnd.
Qed.

End RankOrder.

Section NewestFirst.

Lemma insert_by_rank_le_sorted (r : DbChatHistory) (l : list DbChatHistory) :
  StronglySorted rank_le l -> StronglySorted rank_le (insert_by_rank r l).
Proof.
  induction l as [|y l IH]; intros Hs; simpl.
  - constructor; constructor.
  - inversion Hs as [|? ? Hl Hy]; subst.
    destruct (chat_rank r <=? chat_rank y) eqn:E.
    + apply Z.leb_le in E. constructor; [assumption|].
      constructor; [exact E|].
      rewrite Forall_forall in *. intros z Hz.
      specialize (Hy z Hz). unfold rank_le in *. lia.
    + apply Z.leb_gt in E. constructor; [now apply IH|].
      rewrite Forall_forall in *. intros z Hz.
      apply (proj1 (insert_by_rank_In _ _ _)) in Hz as [->|Hz];
        [unfold rank_le; lia | auto].
Qed.

(** Whatever the table holds, the rows come back in ascending rank order. *)
Lemma order_by_rank_le_sorted (l : list DbChatHistory) :
  StronglySorted rank_le (order_by_rank l).
Proof.
  induction l as [|r l IH]; simpl;
    [constructor | now apply insert_by_rank_le_sorted].
Qed.

Lemma runStarts_In (log : list DbChatHistory) :
  forall prev z,
    In z (runStarts prev log) -> exists e, In e log /\ chat_rank e = z.
Proof.
  induction log as [|entry log IH]; intros prev z Hz; [destruct Hz|].
  cbn [runStarts] in Hz. apply in_app_or in Hz as [Hz|Hz].
  - destruct (startsRun prev entry); [|destruct Hz].
    destruct Hz as [<-|[]]. exists entry. split; [now left | reflexivity].
  - destruct (IH _ _ Hz) as (e & He & <-). exists e. split; [now right | reflexivity].
Qed.

Lemma runStarts_sorted (log : list DbChatHistory) :
  StronglySorted rank_le log ->
  forall prev, StronglySorted Z.le (runStarts prev log).
Proof.
  induction 1 as [|entry log Hs IH Hle]; intros prev; [constructor|].
  cbn [runStarts]. destruct (startsRun prev entry); cbn [app]; [|apply IH].
  constructor; [apply IH|].
  rewrite Forall_forall in *. intros z Hz.
  destruct (runStarts_In _ _ _ Hz) as (e & He & <-). exact (Hle e He).
Qed.

Lemma StronglySorted_snoc {A : Type} (R : A -> A -> Prop) (l : list A) (a : A) :
  StronglySorted R l -> Forall (fun x => R x a) l ->
  StronglySorted R (l ++ [a]).
Proof.
  induction 1 as [|x l Hs IH Hx]; intros Ha; simpl.
  - constructor; constructor.
  - inversion Ha as [|? ? Hxa Hla]; subst.
    constructor; [now apply IH|].
    apply Forall_app. split; [assumption | now constructor].
Qed.

Lemma StronglySorted_rev {A : Type} (R : A -> A -> Prop) (l : list A) :
  StronglySorted R l -> StronglySorted (fun a b => R b a) (rev l).
Proof.
  induction 1 as [|x l Hs IH Hx]; simpl; [constructor|].
  apply StronglySorted_snoc; [assumption|].
  rewrite Forall_forall in *. intros y Hy. apply Hx. now apply in_rev.
Qed.

Lemma StronglySorted_map {A B : Type} (R : B -> B -> Prop) (f : A -> B)
      (l : list A) :
  StronglySorted R (map f l) <-> StronglySorted (fun a b => R (f a) (f b)) l.
Proof.
  induction l as [|x l IH]; simpl.
  - split; constructor.
  - split; intros H; inversion H as [|? ? Hs Hx]; subst;
      (constructor; [now apply IH|]).
    + rewrite Forall_forall in *. intros y Hy. apply Hx. now apply in_map.
    + rewrite Forall_forall in *. intros y Hy.
      apply in_map_iff in Hy as (z & <- & Hz). now apply Hx.
Qed.

End NewestFirst.

(* ================================================================== *)
(** * Laws of the segmenter *)
(* ================================================================== *)

(** C5. A run starts exactly at the entries that are first overall or
    whose rank is not the previous entry's rank plus one: that is the test
    of the loop at the first entry and at every later one, and, read oldest
    first, the start ranks of the conversations [fetchConversations]
    returns are the ranks of those entries of the user's history; the
    returned list is in descending order of start rank, highest first. On
    the log with ranks 1, 2, 3, 5, 6 it returns the conversation starting
    at 5 (two entries, four messages) and then the one starting at 1
    (three entries, six messages). *)
Theorem fetchConversations_run_starts (env : Env) :
  (forall (cur : ConvData) (prev entry : DbChatHistory),
      shouldStartNew None None entry = true
      /\ shouldStartNew (Some cur) (Some prev) entry
         = negb (chat_rank entry =? chat_rank prev + 1))
  /\ (forall (userId : string) (db : Backend),
      map startRank (rev (fst (fetchConversations env userId db)))
      = if hd false (faults db) then []
        else runStarts None (historyOf userId db))
  /\ (forall (userId : string) (db : Backend),
        StronglySorted (fun c c' => startRank c' <= startRank c)
                       (fst (fetchConversations env userId db)))
  /\ map (fun c => (startRank c, id c, List.length (messages c)))
         (fst (fetchConversations env "ann@example.com" (sampleDb sampleLog [])))
     = [(5, "conv_5", 4%nat); (1, "conv_1", 6%nat)]
  /\ map (fun d => (cd_startRank d, map chat_rank (cd_entries d)))
         (segmentRuns (historyOf "ann@example.com" (sampleDb sampleLog [])))
     = [(5, [5; 6]); (1, [1; 2; 3])].
Proof.
  split; [|split; [|split; [|split; reflexivity]]].
  - intros cur prev entry. split; reflexivity.
  - intros userId db. rewrite fetchConversations_groupRuns.
    destruct (hd false (faults db)); [reflexivity|].
    rewrite rev_involutive, <- groupRuns_starts, map_map. reflexivity.
  - intros userId db. rewrite fetchConversations_groupRuns.
    destruct (hd false (faults db)); [constructor|].
    rewrite <- map_rev.
    apply (StronglySorted_map
             (fun c c' => startRank c' <= startRank c) (conversationOf env)).
    cbn [conversationOf startRank].
    apply (StronglySorted_rev
             (fun g g' => chat_rank (fst g) <= chat_rank (fst g'))).
    apply (StronglySorted_map Z.le (fun g => chat_rank (fst g))).
    rewrite groupRuns_starts.
    apply runStarts_sorted, order_by_rank_le_sorted.
Qed.

Lemma messages_of_runs (env : Env)
      (runs : list (DbChatHistory * list DbChatHistory)) :
  flat_map messages (map (conversationOf env) runs)
  = flat_map (entryMessages env) (flat_map (fun g => fst g :: snd g) runs).
Proof.
  induction runs as [|g runs IH]; [reflexivity|].
  cbn [map flat_map]. rewrite IH, flat_map_app.
  cbn [conversationOf messages]. now rewrite pushMessages_flat_map.
Qed.

(** C6. Coverage: for every input log, the empty one included, the entry
    lists of the runs of the segmenter, put end to end oldest run first,
    are the input log itself, so each input entry sits in exactly one run;
    and the messages of the conversations built from them are the
    messages of the input entries, each once and in order. *)
Theorem segmenter_coverage (env : Env) (chatHistory : list DbChatHistory) :
  flat_map cd_entries (rev (segmentRuns chatHistory)) = chatHistory
  /\ option_map (fun conversations => flat_map messages (rev conversations))
                (segment (createConversationFromEntries env) chatHistory)
     = Some (flat_map (entryMessages env) chatHistory).
Proof.
  split.
  - rewrite segmentRuns_groupRuns, rev_involutive.
    rewrite flat_map_concat_map, map_map, <- flat_map_concat_map.
    apply groupRuns_concat.
  - rewrite segment_conversations. cbn [option_map]. f_equal.
    rewrite rev_involutive, messages_of_runs. f_equal.
    apply groupRuns_concat.
Qed.

Lemma consecutiveFrom_nth (entries : list DbChatHistory) :
  forall (r : Z) (i : nat) (entry : DbChatHistory),
    consecutiveFrom r entries ->
    nth_error entries i = Some entry ->
    chat_rank entry = r + Z.of_nat i.
Proof.
  induction entries as [|e entries IH]; intros r i entry Hc Hn.
  - destruct i; discriminate.
  - destruct Hc as [He Hc]. destruct i as [|i].
    + injection Hn as <-. cbn. lia.
    + cbn [nth_error] in Hn. rewrite (IH _ _ _ Hc Hn). lia.
Qed.

Lemma In_segmentRuns (chatHistory : list DbChatHistory) (d : ConvData) :
  In d (segmentRuns chatHistory) ->
  exists g, In g (groupRuns chatHistory) /\ d = runOf g.
Proof.
  rewrite segmentRuns_groupRuns, <- in_rev, in_map_iff.
  intros (g & <- & Hg). eauto.
Qed.

(** C7. Contiguity: in every run of the segmenter, the entry at index [i]
    has the rank of the first entry plus [i]; the run's [startRank] is the
    rank of that first entry. *)
Theorem segmenter_contiguity (chatHistory : list DbChatHistory)
        (d : ConvData) (i : nat) (entry : DbChatHistory) :
  In d (segmentRuns chatHistory) ->
  nth_error (cd_entries d) i = Some entry ->
  exists first,
    nth_error (cd_entries d) 0 = Some first
    /\ cd_startRank d = chat_rank first
    /\ chat_rank entry = chat_rank first + Z.of_nat i.
Proof.
  intros Hd Hn. apply In_segmentRuns in Hd as (g & Hg & ->).
  exists (fst g). repeat split.
  pose proof (groupRuns_consecutive chatHistory) as Hall.
  rewrite Forall_forall in Hall.
  exact (consecutiveFrom_nth _ _ _ _ (Hall g Hg) Hn).
Qed.

Lemma segmenter_contiguity_witness :
  exists first,
    nth_error (map (sampleRow "ann@example.com") [1; 2; 3]) 0 = Some first
    /\ 1 = chat_rank first
    /\ chat_rank (sampleRow "ann@example.com" 3) = chat_rank first + Z.of_nat 2.
Proof.
  apply (segmenter_contiguity
           (map (sampleRow "ann@example.com") [1; 2; 3; 5; 6])
           (runOf (sampleRow "ann@example.com" 1,
                   map (sampleRow "ann@example.com") [2; 3]))
           2 (sampleRow "ann@example.com" 3)).
  - vm_compute. right. left. reflexivity.
  - reflexivity.
Defined.

Lemma entryMessages_length (env : Env) (entries : list DbChatHistory) :
  List.length (flat_map (entryMessages env) entries)
  = (2 * List.length entries)%nat.
Proof.
  induction entries as [|e entries IH]; [reflexivity|].
  cbn [flat_map entryMessages app List.length]. rewrite IH. lia.
Qed.

Lemma entryMessages_nth (env : Env) (entries : list DbChatHistory) :
  forall (i : nat) (entry : DbChatHistory),
    nth_error entries i = Some entry ->
    nth_error (flat_map (entryMessages env) entries) (2 * i)
    = nth_error (entryMessages env entry) 0
    /\ nth_error (flat_map (entryMessages env) entries) (2 * i + 1)
       = nth_error (entryMessages env entry) 1.
Proof.
  induction entries as [|e entries IH]; intros i entry Hn.
  - destruct i; discriminate.
  - destruct i as [|i].
    + injection Hn as <-. split; reflexivity.
    + cbn [nth_error] in Hn. destruct (IH i entry Hn) as [Hu Ha].
      replace (2 * S i)%nat with (S (S (2 * i))) by lia.
      replace (S (S (2 * i)) + 1)%nat with (S (S (2 * i + 1))) by lia.
      cbn [flat_map entryMessages app nth_error]. auto.
Qed.

(** C8. Message expansion: every conversation that [fetchConversations]
    returns is built by [createConversationFromEntries] from a run of the
    segmenter, and its message list has exactly two messages per entry of
    that run: at positions [2i] and [2i+1], for the entry [e] at index [i],
    the message with id [e.chat_id ++ "_user"], role user and content
    [e.user_request], then the message with id [e.chat_id ++ "_assistant"],
    role assistant and content [e.ai_response]. *)
Theorem message_expansion (env : Env) (userId : string) (db : Backend)
        (c : Conversation) :
  In c (fst (fetchConversations env userId db)) ->
  exists d,
    In d (segmentRuns (historyOf userId db))
    /\ createConversationFromEntries env d = Some c
    /\ List.length (messages c) = (2 * List.length (cd_entries d))%nat
    /\ forall (i : nat) (e : DbChatHistory),
        nth_error (cd_entries d) i = Some e ->
        nth_error (messages c) (2 * i)
        = Some (mkMessage (chat_id e ++ "_user")%string (user_request e) user
                          (formatTime env (created_at e)) None)
        /\ nth_error (messages c) (2 * i + 1)
           = Some (mkMessage (chat_id e ++ "_assistant")%string (ai_response e)
                             assistant (formatTime env (created_at e)) None).
Proof.
  rewrite fetchConversations_groupRuns.
  destruct (hd false (faults db)); [intros []|].
  rewrite <- in_rev, in_map_iff. intros (g & <- & Hg).
  exists (runOf g). split; [|split; [|split]].
  - rewrite segmentRuns_groupRuns, <- in_rev. now apply in_map.
  - apply createConversationFromEntries_runOf.
  - cbn [conversationOf messages runOf cd_entries].
    rewrite pushMessages_flat_map. apply entryMessages_length.
  - intros i e Hn. cbn [conversationOf messages runOf cd_entries] in *.
    rewrite pushMessages_flat_map.
    exact (entryMessages_nth env _ i e Hn).
Qed.

Lemma message_expansion_witness :
  exists d,
    In d (segmentRuns (historyOf "ann@example.com" (sampleDb sampleLog [])))
    /\ createConversationFromEntries sampleEnv d
       = Some (conversationOf sampleEnv
                 (sampleRow "ann@example.com" 5, [sampleRow "ann@example.com" 6]))
    /\ List.length
         (messages (conversationOf sampleEnv
                      (sampleRow "ann@example.com" 5,
                       [sampleRow "ann@example.com" 6])))
       = (2 * List.length (cd_entries d))%nat
    /\ forall (i : nat) (e : DbChatHistory),
        nth_error (cd_entries d) i = Some e ->
        nth_error
          (messages (conversationOf sampleEnv
                       (sampleRow "ann@example.com" 5,
                        [sampleRow "ann@example.com" 6]))) (2 * i)
        = Some (mkMessage (chat_id e ++ "_user")%string (user_request e) user
                          (formatTime sampleEnv (created_at e)) None)
        /\ nth_error
             (messages (conversationOf sampleEnv
                          (sampleRow "ann@example.com" 5,
                           [sampleRow "ann@example.com" 6]))) (2 * i + 1)
           = Some (mkMessage (chat_id e ++ "_assistant")%string
                             (ai_response e) assistant
                             (formatTime sampleEnv (created_at e)) None).
Proof.
  apply (message_expansion sampleEnv "ann@example.com" (sampleDb sampleLog [])).
  vm_compute. left. reflexivity.
Defined.

(* ================================================================== *)
(** * Conversation tokens *)
(* ================================================================== *)

Section Tokens.
Import Js.

Lemma digit_prefix_all (s : string) :
  all_digits s = true -> digit_prefix s = s.
Proof.
  induction s as [|c s IH]; simpl; [reflexivity|].
  intros H. apply andb_true_iff in H as [-> Hs]. now rewrite IH.
Qed.

Lemma of_uint_to_uint (p : positive) : Z.of_uint (Pos.to_uint p) = Zpos p.
Proof.
  unfold Z.of_uint. now rewrite DecimalPos.Unsigned.of_to.
Qed.

Lemma digits_value_uint (d : Decimal.uint) :
  d <> Decimal.Nil ->
  digits_value (NilEmpty.string_of_uint d) = Some (Z.of_uint d).
Proof.
  intros Hd. unfold digits_value.
  destruct (NilEmpty.string_of_uint d) eqn:E.
  - now apply JsFacts.string_of_uint_nonempty in E.
  - now rewrite <- E, NilEmpty.usu.
Qed.

Lemma parseInt_uint (d : Decimal.uint) :
  d <> Decimal.Nil ->
  parseInt (NilEmpty.string_of_uint d) = Some (Z.of_uint d).
Proof.
  intros Hd.
  rewrite <- (digits_value_uint d Hd).
  rewrite <- (digit_prefix_all _ (JsFacts.all_digits_uint d)) at 2.
  destruct d; try contradiction; reflexivity.
Qed.

Lemma parseInt_minus (s : string) :
  parseInt (String "-" s) = option_map Z.opp (digits_value (digit_prefix s)).
Proof. reflexivity. Qed.

(** [parseInt] reads back what [toString] prints. *)
Lemma parseInt_toString (n : Z) : parseInt (toString n) = Some n.
Proof.
  destruct n as [|p|p].
  - reflexivity.
  - rewrite JsFacts.toString_pos, parseInt_uint by apply JsFacts.to_uint_nonnil.
    now rewrite of_uint_to_uint.
  - rewrite JsFacts.toString_neg, parseInt_minus.
    rewrite (digit_prefix_all _ (JsFacts.all_digits_uint _)).
    rewrite digits_value_uint by apply JsFacts.to_uint_nonnil.
    now rewrite of_uint_to_uint.
Qed.

Lemma sign_or_digits_of_digits (s : string) :
  all_digits s = true -> sign_or_digits s = true.
Proof.
  induction s as [|c s IH]; simpl; [reflexivity|].
  intros H. apply andb_true_iff in H as [-> Hs]. now rewrite IH.
Qed.

Lemma sign_or_digits_toString (n : Z) : sign_or_digits (toString n) = true.
Proof.
  destruct n as [|p|p].
  - reflexivity.
  - apply sign_or_digits_of_digits, JsFacts.all_digits_uint.
  - rewrite JsFacts.toString_neg. cbn [sign_or_digits].
    rewrite sign_or_digits_of_digits by apply JsFacts.all_digits_uint.
    reflexivity.
Qed.

(** A string of digits and minus signs holds no ['s'], so
    [replace('session_', '')] leaves it alone. *)
Lemma replace_session_noop (s : string) :
  sign_or_digits s = true -> replace "session_" "" s = s.
Proof.
  induction s as [|c s IH]; [reflexivity|].
  cbn [sign_or_digits]. intros H. apply andb_true_iff in H as [Hc Hs].
  cbn [replace prefix].
  destruct (ascii_dec "s" c) as [<-|_]; [discriminate Hc|].
  now rewrite IH.
Qed.

Lemma replace_conv_prefix (s : string) :
  replace "conv_" "" ("conv_" ++ s)%string = s.
Proof. destruct s; reflexivity. Qed.

(** The token [`conv_${rank}`] parses back to [rank]. *)
Lemma parseConversationId_conv (rank : Z) :
  parseConversationId ("conv_" ++ toString rank)%string = Some rank.
Proof.
  unfold parseConversationId.
  rewrite replace_conv_prefix.
  rewrite replace_session_noop by apply sign_or_digits_toString.
  apply parseInt_toString.
Qed.

End Tokens.


(* ================================================================== *)
(** * The two contiguity walks agree *)
(* ================================================================== *)

Section Walks.

(** Started on an entry, the [expectedRank] walk of
    [getConversationMessages] collects the first run of the log. *)
Lemma continuousEntries_first_run (log : list DbChatHistory) :
  forall entry others runs,
    groupRuns (entry :: log) = (entry, others) :: runs ->
    continuousEntries (entry :: log) (chat_rank entry) = entry :: others.
Proof.
  induction log as [|next log IH]; intros entry others runs Hg.
  - injection Hg as <- <-. cbn. now rewrite Z.eqb_refl.
  - cbn [continuousEntries]. rewrite Z.eqb_refl. f_equal.
    destruct (groupRuns_cons next log) as (others' & runs' & Hg').
    specialize (IH next others' runs' Hg').
    change (groupRuns (entry :: next :: log))
      with (match groupRuns (next :: log) with
            | (n, o) :: rs =>
                if chat_rank n =? chat_rank entry + 1
                then (entry, n :: o) :: rs
                else (entry, []) :: (n, o) :: rs
            | [] => [(entry, [])]
            end) in Hg.
    rewrite Hg' in Hg.
    destruct (chat_rank next =? chat_rank entry + 1) eqn:Hstep.
    + injection Hg as <- <-.
      apply Z.eqb_eq in Hstep. rewrite <- Hstep.
      cbn [continuousEntries] in IH. now rewrite Z.eqb_refl in IH.
    + injection Hg as <- <-. reflexivity.
Qed.

Lemma groupRuns_first_In (log : list DbChatHistory)
      (g : DbChatHistory * list DbChatHistory) :
  In g (groupRuns log) -> In (fst g) log.
Proof.
  intros Hg. rewrite <- (groupRuns_concat log).
  apply in_flat_map. exists g. split; [assumption | now left].
Qed.

Lemma groupRuns_tail_In (entry : DbChatHistory) (log : list DbChatHistory)
      (g : DbChatHistory * list DbChatHistory) :
  In g (groupRuns (entry :: log)) ->
  fst g = entry \/ In g (groupRuns log).
Proof.
  cbn [groupRuns]. destruct (groupRuns log) as [|[next others] runs].
  - intros [<-|[]]. now left.
  - destruct (chat_rank next =? chat_rank entry + 1).
    + intros [<-|Hg]; [now left | right; now right].
    + intros [<-|Hg]; [now left | now right].
Qed.

Lemma filter_gte_all (r : Z) (log : list DbChatHistory) :
  Forall (fun y => r <= chat_rank y) log -> filter (gte_rank r) log = log.
Proof.
  induction 1 as [|y log Hy _ IH]; simpl; [reflexivity|].
  unfold gte_rank at 1. apply Z.leb_le in Hy. now rewrite Hy, IH.
Qed.

(** On a log with strictly increasing ranks, the rows from the start rank
    of a run on are that run followed by the later ones. *)
Lemma run_suffix (log : list DbChatHistory) :
  StronglySorted rank_lt log ->
  forall g,
    In g (groupRuns log) ->
    exists log' runs,
      filter (gte_rank (chat_rank (fst g))) log = fst g :: log'
      /\ groupRuns (fst g :: log') = (fst g, snd g) :: runs.
Proof.
  induction 1 as [|entry log Hs IH Hlt]; intros g Hg; [destruct Hg|].
  destruct (groupRuns_cons entry log) as (others & runs & Hgr).
  destruct (groupRuns_tail_In entry log g Hg) as [Hfirst | Hlater].
  - assert (g = (entry, others)) as ->.
    { rewrite Hgr in Hg. destruct Hg as [<-|Hg]; [reflexivity|].
      exfalso.
      assert (Hin : In g (groupRuns log)).
      { clear -Hgr Hg. cbn [groupRuns] in Hgr.
        destruct (groupRuns log) as [|[n o] rs]; [now injection Hgr as <- <-|].
        destruct (chat_rank n =? chat_rank entry + 1);
          injection Hgr as <- <-; [now right | assumption]. }
      apply groupRuns_first_In in Hin. rewrite Hfirst in Hin.
      rewrite Forall_forall in Hlt. specialize (Hlt entry Hin).
      unfold rank_lt in Hlt. lia. }
    cbn [fst snd]. exists log, runs. split; [|assumption].
    apply (filter_gte_all (chat_rank entry) (entry :: log)).
    constructor; [lia|]. rewrite Forall_forall in *. intros y Hy.
    specialize (Hlt y Hy). unfold rank_lt in Hlt. lia.
  - pose proof (groupRuns_first_In log g Hlater) as Hin.
    rewrite Forall_forall in Hlt. specialize (Hlt (fst g) Hin).
    cbn [filter]. unfold gte_rank at 1.
    unfold rank_lt in Hlt.
    destruct (chat_rank (fst g) <=? chat_rank entry) eqn:E;
      [apply Z.leb_le in E; lia|].
    now apply IH.
Qed.

(** There, walking while the ranks are the expected ones gives the run
    back. *)
Lemma continuousEntries_run (log : list DbChatHistory) :
  StronglySorted rank_lt log ->
  forall g,
    In g (groupRuns log) ->
    continuousEntries (filter (gte_rank (chat_rank (fst g))) log)
                      (chat_rank (fst g))
    = fst g :: snd g.
Proof.
  intros Hs g Hg.
  destruct (run_suffix log Hs g Hg) as (log' & runs & -> & Hgr).
  exact (continuousEntries_first_run log' (fst g) (snd g) runs Hgr).
Qed.

(** Started on the rank of an entry, the [endRank] walk of
    [deleteConversation] stops on the last rank of the first run. *)
Lemma findEndRank_first_run (log : list DbChatHistory) :
  forall entry others runs,
    groupRuns (entry :: log) = (entry, others) :: runs ->
    findEndRank (map chat_rank (entry :: log)) (chat_rank entry)
    = chat_rank entry + Z.of_nat (List.length others).
Proof.
  induction log as [|next log IH]; intros entry others runs Hg.
  - injection Hg as <- <-. cbn. rewrite Z.eqb_refl. lia.
  - destruct (groupRuns_cons next log) as (others' & runs' & Hg').
    specialize (IH next others' runs' Hg').
    change (groupRuns (entry :: next :: log))
      with (match groupRuns (next :: log) with
            | (n, o) :: rs =>
                if chat_rank n =? chat_rank entry + 1
                then (entry, n :: o) :: rs
                else (entry, []) :: (n, o) :: rs
            | [] => [(entry, [])]
            end) in Hg.
    rewrite Hg' in Hg.
    change (findEndRank (map chat_rank (entry :: next :: log)) (chat_rank entry))
      with (if chat_rank entry =? chat_rank entry
            then if chat_rank next =? chat_rank entry + 1
                 then findEndRank (map chat_rank (next :: log))
                                  (chat_rank entry + 1)
                 else chat_rank entry
            else findEndRank (map chat_rank (next :: log)) (chat_rank entry)).
    rewrite Z.eqb_refl.
    destruct (chat_rank next =? chat_rank entry + 1) eqn:Hstep;
      injection Hg as <- <-.
    + apply Z.eqb_eq in Hstep. rewrite <- Hstep, IH.
      cbn [List.length]. lia.
    + cbn [List.length]. lia.
Qed.

Lemma findEndRank_run (log : list DbChatHistory) :
  StronglySorted rank_lt log ->
  forall g,
    In g (groupRuns log) ->
    findEndRank (map chat_rank (filter (gte_rank (chat_rank (fst g))) log))
                (chat_rank (fst g))
    = chat_rank (fst g) + Z.of_nat (List.length (snd g)).
Proof.
  intros Hs g Hg.
  destruct (run_suffix log Hs g Hg) as (log' & runs & -> & Hgr).
  exact (findEndRank_first_run log' (fst g) (snd g) runs Hgr).
Qed.

End Walks.

(** C10. On a table that holds the rows of one user only (with distinct
    ranks, as the index on [(user_id, chat_rank)] guarantees), for every
    conversation [c] that [fetchConversations] returns,
    [getConversationMessages] called with the token ["conv_"] followed by
    [c.startRank], on the same rows and with the backend reachable,
    returns exactly [c.messages]. *)
Theorem getConversationMessages_agrees (env : Env) (userId : string)
        (db db' : Backend) (c : Conversation) :
  singleUser userId (chat_history db) ->
  uniqueRanks (chat_history db) ->
  In c (fst (fetchConversations env userId db)) ->
  chat_history db' = chat_history db ->
  reachable db' ->
  fst (getConversationMessages env
         ("conv_" ++ Js.toString (startRank c))%string db')
  = messages c.
Proof.
  intros Hu Hnd Hc Hrows Hup.
  pose proof (singleUser_ranks _ _ Hu Hnd) as Hranks.
  rewrite fetchConversations_groupRuns in Hc.
  destruct (hd false (faults db)); [destruct Hc|].
  apply in_rev, in_map_iff in Hc as (g & <- & Hg).
  unfold historyOf in Hg. rewrite (singleUser_filter _ _ Hu) in Hg.
  cbn [conversationOf startRank messages].
  unfold getConversationMessages. rewrite parseConversationId_conv.
  unfold select_from, receive. unfold reachable in Hup.
  rewrite Hrows, (order_by_rank_filter _ _ Hranks).
  pose proof (continuousEntries_run _ (order_by_rank_sorted _ Hranks) g Hg)
    as Hwalk.
  destruct (faults db') as [|f fs]; cbn [hd] in Hup; [|subst f];
    cbn [fst];
    destruct (filter _ (order_by_rank (chat_history db))) as [|e es];
    cbn [fst]; try (rewrite Hwalk; reflexivity); discriminate Hwalk.
Qed.

Lemma getConversationMessages_agrees_witness :
  fst (getConversationMessages sampleEnv
         ("conv_" ++ Js.toString
            (startRank (conversationOf sampleEnv
                          (sampleRow "ann@example.com" 5,
                           [sampleRow "ann@example.com" 6]))))%string
         (sampleDb sampleLog [false]))
  = messages (conversationOf sampleEnv
                (sampleRow "ann@example.com" 5,
                 [sampleRow "ann@example.com" 6])).
Proof.
  apply (getConversationMessages_agrees sampleEnv "ann@example.com"
           (sampleDb sampleLog [])).
  - unfold singleUser. repeat constructor.
  - unfold uniqueRanks. vm_compute.
    repeat (constructor; [simpl; intuition discriminate|]). constructor.
  - vm_compute. left. reflexivity.
  - reflexivity.
  - reflexivity.
Defined.

(* ================================================================== *)
(** * Appending: rank allocation, collisions and failed reads *)
(* ================================================================== *)

Section Append.

Variable env : Env.

Lemma select_max_rank_journal (userId : string) (db : Backend) :
  chat_history (snd (select_max_rank userId db)) = chat_history db
  /\ users (snd (select_max_rank userId db)) = users db
  /\ journal (snd (select_max_rank userId db))
     = journal db ++ [SelectMaxRank userId].
Proof.
  unfold select_max_rank, receive.
  destruct (faults db) as [|[|] fs]; cbn; auto.
Qed.

(** When the read of the greatest rank fails, [createChatEntry] returns
    [null], leaves the session variables alone and sends no insert. *)
Lemma createChatEntry_read_failure (meanwhile : Backend -> Backend)
      (userId userRequest aiResponse : string) (st : Session) (db : Backend) :
  hd false (faults db) = true ->
  createChatEntry env meanwhile userId userRequest aiResponse st db
  = (None, st, snd (select_max_rank userId db))
  /\ chat_history (snd (select_max_rank userId db)) = chat_history db
  /\ journal (snd (select_max_rank userId db))
     = journal db ++ [SelectMaxRank userId].
Proof.
  intros Hf. split; [|split; apply select_max_rank_journal].
  unfold createChatEntry, select_max_rank, receive.
  destruct (faults db) as [|[|] fs]; cbn in Hf; try discriminate.
  reflexivity.
Qed.

(** C2, amended: when the insert of [createChatEntry] is rejected with
    DuplicateKey because the rank it computed was taken between its read
    and its insert, there is no second read and no second insert:
    [createChatEntry] returns [null] at once, the table is as the other
    writers left it, and the journal grows by that single rejected
    insert. *)
Theorem createChatEntry_collision (meanwhile : Backend -> Backend)
        (userId userRequest aiResponse : string) (st : Session)
        (db : Backend) (maxRankData : option Z) (db1 : Backend) :
  select_max_rank userId db = (Ok maxRankData, db1) ->
  reachable (meanwhile db1) ->
  key_taken (newRow env userId userRequest aiResponse maxRankData)
            (chat_history (meanwhile db1)) = true ->
  exists st' db2,
    createChatEntry env meanwhile userId userRequest aiResponse st db
    = (None, st', db2)
    /\ fst (insert (newRow env userId userRequest aiResponse maxRankData)
                   (meanwhile db1)) = Error DuplicateKey
    /\ chat_history db2 = chat_history (meanwhile db1)
    /\ journal db2
       = journal (meanwhile db1)
           ++ [Insert (newRow env userId userRequest aiResponse maxRankData)].
Proof.
  intros Hread Hup Htaken.
  unfold createChatEntry. rewrite Hread. fold (newRow env userId userRequest aiResponse maxRankData).
  unfold insert, receive. unfold reachable in Hup.
  destruct (faults (meanwhile db1)) as [|f fs]; cbn [hd] in Hup; [|subst f];
    rewrite Htaken; eexists; eexists; repeat split.
Qed.

End Append.

(** The fourth scenario of the design: the greatest rank is 3, both
    clients compute 4, the rival's insert lands first. The insert of
    [createChatEntry] is rejected with DuplicateKey, and the call ends
    there with [null]: no row of rank 5 is stored, the caller's exchange is
    not in the table, and the greatest rank was read once. *)
Lemma createChatEntry_single_collision_fails :
  fst (insert (newRow sampleEnv "ann@example.com" "question" "answer" (Some 3))
              (rival (snd (select_max_rank "ann@example.com" collisionDb))))
  = Error DuplicateKey
  /\ fst (fst (createChatEntry sampleEnv rival "ann@example.com"
                 "question" "answer" initialSession collisionDb)) = None
  /\ map chat_rank
         (chat_history
            (snd (createChatEntry sampleEnv rival "ann@example.com"
                    "question" "answer" initialSession collisionDb)))
     = [1; 2; 3; 4]
  /\ map user_request
         (chat_history
            (snd (createChatEntry sampleEnv rival "ann@example.com"
                    "question" "answer" initialSession collisionDb)))
     = ["question 1"; "question 2"; "question 3"; "question 4"]
  /\ List.length
       (filter isSelectMaxRank
          (journal
             (snd (createChatEntry sampleEnv rival "ann@example.com"
                     "question" "answer" initialSession collisionDb))))
     = 1%nat.
Proof. vm_compute. repeat split. Qed.

Lemma createChatEntry_collision_witness :
  exists st' db2,
    createChatEntry sampleEnv rival "ann@example.com" "question" "answer"
      initialSession collisionDb
    = (None, st', db2)
    /\ fst (insert (newRow sampleEnv "ann@example.com" "question" "answer"
                           (Some 3))
                   (rival (snd (select_max_rank "ann@example.com" collisionDb))))
       = Error DuplicateKey
    /\ chat_history db2
       = chat_history
           (rival (snd (select_max_rank "ann@example.com" collisionDb)))
    /\ journal db2
       = journal (rival (snd (select_max_rank "ann@example.com" collisionDb)))
           ++ [Insert (newRow sampleEnv "ann@example.com" "question" "answer"
                              (Some 3))].
Proof.
  apply (createChatEntry_collision sampleEnv rival "ann@example.com"
           "question" "answer" initialSession collisionDb (Some 3)
           (snd (select_max_rank "ann@example.com" collisionDb))).
  - reflexivity.
  - reflexivity.
  - reflexivity.
Defined.

(** C3 at the failing input. The greatest rank of the user is 6 and the
    read of it fails. [createChatEntry] stops there, but
    [saveCurrentSession] goes on with rank 1: it sends an insert for
    ["ann@example.com1"], which lands in the table below the existing
    ranks 5 and 6, and reports success. *)
Theorem saveCurrentSession_failed_read_defaults_to_rank_1 :
  fst (select_max_rank "ann@example.com" gappedDb) = Error TransportError
  /\ fst (fst (createChatEntry sampleEnv (fun db => db) "ann@example.com"
                 "What is a monad?" "A monoid." initialSession gappedDb))
     = None
  /\ filter isInsert
       (journal (snd (createChatEntry sampleEnv (fun db => db)
                        "ann@example.com" "What is a monad?" "A monoid."
                        initialSession gappedDb))) = []
  /\ fst (saveCurrentSession sampleEnv "ann@example.com" sampleMessages
            gappedDb) = true
  /\ map (fun r => (chat_id r, chat_rank r))
         (chat_history (snd (saveCurrentSession sampleEnv "ann@example.com"
                               sampleMessages gappedDb)))
     = [("ann@example.com5", 5); ("ann@example.com6", 6);
        ("ann@example.com1", 1)]
  /\ journal (snd (saveCurrentSession sampleEnv "ann@example.com"
                     sampleMessages gappedDb))
     = [SelectMaxRank "ann@example.com";
        Insert (mkRow "ann@example.com1" "ann@example.com" "What is a monad?"
                      "A monoid in the category of endofunctors." 1
                      (isoNow sampleEnv) (isoNow sampleEnv))].
Proof. vm_compute. repeat split. Qed.

(* ================================================================== *)
(** * Session tracker *)
(* ================================================================== *)

(** What [startNewSession] does to the two session variables: the id is
    replaced by the fresh one, which is returned, and the anchor rank is
    not written. *)
Lemma startNewSession_effect (env : Env) (st : Session) :
  fst (startNewSession env st) = freshSessionId env
  /\ currentSessionId (snd (startNewSession env st)) = Some (freshSessionId env)
  /\ currentSessionStartRank (snd (startNewSession env st))
     = currentSessionStartRank st.
Proof. repeat split. Qed.

(** C9 at the failing input. After the conversation starting at rank 5 has
    been attached with [setCurrentSession], [startNewSession] returns a
    new id but the anchor rank is still 5, where [clearCurrentSession]
    puts it back to 0. *)
Theorem startNewSession_keeps_anchor_rank :
  fst (startNewSession sampleEnv (setCurrentSession "conv_5" 5 initialSession))
  = "session_1700000000000_k3j9x0q2a"
  /\ currentSessionId
       (snd (startNewSession sampleEnv
               (setCurrentSession "conv_5" 5 initialSession)))
     = Some "session_1700000000000_k3j9x0q2a"
  /\ currentSessionStartRank
       (snd (startNewSession sampleEnv
               (setCurrentSession "conv_5" 5 initialSession))) = 5
  /\ currentSessionStartRank
       (clearCurrentSession (setCurrentSession "conv_5" 5 initialSession)) = 0.
Proof. vm_compute. repeat split. Qed.

(* ================================================================== *)
(** * Range deleter *)
(* ================================================================== *)

(** The rows [deleteConversation] removes are chosen by rank alone. *)
Lemma delete_range_rows (lo hi : Z) (db : Backend) :
  reachable db ->
  chat_history (snd (delete_range lo hi db))
  = filter (fun r => negb (in_range lo hi r)) (chat_history db).
Proof.
  unfold reachable, delete_range, receive.
  destruct (faults db) as [|[|] fs]; cbn; intros H;
    try discriminate; reflexivity.
Qed.

(** C1 at two failing inputs. With two users who each hold one row at
    rank 1, deleting the conversation ["conv_1"] empties the table: the
    other user's row is deleted too. With the run 1, 2, 3 of one user and
    a row of rank 2 of another, the walk over the ranks of both users
    stops at 2: ranks 1 and 2 of both users are deleted and rank 3 of
    the run is left behind. *)
Theorem deleteConversation_ignores_user :
  fst (deleteConversation "conv_1" twoUsersDb) = true
  /\ chat_history (snd (deleteConversation "conv_1" twoUsersDb)) = []
  /\ journal (snd (deleteConversation "conv_1" twoUsersDb))
     = [SelectRanksFrom 1; DeleteRange 1 1]
  /\ fst (deleteConversation "conv_1" overlapDb) = true
  /\ map (fun r => (user_id r, chat_rank r))
         (chat_history (snd (deleteConversation "conv_1" overlapDb)))
     = [("ann@example.com", 3)]
  /\ journal (snd (deleteConversation "conv_1" overlapDb))
     = [SelectRanksFrom 1; DeleteRange 1 2].
Proof. vm_compute. repeat split. Qed.

Section SingleUserDelete.

Lemma consecutiveFrom_bounds (run : list DbChatHistory) :
  forall s e,
    consecutiveFrom s run -> In e run ->
    s <= chat_rank e < s + Z.of_nat (List.length run).
Proof.
  induction run as [|x run IH]; intros s e Hc He; [destruct He|].
  destruct Hc as [Hx Hc]. cbn [List.length]. destruct He as [<-|He].
  - lia.
  - specialize (IH _ _ Hc He). lia.
Qed.

Lemma consecutiveFrom_covers (run : list DbChatHistory) :
  forall s z,
    consecutiveFrom s run ->
    s <= z < s + Z.of_nat (List.length run) ->
    exists e, In e run /\ chat_rank e = z.
Proof.
  induction run as [|x run IH]; intros s z Hc Hz; cbn [List.length] in Hz.
  - cbn in Hz. lia.
  - destruct Hc as [Hx Hc]. destruct (Z.eq_dec z s) as [->|Hne].
    + exists x. split; [now left | assumption].
    + destruct (IH (s + 1) z Hc) as (e & He & Hr); [lia|].
      exists e. split; [now right | assumption].
Qed.

Lemma NoDup_map_In_inj {A B : Type} (f : A -> B) (l : list A) (a b : A) :
  NoDup (map f l) -> In a l -> In b l -> f a = f b -> a = b.
Proof.
  induction l as [|x l IH]; intros Hnd Ha Hb E; [destruct Ha|].
  inversion Hnd as [|? ? Hx Hl]; subst.
  destruct Ha as [->|Ha], Hb as [->|Hb]; auto.
  - exfalso. apply Hx. rewrite E. now apply in_map.
  - exfalso. apply Hx. rewrite <- E. now apply in_map.
Qed.

(** The rows of a run are the rows of the table whose rank lies between
    its first rank and its last. *)
Lemma in_range_run (userId : string) (rows : list DbChatHistory)
      (g : DbChatHistory * list DbChatHistory) (r : DbChatHistory) :
  singleUser userId rows ->
  uniqueRanks rows ->
  In g (groupRuns (order_by_rank rows)) ->
  In r rows ->
  in_range (chat_rank (fst g))
           (chat_rank (fst g) + Z.of_nat (List.length (snd g))) r = true
  <-> In r (fst g :: snd g).
Proof.
  intros Hu Hnd Hg Hr.
  pose proof (singleUser_ranks _ _ Hu Hnd) as Hranks.
  pose proof (groupRuns_consecutive (order_by_rank rows)) as Hall.
  rewrite Forall_forall in Hall. specialize (Hall g Hg).
  unfold in_range. rewrite andb_true_iff, !Z.leb_le. split.
  - intros Hin.
    destruct (consecutiveFrom_covers _ _ (chat_rank r) Hall) as (e & He & E).
    { cbn [List.length]. lia. }
    assert (Herows : In e rows).
    { apply order_by_rank_In. rewrite <- (groupRuns_concat (order_by_rank rows)).
      apply in_flat_map. exists g. split; assumption. }
    now rewrite <- (NoDup_map_In_inj chat_rank rows e r Hranks Herows Hr E).
  - intros Hin. pose proof (consecutiveFrom_bounds _ _ _ Hall Hin) as Hb.
    cbn [List.length] in Hb. lia.
Qed.

(** On a table that holds one user's rows only, [deleteConversation]
    called on the token of a conversation succeeds and removes the rows of
    that run and no other: the table is filtered, and a row goes exactly
    when it belongs to the run. *)
Lemma deleteConversation_single_user (userId : string) (db : Backend)
      (g : DbChatHistory * list DbChatHistory) :
  singleUser userId (chat_history db) ->
  uniqueRanks (chat_history db) ->
  reachableTwice db ->
  In g (groupRuns (historyOf userId db)) ->
  fst (deleteConversation ("conv_" ++ Js.toString (chat_rank (fst g)))%string db)
  = true
  /\ exists keep,
      chat_history
        (snd (deleteConversation
                ("conv_" ++ Js.toString (chat_rank (fst g)))%string db))
      = filter keep (chat_history db)
      /\ forall r, In r (chat_history db) ->
                   (keep r = false <-> In r (fst g :: snd g)).
Proof.
  intros Hu Hnd [Hup1 Hup2] Hg.
  pose proof (singleUser_ranks _ _ Hu Hnd) as Hranks.
  unfold historyOf in Hg. rewrite (singleUser_filter _ _ Hu) in Hg.
  unfold deleteConversation. rewrite parseConversationId_conv.
  unfold select_ranks_from, receive.
  rewrite (order_by_rank_filter _ _ Hranks).
  pose proof (findEndRank_run _ (order_by_rank_sorted _ Hranks) g Hg) as Hend.
  destruct (run_suffix _ (order_by_rank_sorted _ Hranks) g Hg)
    as (log' & runs & Hsuf & _).
  rewrite Hsuf in *. cbn [map] in *.
  assert (Hkeep : forall r, In r (chat_history db) ->
            negb (in_range (chat_rank (fst g))
                    (chat_rank (fst g) + Z.of_nat (List.length (snd g))) r)
            = false <-> In r (fst g :: snd g)).
  { intros r Hr. rewrite negb_false_iff.
    exact (in_range_run userId _ g r Hu Hnd Hg Hr). }
  destruct (faults db) as [|f1 fs]; cbn [hd tl] in Hup1, Hup2.
  - rewrite Hend. unfold delete_range, receive. cbn.
    split; [reflexivity|]. eexists. split; [reflexivity | exact Hkeep].
  - subst f1. rewrite Hend. unfold delete_range, receive. cbn [faults].
    destruct fs as [|f2 fs]; cbn [hd] in Hup2; [|subst f2]; cbn;
      (split; [reflexivity|]; eexists; split; [reflexivity | exact Hkeep]).
Qed.

(** The third scenario of the design: deleting the conversation that
    starts at rank 1 from the log 1, 2, 3, 5, 6 of a single user leaves
    ranks 5 and 6. *)
Example deleteConversation_scenario :
  fst (deleteConversation "conv_1" (sampleDb sampleLog [])) = true
  /\ map chat_rank
         (chat_history (snd (deleteConversation "conv_1"
                               (sampleDb sampleLog [])))) = [6; 5].
Proof. vm_compute. split; reflexivity. Qed.

End SingleUserDelete.

(* ================================================================== *)
(** * The uniqueness index is an invariant of the writes *)
(* ================================================================== *)

Section Index.

Lemma key_taken_false (row : DbChatHistory) (rows : list DbChatHistory) :
  key_taken row rows = false ->
  ~ In (user_id row, chat_rank row)
       (map (fun r => (user_id r, chat_rank r)) rows).
Proof.
  unfold key_taken. intros Hk Hin.
  apply in_map_iff in Hin as (r & E & Hr). injection E as Hu Hrank.
  assert (Hex : existsb
                  (fun r => String.eqb (chat_id r) (chat_id row)
                            || (String.eqb (user_id r) (user_id row)
                                && (chat_rank r =? chat_rank row))) rows
                = true).
  { apply existsb_exists. exists r. split; [assumption|].
    rewrite Hu, Hrank, String.eqb_refl, Z.eqb_refl. apply orb_true_r. }
  congruence.
Qed.

Lemma NoDup_snoc {A : Type} (l : list A) (a : A) :
  NoDup l -> ~ In a l -> NoDup (l ++ [a]).
Proof.
  induction 1 as [|x l Hx Hl IH]; intros Ha; simpl.
  - constructor; [intros [] | constructor].
  - constructor.
    + rewrite in_app_iff. intros [H|[<-|[]]]; [auto | apply Ha; now left].
    + apply IH. intros H. apply Ha. now right.
Qed.

Lemma insert_uniqueRanks (row : DbChatHistory) (db : Backend) :
  uniqueRanks (chat_history db) ->
  uniqueRanks (chat_history (snd (insert row db))).
Proof.
  unfold uniqueRanks, insert, receive. intros Hnd.
  destruct (faults db) as [|[|] fs]; cbn [snd chat_history]; try assumption;
    destruct (key_taken row (chat_history db)) eqn:Hk; cbn; try assumption;
    destruct (known_user (user_id row) db); cbn; try assumption;
    rewrite map_app; apply NoDup_snoc; try assumption;
    now apply key_taken_false.
Qed.

Lemma filter_uniqueRanks (p : DbChatHistory -> bool)
      (rows : list DbChatHistory) :
  uniqueRanks rows -> uniqueRanks (filter p rows).
Proof.
  unfold uniqueRanks. induction rows as [|r rows IH]; intros Hnd; [assumption|].
  inversion Hnd as [|? ? Hr Hl]; subst. cbn [filter].
  destruct (p r); [|now apply IH].
  cbn [map]. constructor; [|now apply IH].
  intros Hin. apply Hr.
  apply in_map_iff in Hin as (x & E & Hx). apply filter_In in Hx as [Hx _].
  apply in_map_iff. exists x. split; assumption.
Qed.

Lemma delete_range_uniqueRanks (lo hi : Z) (db : Backend) :
  uniqueRanks (chat_history db) ->
  uniqueRanks (chat_history (snd (delete_range lo hi db))).
Proof.
  unfold delete_range, receive. intros Hnd.
  destruct (faults db) as [|[|] fs]; cbn [snd chat_history with_rows];
    try assumption; now apply filter_uniqueRanks.
Qed.

End Index.

(* ================================================================== *)
(** * The rank allocator *)
(* ================================================================== *)

Section Allocator.

Lemma nextRankOf_Some (r : Z) : nextRankOf (Some r) = r + 1.
Proof.
  unfold nextRankOf. destruct (r =? 0) eqn:E; [|reflexivity].
  apply Z.eqb_eq in E. lia.
Qed.

(** The last row of a list in ascending rank order has the greatest
    rank. *)
Lemma last_sorted_greatest (l : list DbChatHistory) :
  StronglySorted rank_le l ->
  forall m, hd_error (rev l) = Some m ->
            In m l /\ forall r, In r l -> chat_rank r <= chat_rank m.
Proof.
  induction 1 as [|a l Hs IH Ha]; intros m Hm; [discriminate|].
  cbn [rev] in Hm. rewrite hd_error_snoc in Hm. injection Hm as <-.
  destruct (rev l) as [|m' t] eqn:E.
  - assert (l = []) as ->.
    { rewrite <- (rev_involutive l), E. reflexivity. }
    cbn. split; [now left|]. intros r [<-|[]]. lia.
  - cbn [hd]. destruct (IH m') as [Hin Hmax]; [reflexivity|].
    split; [now right|]. intros r [<-|Hr]; [|now apply Hmax].
    rewrite Forall_forall in Ha. exact (Ha m' Hin).
Qed.

Lemma greatest_rank (l : list DbChatHistory) :
  match hd_error (rev (order_by_rank l)) with
  | None => l = []
  | Some m => In m l /\ forall r, In r l -> chat_rank r <= chat_rank m
  end.
Proof.
  destruct (hd_error (rev (order_by_rank l))) as [m|] eqn:E.
  - destruct (last_sorted_greatest _ (order_by_rank_le_sorted l) m E)
      as [Hin Hmax].
    split; [now apply order_by_rank_In|].
    intros r Hr. apply Hmax. now apply order_by_rank_In.
  - destruct l as [|a l]; [reflexivity|]. exfalso.
    assert (Hin : In a (order_by_rank (a :: l)))
      by (apply order_by_rank_In; now left).
    destruct (rev (order_by_rank (a :: l))) as [|x t] eqn:Er;
      [|discriminate].
    apply in_rev in Hin. rewrite Er in Hin. destruct Hin.
Qed.

Lemma sqlMax_greatest (ranks : list Z) :
  match sqlMax ranks with
  | None => ranks = []
  | Some m => In m ranks /\ forall r, In r ranks -> r <= m
  end.
Proof.
  induction ranks as [|r ranks IH]; [reflexivity|].
  cbn [sqlMax]. destruct (sqlMax ranks) as [m|].
  - destruct IH as [Hin Hmax]. split.
    + destruct (Z.max_spec r m) as [[_ ->]|[_ ->]]; [now right | now left].
    + intros x [<-|Hx]; [lia|]. specialize (Hmax x Hx). lia.
  - subst ranks. split; [now left|]. intros x [<-|[]]. lia.
Qed.

(** The rank the client computes from its descending read is the rank
    [get_next_chat_rank] computes with [MAX]. *)
Lemma nextRankOf_get_next_chat_rank (userId : string)
      (rows : list DbChatHistory) :
  nextRankOf (option_map chat_rank
                (hd_error (rev (order_by_rank (filter (eq_user userId) rows)))))
  = get_next_chat_rank userId rows.
Proof.
  unfold get_next_chat_rank.
  pose proof (greatest_rank (filter (eq_user userId) rows)) as Hc.
  pose proof (sqlMax_greatest (map chat_rank (filter (eq_user userId) rows)))
    as Hs.
  destruct (hd_error _) as [m|]; destruct (sqlMax _) as [k|]; cbn [option_map].
  - rewrite nextRankOf_Some. destruct Hc as [Hm Hmax], Hs as [Hk Hkmax].
    apply in_map_iff in Hk as (x & <- & Hx).
    specialize (Hmax x Hx). specialize (Hkmax (chat_rank m) (in_map _ _ _ Hm)).
    lia.
  - destruct Hc as [Hm _]. apply (in_map chat_rank) in Hm.
    rewrite Hs in Hm. destruct Hm.
  - rewrite Hc in Hs. destruct Hs as [[] _].
  - reflexivity.
Qed.

(** The next rank lies above every rank of the user, and is either 1 on
    an empty history or one more than a rank the user has. *)
Lemma get_next_chat_rank_above (userId : string) (rows : list DbChatHistory) :
  (forall r, In r rows -> user_id r = userId ->
             chat_rank r < get_next_chat_rank userId rows)
  /\ ((filter (eq_user userId) rows = [] /\ get_next_chat_rank userId rows = 1)
      \/ exists r, In r rows /\ user_id r = userId
                   /\ chat_rank r = get_next_chat_rank userId rows - 1).
Proof.
  unfold get_next_chat_rank.
  pose proof (sqlMax_greatest (map chat_rank (filter (eq_user userId) rows)))
    as Hs.
  destruct (sqlMax _) as [m|].
  - destruct Hs as [Hm Hmax]. split.
    + intros r Hr Hu.
      assert (In (chat_rank r)
                 (map chat_rank (filter (eq_user userId) rows))).
      { apply in_map, filter_In. split; [assumption|].
        unfold eq_user. rewrite Hu. apply String.eqb_refl. }
      specialize (Hmax _ H). lia.
    + right. apply in_map_iff in Hm as (x & <- & Hx).
      apply filter_In in Hx as [Hx Hu]. exists x.
      split; [assumption|]. split; [|lia].
      unfold eq_user in Hu. now apply String.eqb_eq in Hu.
  - apply map_eq_nil in Hs. split.
    + intros r Hr Hu. exfalso.
      assert (Hin : In r (filter (eq_user userId) rows)).
      { apply filter_In. split; [assumption|].
        unfold eq_user. rewrite Hu. apply String.eqb_refl. }
      rewrite Hs in Hin. destruct Hin.
    + left. split; [assumption | reflexivity].
Qed.

End Allocator.

Section AppendAlone.

Variable env : Env.

Lemma receive_reachable (q : Request) (db : Backend) :
  reachable db ->
  receive q db
  = (false, mkBackend (users db) (chat_history db) (tl (faults db))
                      (journal db ++ [q])).
Proof.
  unfold reachable, receive. destruct (faults db) as [|f fs]; cbn.
  - reflexivity.
  - now intros ->.
Qed.

Lemma select_max_rank_reachable (userId : string) (db : Backend) :
  reachable db ->
  select_max_rank userId db
  = (Ok (option_map chat_rank
           (hd_error (rev (order_by_rank
                             (filter (eq_user userId) (chat_history db)))))),
     mkBackend (users db) (chat_history db) (tl (faults db))
               (journal db ++ [SelectMaxRank userId])).
Proof.
  intros H. unfold select_max_rank. now rewrite (receive_reachable _ _ H).
Qed.

Lemma insert_reachable (row : DbChatHistory) (db : Backend) :
  reachable db ->
  insert row db
  = if key_taken row (chat_history db)
    then (Error DuplicateKey,
          mkBackend (users db) (chat_history db) (tl (faults db))
                    (journal db ++ [Insert row]))
    else if negb (known_user (user_id row) db)
    then (Error ForeignKeyViolation,
          mkBackend (users db) (chat_history db) (tl (faults db))
                    (journal db ++ [Insert row]))
    else (Ok tt,
          mkBackend (users db) (chat_history db ++ [row]) (tl (faults db))
                    (journal db ++ [Insert row])).
Proof.
  intros H. unfold insert. rewrite (receive_reachable _ _ H).
  destruct (key_taken row (chat_history db)); [reflexivity|].
  destruct (known_user (user_id row) db); reflexivity.
Qed.

(** What [createChatEntry] does when it is alone and both of its calls
    go through, in terms of the next rank of the user. *)
Lemma createChatEntry_alone (userId userRequest aiResponse : string)
      (st : Session) (db : Backend) :
  reachableTwice db ->
  let n := get_next_chat_rank userId (chat_history db) in
  let row := mkRow (chatId userId n) userId userRequest aiResponse n
                   (isoNow env) (isoNow env) in
  fst (fst (createChatEntry env alone userId userRequest aiResponse st db))
  = (if key_taken row (chat_history db) then None
     else if negb (known_user userId db) then None
     else Some (chatId userId n))
  /\ chat_history
       (snd (createChatEntry env alone userId userRequest aiResponse st db))
     = (if key_taken row (chat_history db) then chat_history db
        else if negb (known_user userId db) then chat_history db
        else chat_history db ++ [row])
  /\ users (snd (createChatEntry env alone userId userRequest aiResponse st db))
     = users db
  /\ faults (snd (createChatEntry env alone userId userRequest aiResponse st db))
     = tl (tl (faults db))
  /\ journal
       (snd (createChatEntry env alone userId userRequest aiResponse st db))
     = journal db ++ [SelectMaxRank userId; Insert row].
Proof.
  intros [H1 H2] n row. subst row n. unfold createChatEntry, alone.
  rewrite (select_max_rank_reachable _ _ H1).
  rewrite nextRankOf_get_next_chat_rank.
  rewrite insert_reachable by exact H2.
  cbn [chat_history users faults journal user_id].
  unfold known_user. cbn [users].
  destruct (key_taken _ (chat_history db));
    [|destruct (existsb (String.eqb userId) (users db))];
    cbn [fst snd negb chat_history users faults journal];
    rewrite <- app_assoc; repeat split.
Qed.

(** An id of the user at a rank above all of the user's ranks is free in
    a table where the user's ids are owned. *)
Lemma key_free_above (userId q a t t' : string) (n : Z)
      (rows : list DbChatHistory) :
  idsOwned userId rows ->
  (forall r, In r rows -> user_id r = userId -> chat_rank r < n) ->
  key_taken (mkRow (chatId userId n) userId q a n t t') rows = false.
Proof.
  intros Hown Habove. unfold key_taken.
  destruct (existsb _ rows) eqn:E; [|reflexivity]. exfalso.
  apply existsb_exists in E as (r & Hr & Hk). cbn in Hk.
  apply orb_true_iff in Hk as [Hk|Hk].
  - apply String.eqb_eq in Hk. destruct (Hown r n Hr Hk) as [Hu Hn].
    specialize (Habove r Hr Hu). lia.
  - apply andb_true_iff in Hk as [Hu Hn].
    apply String.eqb_eq in Hu. apply Z.eqb_eq in Hn.
    specialize (Habove r Hr Hu). lia.
Qed.

End AppendAlone.

(** X1. With both of its calls going through and no other writer in
    between, [createChatEntry] computes the rank, the id and the outcome
    of the SQL helper [create_chat_entry] of the schema: it returns the
    helper's id, or [null] where the helper raises, and leaves the table as
    the helper leaves it. *)
Theorem createChatEntry_agrees_with_sql_helper (env : Env)
        (userId userRequest aiResponse : string) (st : Session) (db : Backend) :
  reachableTwice db ->
  fst (fst (createChatEntry env alone userId userRequest aiResponse st db))
  = match fst (create_chat_entry (isoNow env) userId userRequest aiResponse db)
    with
    | Ok v_chat_id => Some v_chat_id
    | Error _ => None
    end
  /\ chat_history
       (snd (createChatEntry env alone userId userRequest aiResponse st db))
     = chat_history
         (snd (create_chat_entry (isoNow env) userId userRequest aiResponse db)).
Proof.
  intros Hup.
  destruct (createChatEntry_alone env userId userRequest aiResponse st db Hup)
    as (Hres & Hrows & _).
  rewrite Hres, Hrows. unfold create_chat_entry, chatId.
  destruct (key_taken _ (chat_history db)); [split; reflexivity|].
  destruct (known_user userId db); split; reflexivity.
Qed.

Lemma createChatEntry_agrees_with_sql_helper_witness :
  fst (fst (createChatEntry sampleEnv alone "ann@example.com" "question"
              "answer" initialSession mixedDb))
  = match fst (create_chat_entry (isoNow sampleEnv) "ann@example.com"
                 "question" "answer" mixedDb)
    with
    | Ok v_chat_id => Some v_chat_id
    | Error _ => None
    end
  /\ chat_history
       (snd (createChatEntry sampleEnv alone "ann@example.com" "question"
               "answer" initialSession mixedDb))
     = chat_history
         (snd (create_chat_entry (isoNow sampleEnv) "ann@example.com"
                 "question" "answer" mixedDb)).
Proof.
  apply createChatEntry_agrees_with_sql_helper. split; reflexivity.
Defined.

(** X2. When the user is known, the user's ids are owned and both calls
    go through, [createChatEntry] on its own succeeds: it returns the id of
    a rank [n] that lies above every rank of the user (1 on an empty
    history, otherwise one more than a rank the user has), and the table is
    the old one followed by the new row; no other row changes. *)
Theorem createChatEntry_appends (env : Env)
        (userId userRequest aiResponse : string) (st : Session) (db : Backend) :
  reachableTwice db ->
  known_user userId db = true ->
  idsOwned userId (chat_history db) ->
  exists n,
    fst (fst (createChatEntry env alone userId userRequest aiResponse st db))
    = Some (chatId userId n)
    /\ chat_history
         (snd (createChatEntry env alone userId userRequest aiResponse st db))
       = chat_history db
           ++ [mkRow (chatId userId n) userId userRequest aiResponse n
                     (isoNow env) (isoNow env)]
    /\ (forall r, In r (chat_history db) -> user_id r = userId ->
                  chat_rank r < n)
    /\ ((filter (eq_user userId) (chat_history db) = [] /\ n = 1)
        \/ exists r, In r (chat_history db) /\ user_id r = userId
                     /\ chat_rank r = n - 1).
Proof.
  intros Hup Hknown Hown.
  exists (get_next_chat_rank userId (chat_history db)).
  destruct (get_next_chat_rank_above userId (chat_history db)) as [Habove Hn].
  destruct (createChatEntry_alone env userId userRequest aiResponse st db Hup)
    as (Hres & Hrows & _).
  rewrite Hres, Hrows, Hknown.
  rewrite (key_free_above userId _ _ _ _ _ _ Hown Habove). cbn [negb].
  repeat split; assumption.
Qed.

Lemma idsOwned_nil (userId : string) : idsOwned userId [].
Proof. intros r k []. Qed.

Lemma idsOwned_cons (userId : string) (r : DbChatHistory)
      (rows : list DbChatHistory) :
  (forall k, chat_id r = chatId userId k ->
             user_id r = userId /\ chat_rank r = k) ->
  idsOwned userId rows -> idsOwned userId (r :: rows).
Proof. intros Hr Hrows x k [<-|Hx] E; [now apply Hr | now apply (Hrows x k)]. Qed.

(** A row with the id derived from its own user and rank is owned by that
    user. *)
Lemma derived_row_owned (userId : string) (r : DbChatHistory) :
  user_id r = userId -> chat_id r = chatId userId (chat_rank r) ->
  forall k, chat_id r = chatId userId k ->
            user_id r = userId /\ chat_rank r = k.
Proof.
  intros Hu Hid k E. split; [assumption|].
  rewrite Hid in E. unfold chatId in E.
  now apply JsFacts.append_cancel_l, JsFacts.toString_inj in E.
Qed.

Lemma mixedDb_owned : idsOwned "ann@example.com" (chat_history mixedDb).
Proof.
  repeat (apply idsOwned_cons;
          [first [ now apply derived_row_owned
                 | intros k E; discriminate E ] |]).
  apply idsOwned_nil.
Qed.

Lemma createChatEntry_appends_witness :
  exists n,
    fst (fst (createChatEntry sampleEnv alone "ann@example.com" "question"
                "answer" initialSession mixedDb))
    = Some (chatId "ann@example.com" n)
    /\ chat_history
         (snd (createChatEntry sampleEnv alone "ann@example.com" "question"
                 "answer" initialSession mixedDb))
       = chat_history mixedDb
           ++ [mkRow (chatId "ann@example.com" n) "ann@example.com"
                     "question" "answer" n
                     (isoNow sampleEnv) (isoNow sampleEnv)]
    /\ (forall r, In r (chat_history mixedDb) ->
                  user_id r = "ann@example.com" -> chat_rank r < n)
    /\ ((filter (eq_user "ann@example.com") (chat_history mixedDb) = []
         /\ n = 1)
        \/ exists r, In r (chat_history mixedDb)
                     /\ user_id r = "ann@example.com"
                     /\ chat_rank r = n - 1).
Proof.
  apply createChatEntry_appends.
  - split; reflexivity.
  - reflexivity.
  - exact mixedDb_owned.
Defined.

(* ================================================================== *)
(** * Appending and the conversation list *)
(* ================================================================== *)

Section AppendAndFetch.

Variable env : Env.

Lemma insert_by_rank_snoc (a x : DbChatHistory) (l : list DbChatHistory) :
  chat_rank a <= chat_rank x ->
  insert_by_rank a (l ++ [x]) = insert_by_rank a l ++ [x].
Proof.
  intros Hax. induction l as [|y l IH]; simpl.
  - apply Z.leb_le in Hax. now rewrite Hax.
  - destruct (chat_rank a <=? chat_rank y); [reflexivity|]. now rewrite IH.
Qed.

(** A row above all the others sorts last. *)
Lemma order_by_rank_snoc (x : DbChatHistory) (l : list DbChatHistory) :
  (forall r, In r l -> chat_rank r < chat_rank x) ->
  order_by_rank (l ++ [x]) = order_by_rank l ++ [x].
Proof.
  induction l as [|a l IH]; intros Hx; [reflexivity|].
  cbn [app order_by_rank]. rewrite IH by (intros r Hr; apply Hx; now right).
  apply insert_by_rank_snoc. specialize (Hx a (or_introl eq_refl)). lia.
Qed.

Lemma rev_cons_hd_error {A : Type} (a b : A) (l : list A) :
  hd_error (rev (a :: b :: l)) = hd_error (rev (b :: l)).
Proof.
  cbn [rev]. destruct (rev l) as [|x t]; reflexivity.
Qed.

(** An entry one rank above the last one joins the last run. *)
Lemma groupRuns_snoc (x : DbChatHistory) (log : list DbChatHistory) :
  forall m,
    hd_error (rev log) = Some m ->
    chat_rank x = chat_rank m + 1 ->
    exists init first others,
      groupRuns log = init ++ [(first, others)]
      /\ groupRuns (log ++ [x]) = init ++ [(first, others ++ [x])].
Proof.
  induction log as [|a log IH]; intros m Hm Hx; [discriminate|].
  destruct log as [|b log].
  - injection Hm as <-. exists [], a, []. split; [reflexivity|].
    cbn. apply Z.eqb_eq in Hx. now rewrite Hx.
  - rewrite rev_cons_hd_error in Hm.
    destruct (IH m Hm Hx) as (init & first & others & Hg & Hg').
    change (groupRuns (a :: b :: log))
      with (match groupRuns (b :: log) with
            | (n, o) :: rs =>
                if chat_rank n =? chat_rank a + 1
                then (a, n :: o) :: rs
                else (a, []) :: (n, o) :: rs
            | [] => [(a, [])]
            end).
    change (groupRuns ((a :: b :: log) ++ [x]))
      with (match groupRuns ((b :: log) ++ [x]) with
            | (n, o) :: rs =>
                if chat_rank n =? chat_rank a + 1
                then (a, n :: o) :: rs
                else (a, []) :: (n, o) :: rs
            | [] => [(a, [])]
            end).
    rewrite Hg, Hg'. destruct init as [|[n o] init]; cbn [app].
    + destruct (chat_rank first =? chat_rank a + 1).
      * exists [], a, (first :: others). split; reflexivity.
      * exists [(a, [])], first, others. split; reflexivity.
    + destruct (chat_rank n =? chat_rank a + 1).
      * exists ((a, n :: o) :: init), first, others. split; reflexivity.
      * exists ((a, []) :: (n, o) :: init), first, others. split; reflexivity.
Qed.

Lemma fetchConversations_faultFree (userId : string) (db : Backend) :
  faultFree db ->
  fst (fetchConversations env userId db)
  = rev (map (conversationOf env) (groupRuns (historyOf userId db))).
Proof.
  intros Hf. rewrite fetchConversations_groupRuns.
  unfold faultFree in Hf. now rewrite Hf.
Qed.

Lemma filter_eq_user_snoc (userId : string) (row : DbChatHistory)
      (rows : list DbChatHistory) :
  user_id row = userId ->
  filter (eq_user userId) (rows ++ [row])
  = filter (eq_user userId) rows ++ [row].
Proof.
  intros Hu. rewrite filter_app. cbn [filter]. unfold eq_user at 2.
  now rewrite Hu, String.eqb_refl.
Qed.

End AppendAndFetch.

(** X3. A stored exchange always joins the newest conversation. When the
    backend has no failure to come, the user is known and the user's ids
    are owned, the conversation list read after [createChatEntry] is the
    list read before it with its first (newest) conversation extended by
    the two messages of the new entry, same id, start rank and title; on
    an empty list it is the single conversation of the new entry. No
    call of [createChatEntry] adds a second conversation to a non-empty
    list. *)
Theorem createChatEntry_joins_newest_conversation (env : Env)
        (userId userRequest aiResponse : string) (st : Session) (db : Backend) :
  faultFree db ->
  known_user userId db = true ->
  idsOwned userId (chat_history db) ->
  exists row,
    user_id row = userId /\ user_request row = userRequest
    /\ ai_response row = aiResponse
    /\ match fst (fetchConversations env userId db) with
       | [] =>
           chat_rank row = 1
           /\ fst (fetchConversations env userId
                     (snd (createChatEntry env alone userId userRequest
                             aiResponse st db)))
              = [conversationOf env (row, [])]
       | newest :: older =>
           exists newest',
             fst (fetchConversations env userId
                    (snd (createChatEntry env alone userId userRequest
                            aiResponse st db)))
             = newest' :: older
             /\ id newest' = id newest
             /\ startRank newest' = startRank newest
             /\ title newest' = title newest
             /\ messages newest'
                = messages newest ++ entryMessages env row
       end.
Proof.
  intros Hf Hknown Hown.
  assert (Hup : reachableTwice db)
    by (unfold reachableTwice; unfold faultFree in Hf; rewrite Hf; now split).
  destruct (createChatEntry_alone env userId userRequest aiResponse st db Hup)
    as (_ & Hrows & _ & Hfaults & _).
  destruct (get_next_chat_rank_above userId (chat_history db)) as [Habove _].
  rewrite Hknown, (key_free_above userId _ _ _ _ _ _ Hown Habove) in Hrows.
  cbn [negb] in Hrows.
  set (n := get_next_chat_rank userId (chat_history db)) in *.
  set (row := mkRow (chatId userId n) userId userRequest aiResponse n
                    (isoNow env) (isoNow env)) in *.
  exists row. repeat (split; [reflexivity|]).
  assert (Hf' : faultFree (snd (createChatEntry env alone userId userRequest
                                  aiResponse st db))).
  { unfold faultFree in *. rewrite Hfaults, Hf. reflexivity. }
  rewrite !fetchConversations_faultFree by assumption.
  assert (Hhist : historyOf userId
                    (snd (createChatEntry env alone userId userRequest
                            aiResponse st db))
                  = historyOf userId db ++ [row]).
  { unfold historyOf. rewrite Hrows, filter_eq_user_snoc by reflexivity.
    apply order_by_rank_snoc. intros r Hr.
    apply filter_In in Hr as [Hr Hu]. apply Habove; [assumption|].
    now apply String.eqb_eq in Hu. }
  rewrite Hhist.
  pose proof (nextRankOf_get_next_chat_rank userId (chat_history db)) as Hn.
  fold (historyOf userId db) in Hn. fold n in Hn.
  destruct (hd_error (rev (historyOf userId db))) as [m|] eqn:Em.
  - cbn [option_map] in Hn. rewrite nextRankOf_Some in Hn.
    destruct (groupRuns_snoc row (historyOf userId db) m Em)
      as (init & first & others & Hg & Hg'); [cbn; lia|].
    rewrite Hg, Hg', !map_app, !rev_app_distr. cbn [map rev app].
    exists (conversationOf env (first, others ++ [row])).
    repeat (split; [reflexivity|]).
    cbn [conversationOf messages fst snd].
    rewrite !pushMessages_flat_map, app_comm_cons, flat_map_app.
    cbn [flat_map]. now rewrite app_nil_r.
  - assert (historyOf userId db = []) as ->.
    { destruct (historyOf userId db) as [|a l] eqn:E; [reflexivity|].
      exfalso. cbn [rev] in Em. now rewrite hd_error_snoc in Em. }
    cbn. split; [|reflexivity]. cbn in Hn. lia.
Qed.

Lemma createChatEntry_joins_newest_conversation_witness :
  exists row,
    user_id row = "ann@example.com" /\ user_request row = "question"
    /\ ai_response row = "answer"
    /\ match fst (fetchConversations sampleEnv "ann@example.com" mixedDb) with
       | [] =>
           chat_rank row = 1
           /\ fst (fetchConversations sampleEnv "ann@example.com"
                     (snd (createChatEntry sampleEnv alone "ann@example.com"
                             "question" "answer" initialSession mixedDb)))
              = [conversationOf sampleEnv (row, [])]
       | newest :: older =>
           exists newest',
             fst (fetchConversations sampleEnv "ann@example.com"
                    (snd (createChatEntry sampleEnv alone "ann@example.com"
                            "question" "answer" initialSession mixedDb)))
             = newest' :: older
             /\ id newest' = id newest
             /\ startRank newest' = startRank newest
             /\ title newest' = title newest
             /\ messages newest'
                = messages newest ++ entryMessages sampleEnv row
       end.
Proof.
  apply createChatEntry_joins_newest_conversation.
  - reflexivity.
  - reflexivity.
  - exact mixedDb_owned.
Defined.

(* ================================================================== *)
(** * What the append paths send and store *)
(* ================================================================== *)

Section Sent.

Variable env : Env.

Lemma insert_effect (row : DbChatHistory) (db : Backend) :
  journal (snd (insert row db)) = journal db ++ [Insert row]
  /\ users (snd (insert row db)) = users db
  /\ faults (snd (insert row db)) = tl (faults db)
  /\ ((fst (insert row db) = Ok tt
       /\ chat_history (snd (insert row db)) = chat_history db ++ [row])
      \/ (exists e, fst (insert row db) = Error e)
         /\ chat_history (snd (insert row db)) = chat_history db).
Proof.
  unfold insert, receive.
  destruct (faults db) as [|[|] fs]; cbn [fst snd];
    try (cbn; repeat split; right; split; [eexists|]; reflexivity);
    destruct (key_taken row (chat_history db));
    try (cbn; repeat split; right; split; [eexists|]; reflexivity);
    destruct (known_user (user_id row) db);
    cbn; repeat split;
    first [ left; split; reflexivity
          | right; split; [eexists|]; reflexivity ].
Qed.

Lemma isRole_role (r : Role) (m : Message) : isRole r m = true -> role m = r.
Proof. unfold isRole. destruct r, (role m); congruence. Qed.

Lemma sentFrom_weaken (userId : string) (msgs msgs' : list Message)
      (r : DbChatHistory) :
  (forall m, In m msgs -> In m msgs') ->
  sentFrom userId msgs r -> sentFrom userId msgs' r.
Proof.
  intros Hsub (Hu & Hid & mu & ma & Hmu & Hma & H).
  split; [assumption|]. split; [assumption|].
  exists mu, ma. split; [auto|]. split; [auto|]. exact H.
Qed.

(** The loop of [saveCurrentSession]: it sends inserts and nothing else,
    for rows of the user with derived ids at consecutive ranks from
    [nextRank] up, each made of a user message and an assistant message;
    all are stored when it returns [true], all but the last one, which was
    refused, when it returns [false]. *)
Lemma savePairs_effect (userId : string) (msgs : list Message) :
  forall (nextRank : Z) (db : Backend),
  exists sent stored,
    journal (snd (savePairs env userId msgs nextRank db))
    = journal db ++ map Insert sent
    /\ chat_history (snd (savePairs env userId msgs nextRank db))
       = chat_history db ++ stored
    /\ users (snd (savePairs env userId msgs nextRank db)) = users db
    /\ (faultFree db -> faultFree (snd (savePairs env userId msgs nextRank db)))
    /\ consecutiveFrom nextRank sent
    /\ Forall (sentFrom userId msgs) sent
    /\ ((fst (savePairs env userId msgs nextRank db) = true /\ stored = sent)
        \/ (fst (savePairs env userId msgs nextRank db) = false
            /\ exists refused, sent = stored ++ [refused])).
Proof.
  assert (Hboth :
    (forall (nextRank : Z) (db : Backend),
      exists sent stored,
        journal (snd (savePairs env userId msgs nextRank db))
        = journal db ++ map Insert sent
        /\ chat_history (snd (savePairs env userId msgs nextRank db))
           = chat_history db ++ stored
        /\ users (snd (savePairs env userId msgs nextRank db)) = users db
        /\ (faultFree db ->
            faultFree (snd (savePairs env userId msgs nextRank db)))
        /\ consecutiveFrom nextRank sent
        /\ Forall (sentFrom userId msgs) sent
        /\ ((fst (savePairs env userId msgs nextRank db) = true
             /\ stored = sent)
            \/ (fst (savePairs env userId msgs nextRank db) = false
                /\ exists refused, sent = stored ++ [refused])))
    /\ (forall (x : Message) (nextRank : Z) (db : Backend),
      exists sent stored,
        journal (snd (savePairs env userId (x :: msgs) nextRank db))
        = journal db ++ map Insert sent
        /\ chat_history (snd (savePairs env userId (x :: msgs) nextRank db))
           = chat_history db ++ stored
        /\ users (snd (savePairs env userId (x :: msgs) nextRank db))
           = users db
        /\ (faultFree db ->
            faultFree (snd (savePairs env userId (x :: msgs) nextRank db)))
        /\ consecutiveFrom nextRank sent
        /\ Forall (sentFrom userId (x :: msgs)) sent
        /\ ((fst (savePairs env userId (x :: msgs) nextRank db) = true
             /\ stored = sent)
            \/ (fst (savePairs env userId (x :: msgs) nextRank db) = false
                /\ exists refused, sent = stored ++ [refused])))).
  { induction msgs as [|a rest [IHrest IHa]].
    - split; [intros nextRank db | intros x nextRank db];
        exists [], []; cbn; rewrite !app_nil_r;
        repeat split; auto.
    - split; [exact (IHa a)|]. intros x nextRank db.
      cbn [savePairs].
      destruct (isRole user x && isRole assistant a) eqn:Hroles.
      + apply andb_true_iff in Hroles as [Hx Ha].
        apply isRole_role in Hx, Ha.
        set (row := mkRow (chatId userId nextRank) userId (content x)
                          (content a) nextRank (isoNow env) (isoNow env)).
        assert (Hrow : sentFrom userId (x :: a :: rest) row).
        { split; [reflexivity|]. split; [reflexivity|].
          exists x, a. cbn. intuition. }
        destruct (insert_effect row db)
          as (Hj & Hu & Hfl & [[Hok Hrows] | [[e He] Hrows]]).
        * destruct (insert row db) as [res db'] eqn:Eins.
          cbn [fst snd] in *. subst res.
          destruct (IHrest (nextRank + 1) db')
            as (sent & stored & Hj' & Hrows' & Hu' & Hff & Hc & Hall & Hres).
          exists (row :: sent), (row :: stored).
          split; [rewrite Hj', Hj, <- app_assoc; reflexivity|].
          split; [rewrite Hrows', Hrows, <- app_assoc; reflexivity|].
          split; [rewrite Hu'; exact Hu|].
          split; [intros Hf; apply Hff; unfold faultFree in *;
                  rewrite Hfl, Hf; reflexivity|].
          split; [split; [reflexivity | assumption]|].
          split.
          -- constructor; [assumption|].
             eapply Forall_impl; [|exact Hall].
             intros r. apply sentFrom_weaken. intros m Hm. now do 2 right.
          -- destruct Hres as [[Ht ->] | [Hfa [refused ->]]];
               [left; split; [assumption | reflexivity]
               | right; split; [assumption | exists refused; reflexivity]].
        * destruct (insert row db) as [res db'] eqn:Eins.
          cbn [fst snd] in *. subst res.
          exists [row], []. cbn [map app fst snd].
          split; [exact Hj|].
          split; [rewrite Hrows, app_nil_r; reflexivity|].
          split; [exact Hu|].
          split; [intros Hf; unfold faultFree in *;
                  rewrite Hfl, Hf; reflexivity|].
          split; [split; [reflexivity | exact I]|].
          split; [constructor; [assumption | constructor]|].
          right. split; [reflexivity | exists row; reflexivity].
      + destruct (IHrest nextRank db)
          as (sent & stored & Hj' & Hrows' & Hu' & Hff & Hc & Hall & Hres).
        exists sent, stored. repeat split; try assumption.
        eapply Forall_impl; [|exact Hall].
        intros r. apply sentFrom_weaken. intros m Hm. now do 2 right. }
  exact (proj1 Hboth).
Qed.

End Sent.

Section SaveSession.

Variable env : Env.

Lemma select_max_rank_effect (userId : string) (db : Backend) :
  chat_history (snd (select_max_rank userId db)) = chat_history db
  /\ users (snd (select_max_rank userId db)) = users db
  /\ faults (snd (select_max_rank userId db)) = tl (faults db)
  /\ journal (snd (select_max_rank userId db))
     = journal db ++ [SelectMaxRank userId]
  /\ nextRankOf (match fst (select_max_rank userId db) with
                 | Ok data => data
                 | Error _ => None
                 end)
     = if hd false (faults db) then 1
       else get_next_chat_rank userId (chat_history db).
Proof.
  unfold select_max_rank, receive.
  destruct (faults db) as [|[|] fs]; cbn [fst snd hd tl chat_history users
                                          faults journal];
    repeat split; apply nextRankOf_get_next_chat_rank.
Qed.

(** [saveCurrentSession] as a whole: nothing at all when no message is
    left after the default ones are filtered out; otherwise one read of
    the greatest rank followed by the inserts of [savePairs], from the
    next rank of the user, or from 1 when the read failed. *)
Lemma saveCurrentSession_effect (userId : string) (messages : list Message)
      (db : Backend) :
  (filter (fun m => negb (isDefaultMessage m)) messages = []
   /\ saveCurrentSession env userId messages db = (true, db))
  \/ exists sent stored,
      journal (snd (saveCurrentSession env userId messages db))
      = journal db ++ SelectMaxRank userId :: map Insert sent
      /\ chat_history (snd (saveCurrentSession env userId messages db))
         = chat_history db ++ stored
      /\ users (snd (saveCurrentSession env userId messages db)) = users db
      /\ (faultFree db ->
          faultFree (snd (saveCurrentSession env userId messages db)))
      /\ consecutiveFrom
           (if hd false (faults db) then 1
            else get_next_chat_rank userId (chat_history db)) sent
      /\ Forall (sentFrom userId
                   (filter (fun m => negb (isDefaultMessage m)) messages))
                sent
      /\ ((fst (saveCurrentSession env userId messages db) = true
           /\ stored = sent)
          \/ (fst (saveCurrentSession env userId messages db) = false
              /\ exists refused, sent = stored ++ [refused])).
Proof.
  unfold saveCurrentSession.
  destruct messages as [|m0 messages]; [left; split; reflexivity|].
  destruct (filter _ (m0 :: messages)) as [|n0 kept] eqn:Ekept;
    [left; split; reflexivity|].
  right.
  destruct (select_max_rank_effect userId db) as (Hrows & Hu & Hfl & Hj & Hn).
  destruct (select_max_rank userId db) as [res db1] eqn:Esel.
  cbn [fst snd] in *.
  destruct (savePairs_effect env userId (n0 :: kept)
              (nextRankOf match res with Ok data => data | Error _ => None end)
              db1)
    as (sent & stored & Hj' & Hrows' & Hu' & Hff & Hc & Hall & Hres).
  exists sent, stored.
  split; [rewrite Hj', Hj, <- app_assoc; reflexivity|].
  split; [rewrite Hrows', Hrows; reflexivity|].
  split; [rewrite Hu'; exact Hu|].
  split; [intros Hf; apply Hff; unfold faultFree in *;
          rewrite Hfl, Hf; reflexivity|].
  split; [rewrite <- Hn; exact Hc|].
  split; assumption.
Qed.

End SaveSession.


(** X5. Appends of one user are invisible to another. When the backend has
    no failure to come, the conversation list of [userId] is the same
    before and after [createChatEntry] or [saveCurrentSession] runs for a
    different user. *)
Theorem appends_of_others_invisible (env : Env) (userId other : string)
        (userRequest aiResponse : string) (st : Session)
        (messages : list Message) (db : Backend) :
  other <> userId ->
  faultFree db ->
  fst (fetchConversations env userId
         (snd (createChatEntry env alone other userRequest aiResponse st db)))
  = fst (fetchConversations env userId db)
  /\ fst (fetchConversations env userId
            (snd (saveCurrentSession env other messages db)))
     = fst (fetchConversations env userId db).
Proof.
  intros Hne Hf.
  assert (Hskip : forall added,
             Forall (fun r => user_id r = other) added ->
             filter (eq_user userId) (chat_history db ++ added)
             = filter (eq_user userId) (chat_history db)).
  { intros added Hadd. rewrite filter_app.
    replace (filter (eq_user userId) added) with (@nil DbChatHistory);
      [apply app_nil_r|].
    induction Hadd as [|r added Hr _ IH]; [reflexivity|].
    cbn [filter]. unfold eq_user at 1. rewrite Hr.
    destruct (String.eqb_spec other userId); [contradiction | exact IH]. }
  split.
  - assert (Hup : reachableTwice db)
      by (unfold reachableTwice; unfold faultFree in Hf; rewrite Hf; now split).
    destruct (createChatEntry_alone env other userRequest aiResponse st db Hup)
      as (_ & Hrows & _ & Hfaults & _).
    rewrite !fetchConversations_faultFree;
      [| assumption | unfold faultFree in *; rewrite Hfaults, Hf; reflexivity].
    unfold historyOf. rewrite Hrows.
    destruct (key_taken _ (chat_history db)); [reflexivity|].
    destruct (negb (known_user other db)); [reflexivity|].
    rewrite Hskip; [reflexivity|]. constructor; [reflexivity | constructor].
  - destruct (saveCurrentSession_effect env other messages db)
      as [[_ ->] | (sent & stored & _ & Hrows & _ & Hff & _ & Hall & Hres)];
      [reflexivity|].
    rewrite !fetchConversations_faultFree by auto.
    unfold historyOf. rewrite Hrows, Hskip; [reflexivity|].
    assert (Hsent : Forall (fun r => user_id r = other) sent).
    { eapply Forall_impl; [|exact Hall]. now intros r [Hu _]. }
    destruct Hres as [[_ ->] | [_ [refused ->]]]; [assumption|].
    apply Forall_app in Hsent. tauto.
Qed.

Lemma appends_of_others_invisible_witness :
  fst (fetchConversations sampleEnv "ann@example.com"
         (snd (createChatEntry sampleEnv alone "bob@example.com" "question"
                 "answer" initialSession mixedDb)))
  = fst (fetchConversations sampleEnv "ann@example.com" mixedDb)
  /\ fst (fetchConversations sampleEnv "ann@example.com"
            (snd (saveCurrentSession sampleEnv "bob@example.com"
                    sampleMessages mixedDb)))
     = fst (fetchConversations sampleEnv "ann@example.com" mixedDb).
Proof.
  apply appends_of_others_invisible.
  - discriminate.
  - reflexivity.
Defined.

(* ================================================================== *)
(** * Ids, titles and previews of the conversations *)
(* ================================================================== *)

Section Titles.





End Titles.




Section Ids.

Variable env : Env.

Lemma uniqueRanks_user (userId : string) (rows : list DbChatHistory) :
  uniqueRanks rows ->
  NoDup (map chat_rank (filter (eq_user userId) rows)).
Proof.
  unfold uniqueRanks. induction rows as [|r rows IH]; intros Hnd;
    [constructor|].
  inversion Hnd as [|? ? Hr Hl]; subst. cbn [filter].
  destruct (eq_user userId r) eqn:Eu; [|now apply IH].
  cbn [map]. constructor; [|now apply IH].
  intros Hin. apply Hr.
  apply in_map_iff in Hin as (x & Hx & Hin).
  apply filter_In in Hin as [Hin Hux].
  unfold eq_user in *. apply String.eqb_eq in Eu, Hux.
  apply in_map_iff. exists x. split; [|assumption].
  now rewrite Hx, Hux, Eu.
Qed.

Lemma historyOf_sorted (userId : string) (db : Backend) :
  uniqueRanks (chat_history db) ->
  StronglySorted rank_lt (historyOf userId db).
Proof.
  intros Hnd. apply order_by_rank_sorted. now apply uniqueRanks_user.
Qed.

Lemma runStarts_sorted_lt (log : list DbChatHistory) :
  StronglySorted rank_lt log ->
  forall prev, StronglySorted Z.lt (runStarts prev log).
Proof.
  induction 1 as [|entry log Hs IH Hlt]; intros prev; [constructor|].
  cbn [runStarts]. destruct (startsRun prev entry); cbn [app]; [|apply IH].
  constructor; [apply IH|].
  rewrite Forall_forall in *. intros z Hz.
  destruct (runStarts_In _ _ _ Hz) as (e & He & <-). exact (Hlt e He).
Qed.

Lemma StronglySorted_lt_NoDup (l : list Z) :
  StronglySorted Z.lt l -> NoDup l.
Proof.
  induction 1 as [|x l Hs IH Hx]; constructor; [|assumption].
  intros Hin. rewrite Forall_forall in Hx. specialize (Hx x Hin). lia.
Qed.

Lemma NoDup_map_inj {A B : Type} (f : A -> B) (l : list A) :
  (forall x y, f x = f y -> x = y) -> NoDup l -> NoDup (map f l).
Proof.
  intros Hinj. induction 1 as [|x l Hx Hl IH]; cbn; constructor;
    [|assumption].
  intros Hin. apply in_map_iff in Hin as (y & E & Hy).
  apply Hinj in E. now subst.
Qed.

Lemma conv_token_inj (n m : Z) :
  ("conv_" ++ Js.toString n)%string = ("conv_" ++ Js.toString m)%string ->
  n = m.
Proof.
  intros E. now apply JsFacts.append_cancel_l, JsFacts.toString_inj in E.
Qed.

(** In a table with distinct ranks per user, the runs of a user's history
    start at distinct ranks. *)
Lemma groupRuns_starts_NoDup (log : list DbChatHistory) :
  StronglySorted rank_lt log ->
  NoDup (map (fun g => chat_rank (fst g)) (groupRuns log)).
Proof.
  intros Hs. rewrite groupRuns_starts.
  apply StronglySorted_lt_NoDup. now apply runStarts_sorted_lt.
Qed.

Lemma pushMessages_nonempty (first : DbChatHistory)
      (others : list DbChatHistory) :
  pushMessages env (first :: others) <> [].
Proof. rewrite pushMessages_flat_map. discriminate. Qed.

End Ids.

(** X8. The ids of the conversations. Every conversation that
    [fetchConversations] returns carries the token ["conv_"] followed by
    its start rank as both [id] and [sessionId], the token parses back to
    that start rank, and the conversation has at least one message; in a
    table where no two rows share [(user_id, chat_rank)] no two
    conversations of the list share an id. *)
Theorem conversation_ids (env : Env) (userId : string) (db : Backend) :
  uniqueRanks (chat_history db) ->
  NoDup (map id (fst (fetchConversations env userId db)))
  /\ forall c,
      In c (fst (fetchConversations env userId db)) ->
      id c = ("conv_" ++ Js.toString (startRank c))%string
      /\ sessionId c = id c
      /\ parseConversationId (id c) = Some (startRank c)
      /\ messages c <> [].
Proof.
  intros Hnd. rewrite fetchConversations_groupRuns.
  destruct (hd false (faults db)); [split; [constructor | intros c []]|].
  split.
  - rewrite map_rev. apply NoDup_rev. rewrite map_map.
    cbn [conversationOf id].
    change (map (fun x => ("conv_" ++ Js.toString (chat_rank (fst x)))%string)
                (groupRuns (historyOf userId db)))
      with (map (fun x => (fun n => ("conv_" ++ Js.toString n)%string)
                            ((fun g => chat_rank (fst g)) x))
                (groupRuns (historyOf userId db))).
    rewrite <- map_map. apply NoDup_map_inj; [exact conv_token_inj|].
    apply groupRuns_starts_NoDup. now apply historyOf_sorted.
  - intros c Hc. apply in_rev, in_map_iff in Hc as (g & <- & Hg).
    cbn [conversationOf id sessionId startRank messages].
    split; [reflexivity|]. split; [reflexivity|].
    split; [apply parseConversationId_conv | apply pushMessages_nonempty].
Qed.

Lemma conversation_ids_witness :
  NoDup (map id (fst (fetchConversations sampleEnv "ann@example.com" mixedDb)))
  /\ forall c,
      In c (fst (fetchConversations sampleEnv "ann@example.com" mixedDb)) ->
      id c = ("conv_" ++ Js.toString (startRank c))%string
      /\ sessionId c = id c
      /\ parseConversationId (id c) = Some (startRank c)
      /\ messages c <> [].
Proof.
  apply conversation_ids.
  unfold uniqueRanks. vm_compute.
  repeat (constructor; [simpl; intuition discriminate|]). constructor.
Defined.

(* ================================================================== *)
(** * Deleting a conversation and the conversation list *)
(* ================================================================== *)

Section DeleteAndFetch.

Variable env : Env.

(** The first run of a log and the log that follows it. *)
Lemma groupRuns_first_split (log : list DbChatHistory) :
  forall entry others runs,
    groupRuns (entry :: log) = (entry, others) :: runs ->
    exists post, log = others ++ post /\ groupRuns post = runs.
Proof.
  induction log as [|next log IH]; intros entry others runs Hg.
  - injection Hg as <- <-. exists []. split; reflexivity.
  - destruct (groupRuns_cons next log) as (others' & runs' & Hg').
    change (groupRuns (entry :: next :: log))
      with (match groupRuns (next :: log) with
            | (n, o) :: rs =>
                if chat_rank n =? chat_rank entry + 1
                then (entry, n :: o) :: rs
                else (entry, []) :: (n, o) :: rs
            | [] => [(entry, [])]
            end) in Hg.
    rewrite Hg' in Hg.
    destruct (chat_rank next =? chat_rank entry + 1);
      injection Hg as <- <-.
    + destruct (IH next others' runs' Hg') as (post & Hlog & Hpost).
      exists post. split; [now rewrite Hlog | assumption].
    + exists (next :: log). split; [reflexivity | assumption].
Qed.

Lemma StronglySorted_app_inv {A : Type} (R : A -> A -> Prop) (a b : list A) :
  StronglySorted R (a ++ b) ->
  StronglySorted R b /\ forall x y, In x a -> In y b -> R x y.
Proof.
  induction a as [|h a IH]; cbn [app]; intros Hs.
  - split; [assumption | intros x y []].
  - inversion Hs as [|? ? Hs' Hh]; subst.
    destruct (IH Hs') as [Hb Hab]. split; [assumption|].
    intros x y [<-|Hx] Hy; [|now apply Hab].
    rewrite Forall_forall in Hh. apply Hh, in_or_app. now right.
Qed.

(** The later runs of a sorted log start above its first entry. *)
Lemma later_runs_above (entry : DbChatHistory) (log : list DbChatHistory)
      (others : list DbChatHistory)
      (runs : list (DbChatHistory * list DbChatHistory)) :
  StronglySorted rank_lt (entry :: log) ->
  groupRuns (entry :: log) = (entry, others) :: runs ->
  forall g, In g runs ->
            chat_rank entry + Z.of_nat (List.length others)
            < chat_rank (fst g).
Proof.
  intros Hs Hg g Hin.
  destruct (groupRuns_first_split log entry others runs Hg)
    as (post & Hlog & Hpost).
  subst log.
  pose proof (groupRuns_consecutive (entry :: others ++ post)) as Hc.
  rewrite Hg in Hc. apply Forall_inv in Hc. cbn [fst snd] in Hc.
  rename Hc into Hrun.
  assert (Hfirst : In (fst g) post)
    by (apply groupRuns_first_In; now rewrite Hpost).
  destruct (consecutiveFrom_covers (entry :: others) (chat_rank entry)
              (chat_rank entry + Z.of_nat (List.length others)) Hrun)
    as (e & He & Hrank); [cbn [List.length]; lia|].
  rewrite app_comm_cons in Hs.
  destruct (StronglySorted_app_inv _ _ _ Hs) as [_ Hab].
  specialize (Hab e (fst g) He Hfirst). unfold rank_lt in Hab. lia.
Qed.

Lemma filter_all_true {A : Type} (p : A -> bool) (l : list A) :
  (forall x, In x l -> p x = true) -> filter p l = l.
Proof.
  induction l as [|x l IH]; intros H; [reflexivity|].
  cbn [filter]. rewrite (H x (or_introl eq_refl)), IH; [reflexivity|].
  intros y Hy. apply H. now right.
Qed.

Lemma filter_all_false {A : Type} (p : A -> bool) (l : list A) :
  (forall x, In x l -> p x = false) -> filter p l = [].
Proof.
  induction l as [|x l IH]; intros H; [reflexivity|].
  cbn [filter]. rewrite (H x (or_introl eq_refl)), IH; [reflexivity|].
  intros y Hy. apply H. now right.
Qed.

(** A sorted log is its first run, whose ranks fill the interval from the
    first rank on, followed by a log of higher ranks that holds the other
    runs. *)
Lemma first_run_split (entry : DbChatHistory) (log : list DbChatHistory)
      (others : list DbChatHistory)
      (runs : list (DbChatHistory * list DbChatHistory)) :
  StronglySorted rank_lt (entry :: log) ->
  groupRuns (entry :: log) = (entry, others) :: runs ->
  exists post,
    log = others ++ post
    /\ groupRuns post = runs
    /\ (forall x, In x (entry :: others) ->
                  chat_rank entry <= chat_rank x
                  <= chat_rank entry + Z.of_nat (List.length others))
    /\ (forall y, In y post ->
                  chat_rank entry + Z.of_nat (List.length others)
                  < chat_rank y).
Proof.
  intros Hs Hg.
  destruct (groupRuns_first_split log entry others runs Hg)
    as (post & Hlog & Hpost).
  exists post. split; [assumption|]. split; [assumption|].
  pose proof (groupRuns_consecutive (entry :: log)) as Hc.
  rewrite Hg in Hc. apply Forall_inv in Hc. cbn [fst snd] in Hc.
  split.
  - intros x Hx. pose proof (consecutiveFrom_bounds _ _ _ Hc Hx) as Hb.
    cbn [List.length] in Hb. lia.
  - intros y Hy.
    destruct (consecutiveFrom_covers (entry :: others) (chat_rank entry)
                (chat_rank entry + Z.of_nat (List.length others)) Hc)
      as (e & He & Hrank); [cbn [List.length]; lia|].
    rewrite Hlog, app_comm_cons in Hs.
    destruct (StronglySorted_app_inv _ _ _ Hs) as [_ Hab].
    specialize (Hab e y He Hy). unfold rank_lt in Hab. lia.
Qed.

Lemma groupRuns_tail_sub (entry : DbChatHistory) (log : list DbChatHistory)
      (others : list DbChatHistory)
      (runs : list (DbChatHistory * list DbChatHistory)) :
  groupRuns (entry :: log) = (entry, others) :: runs ->
  forall g, In g runs -> In g (groupRuns log).
Proof.
  cbn [groupRuns]. destruct (groupRuns log) as [|[n o] rs].
  - intros [= _ <-] g [].
  - destruct (chat_rank n =? chat_rank entry + 1);
      intros [= _ <-] g Hg; [now right | assumption].
Qed.

(** Removing the rows of one run from a sorted log removes that run from
    its runs and leaves the other runs as they are: the gap that is left
    never joins two runs. *)
Lemma groupRuns_delete_run (log : list DbChatHistory) :
  StronglySorted rank_lt log ->
  forall g,
    In g (groupRuns log) ->
    groupRuns
      (filter (fun r =>
                 negb (in_range (chat_rank (fst g))
                         (chat_rank (fst g) + Z.of_nat (List.length (snd g)))
                         r)) log)
    = filter (fun g' => negb (chat_rank (fst g') =? chat_rank (fst g)))
             (groupRuns log).
Proof.
  induction 1 as [|e L Hs IH Hlt]; intros g Hg; [destruct Hg|].
  destruct (groupRuns_cons e L) as (others & runs & Hgr).
  pose proof (SSorted_cons e Hs Hlt) as HsL.
  destruct (first_run_split e L others runs HsL Hgr)
    as (post & HL & Hpost & Hin_run & Habove).
  rewrite Hgr in Hg. destruct Hg as [<-|Hg].
  - (* the run that goes is the first one *)
    cbn [fst snd]. rewrite Hgr. transitivity runs.
    + replace (e :: L) with ((e :: others) ++ post)
        by (rewrite HL; reflexivity).
      rewrite filter_app.
      rewrite (filter_all_false _ (e :: others)).
      2:{ intros x Hx. apply negb_false_iff. unfold in_range.
          specialize (Hin_run x Hx).
          apply andb_true_iff. rewrite !Z.leb_le. lia. }
      rewrite (filter_all_true _ post); [exact Hpost|].
      intros y Hy. apply negb_true_iff. unfold in_range.
      specialize (Habove y Hy).
      apply andb_false_iff. right. apply Z.leb_gt. lia.
    + cbn [filter fst]. rewrite Z.eqb_refl. cbn [negb].
      symmetry. apply filter_all_true.
      intros g' Hg'. apply negb_true_iff, Z.eqb_neq.
      assert (In (fst g') post)
        by (apply groupRuns_first_In; now rewrite Hpost).
      specialize (Habove _ H). lia.
  - (* the run that goes is a later one *)
    assert (Hs_g : chat_rank e + Z.of_nat (List.length others)
                   < chat_rank (fst g)).
    { apply Habove, groupRuns_first_In. now rewrite Hpost. }
    pose proof (groupRuns_tail_sub e L others runs Hgr g Hg) as HgL.
    specialize (IH g HgL).
    cbn [filter]. unfold in_range at 1.
    assert (He_out : (chat_rank (fst g) <=? chat_rank e) = false)
      by (apply Z.leb_gt; lia).
    rewrite He_out. cbn [andb negb].
    rewrite groupRuns_attach, IH, groupRuns_attach.
    destruct L as [|n L']; [destruct HgL|].
    destruct (groupRuns_cons n L') as (o & rs & HgrL).
    rewrite HgrL in *. unfold attach at 2. cbn [fst snd app].
    assert (Hn_above : chat_rank e < chat_rank n)
      by (rewrite Forall_forall in Hlt; apply (Hlt n); now left).
    destruct (chat_rank n =? chat_rank (fst g)) eqn:Hng.
    + (* it is the run that follows the first entry *)
      apply Z.eqb_eq in Hng.
      assert (Hstep : (chat_rank n =? chat_rank e + 1) = false).
      { apply Z.eqb_neq. intros Hstep.
        rewrite groupRuns_attach, HgrL in Hgr. unfold attach in Hgr.
        apply Z.eqb_eq in Hstep. rewrite Hstep in Hgr.
        injection Hgr as <- <-. cbn [List.length] in Hs_g. lia. }
      rewrite Hstep. cbn [filter fst]. rewrite Hng, Z.eqb_refl.
      assert (He_keep : (chat_rank e =? chat_rank n) = false)
        by (apply Z.eqb_neq; lia).
      rewrite <- Hng, He_keep. cbn [negb].
      destruct (first_run_split n L' o rs Hs HgrL)
        as (post' & _ & Hpost' & _ & Habove').
      assert (Hrs : forall g', In g' rs -> chat_rank n < chat_rank (fst g')).
      { intros g' Hg'.
        assert (In (fst g') post')
          by (apply groupRuns_first_In; now rewrite Hpost').
        specialize (Habove' _ H). lia. }
      rewrite (filter_all_true _ rs).
      2:{ intros g' Hg'. apply negb_true_iff, Z.eqb_neq.
          specialize (Hrs g' Hg'). lia. }
      unfold attach. destruct rs as [|[n2 o2] rs2]; [reflexivity|].
      assert ((chat_rank n2 =? chat_rank e + 1) = false) as ->.
      { apply Z.eqb_neq. specialize (Hrs (n2, o2) (or_introl eq_refl)).
        cbn [fst] in Hrs. lia. }
      reflexivity.
    + (* the run that follows the first entry stays *)
      cbn [filter fst]. rewrite Hng. cbn [negb]. unfold attach at 1.
      cbn [fst snd app].
      assert (He_keep : (chat_rank e =? chat_rank (fst g)) = false)
        by (apply Z.eqb_neq; lia).
      destruct (chat_rank n =? chat_rank e + 1);
        cbn [filter fst]; rewrite ?He_keep, ?Hng; reflexivity.
Qed.

Lemma deleteConversation_faultFree (userId : string) (db : Backend)
      (g : DbChatHistory * list DbChatHistory) :
  singleUser userId (chat_history db) ->
  uniqueRanks (chat_history db) ->
  faultFree db ->
  In g (groupRuns (historyOf userId db)) ->
  deleteConversation ("conv_" ++ Js.toString (chat_rank (fst g)))%string db
  = (true,
     mkBackend (users db)
       (filter (fun r =>
                  negb (in_range (chat_rank (fst g))
                          (chat_rank (fst g) + Z.of_nat (List.length (snd g)))
                          r)) (chat_history db))
       []
       (journal db
          ++ [SelectRanksFrom (chat_rank (fst g));
              DeleteRange (chat_rank (fst g))
                (chat_rank (fst g) + Z.of_nat (List.length (snd g)))])).
Proof.
  intros Hu Hnd Hf Hg.
  pose proof (singleUser_ranks _ _ Hu Hnd) as Hranks.
  unfold historyOf in Hg. rewrite (singleUser_filter _ _ Hu) in Hg.
  unfold deleteConversation. rewrite parseConversationId_conv.
  unfold select_ranks_from, receive. unfold faultFree in Hf. rewrite Hf.
  rewrite (order_by_rank_filter _ _ Hranks).
  pose proof (findEndRank_run _ (order_by_rank_sorted _ Hranks) g Hg) as Hend.
  destruct (run_suffix _ (order_by_rank_sorted _ Hranks) g Hg)
    as (log' & runs & Hsuf & _).
  rewrite Hsuf in *. cbn [map] in *. rewrite Hend.
  unfold delete_range, receive, with_rows. cbn. now rewrite <- app_assoc.
Qed.

Lemma conv_token_eqb (n m : Z) :
  String.eqb ("conv_" ++ Js.toString n)%string ("conv_" ++ Js.toString m)%string
  = (n =? m).
Proof.
  destruct (Z.eqb_spec n m) as [->|Hne].
  - apply String.eqb_refl.
  - apply String.eqb_neq. intros E. now apply conv_token_inj in E.
Qed.

Lemma filter_map_conv (p : Conversation -> bool)
      (runs : list (DbChatHistory * list DbChatHistory)) :
  filter p (map (conversationOf env) runs)
  = map (conversationOf env) (filter (fun g => p (conversationOf env g)) runs).
Proof.
  induction runs as [|g runs IH]; [reflexivity|].
  cbn [map filter]. destruct (p (conversationOf env g)); cbn [map];
    now rewrite IH.
Qed.

End DeleteAndFetch.

(** X9. Deleting a conversation leaves the others as they are. On a
    table that holds one user's rows only, with the backend free of
    failures, [deleteConversation] called with the id of a conversation of
    the list succeeds, and the list read afterwards is the list read
    before with that one conversation taken out, which is what the updater
    of [handleDeleteConversation] computes locally: ids, start ranks and
    messages of the other conversations do not change and no two of them
    are joined by the gap. *)
Theorem deleteConversation_then_fetch (env : Env) (userId : string)
        (db : Backend) (c : Conversation) :
  singleUser userId (chat_history db) ->
  uniqueRanks (chat_history db) ->
  faultFree db ->
  In c (fst (fetchConversations env userId db)) ->
  fst (deleteConversation (id c) db) = true
  /\ fst (fetchConversations env userId (snd (deleteConversation (id c) db)))
     = removeConversation (id c) (fst (fetchConversations env userId db)).
Proof.
  intros Hu Hnd Hf Hc.
  pose proof (singleUser_ranks _ _ Hu Hnd) as Hranks.
  rewrite (fetchConversations_faultFree env userId db Hf) in Hc |- *.
  apply in_rev, in_map_iff in Hc as (g & <- & Hg).
  cbn [conversationOf id].
  rewrite (deleteConversation_faultFree userId db g Hu Hnd Hf Hg).
  split; [reflexivity|]. cbn [fst snd].
  rewrite fetchConversations_faultFree by reflexivity.
  unfold historyOf in *. cbn [chat_history].
  rewrite (singleUser_filter _ _ Hu) in *.
  rewrite singleUser_filter.
  2:{ unfold singleUser in *. rewrite Forall_forall in *.
      intros r Hr. apply filter_In in Hr as [Hr _]. auto. }
  rewrite (order_by_rank_filter _ _ Hranks).
  rewrite (groupRuns_delete_run _ (order_by_rank_sorted _ Hranks) g Hg).
  unfold removeConversation.
  rewrite filter_rev, filter_map_conv.
  do 2 f_equal. apply filter_ext. intros g'.
  cbn [conversationOf id]. now rewrite conv_token_eqb.
Qed.

Lemma deleteConversation_then_fetch_witness :
  fst (deleteConversation
         (id (conversationOf sampleEnv
                (sampleRow "ann@example.com" 1,
                 map (sampleRow "ann@example.com") [2; 3])))
         (sampleDb sampleLog [])) = true
  /\ fst (fetchConversations sampleEnv "ann@example.com"
            (snd (deleteConversation
                    (id (conversationOf sampleEnv
                           (sampleRow "ann@example.com" 1,
                            map (sampleRow "ann@example.com") [2; 3])))
                    (sampleDb sampleLog []))))
     = removeConversation
         (id (conversationOf sampleEnv
                (sampleRow "ann@example.com" 1,
                 map (sampleRow "ann@example.com") [2; 3])))
         (fst (fetchConversations sampleEnv "ann@example.com"
                 (sampleDb sampleLog []))).
Proof.
  apply deleteConversation_then_fetch.
  - unfold singleUser. repeat constructor.
  - unfold uniqueRanks. vm_compute.
    repeat (constructor; [simpl; intuition discriminate|]). constructor.
  - reflexivity.
  - vm_compute. right. left. reflexivity.
Defined.

(* ================================================================== *)
(** * Edge behaviour of the range deleter and of the single read *)
(* ================================================================== *)

Section Tokens2.
Import Js.

Lemma noDigits_drop (n : nat) (s : string) :
  noDigits s = true -> noDigits (drop n s) = true.
Proof.
  revert s. induction n as [|n IH]; intros s Hs; [assumption|].
  destruct s as [|c s]; [reflexivity|].
  cbn in Hs. apply andb_true_iff in Hs as [_ Hs]. cbn. now apply IH.
Qed.

Lemma noDigits_replace (pat s : string) :
  noDigits s = true -> noDigits (replace pat "" s) = true.
Proof.
  induction s as [|c s IH]; intros Hs.
  - cbn [replace]. destruct (prefix pat ""); [|reflexivity].
    cbn. now apply noDigits_drop.
  - cbn [replace]. destruct (prefix pat (String c s)).
    + cbn [append]. now apply noDigits_drop.
    + cbn in Hs |- *. apply andb_true_iff in Hs as [-> Hs]. now apply IH.
Qed.

Lemma noDigits_skip_spaces (s : string) :
  noDigits s = true -> noDigits (skip_spaces s) = true.
Proof.
  induction s as [|c s IH]; intros Hs; [reflexivity|].
  cbn [skip_spaces]. destruct (is_space c); [|assumption].
  cbn in Hs. apply andb_true_iff in Hs as [_ Hs]. now apply IH.
Qed.

Lemma digit_prefix_noDigits (s : string) :
  noDigits s = true -> digit_prefix s = EmptyString.
Proof.
  destruct s as [|c s]; [reflexivity|]. cbn. intros H.
  apply andb_true_iff in H as [Hc _]. apply negb_true_iff in Hc.
  now rewrite Hc.
Qed.

(** [parseInt] of a string without a digit is NaN. *)
Lemma parseInt_noDigits (s : string) :
  noDigits s = true -> parseInt s = None.
Proof.
  intros Hs. apply noDigits_skip_spaces in Hs. unfold parseInt.
  destruct (skip_spaces s) as [|c t]; [reflexivity|].
  assert (Ht : noDigits t = true)
    by (cbn in Hs; now apply andb_true_iff in Hs as [_ Hs]).
  pose proof (digit_prefix_noDigits _ Hs) as Hd.
  pose proof (digit_prefix_noDigits _ Ht) as Hd'.
  destruct c as [[] [] [] [] [] [] [] []];
    rewrite ?Hd, ?Hd'; reflexivity.
Qed.

Lemma parseConversationId_noDigits (conversationId : string) :
  noDigits conversationId = true ->
  parseConversationId conversationId = None.
Proof.
  intros H. unfold parseConversationId.
  now apply parseInt_noDigits, noDigits_replace, noDigits_replace.
Qed.

End Tokens2.

(** X10. A token without any decimal digit is rejected before the
    backend is called: [deleteConversation] returns [false] and
    [getConversationMessages] returns no message, and neither sends a
    request nor changes anything. *)
Theorem token_without_digit_rejected (env : Env) (conversationId : string)
        (db : Backend) :
  noDigits conversationId = true ->
  deleteConversation conversationId db = (false, db)
  /\ getConversationMessages env conversationId db = ([], db).
Proof.
  intros H. unfold deleteConversation, getConversationMessages.
  rewrite (parseConversationId_noDigits _ H). split; reflexivity.
Qed.

Lemma token_without_digit_rejected_witness :
  deleteConversation "conv_latest" twoUsersDb = (false, twoUsersDb)
  /\ getConversationMessages sampleEnv "conv_latest" twoUsersDb
     = ([], twoUsersDb).
Proof.
  apply token_without_digit_rejected. reflexivity.
Defined.

Section DeleteFrame.

Lemma findEndRank_absent (entries : list Z) (endRank : Z) :
  ~ In endRank entries -> findEndRank entries endRank = endRank.
Proof.
  induction entries as [|r rest IH]; intros Hn; [reflexivity|].
  cbn [findEndRank]. destruct (Z.eqb_spec r endRank) as [->|_].
  - exfalso. apply Hn. now left.
  - apply IH. intros H. apply Hn. now right.
Qed.

(** The end of the range is never below its start. *)
Lemma findEndRank_ge (entries : list Z) :
  forall endRank, endRank <= findEndRank entries endRank.
Proof.
  induction entries as [|r rest IH]; intros endRank; [cbn; lia|].
  cbn [findEndRank]. destruct (r =? endRank).
  - destruct rest as [|r' rest']; [lia|].
    destruct (r' =? endRank + 1); [|lia].
    specialize (IH (endRank + 1)). lia.
  - apply IH.
Qed.

Lemma filter_true_id {A : Type} (l : list A) : filter (fun _ => true) l = l.
Proof. induction l as [|x l IH]; cbn; [reflexivity | now rewrite IH]. Qed.

End DeleteFrame.

(** X11. The frame of [deleteConversation], on any table and under any
    failures: the [users] table is not touched, no row is added or
    changed, and a row is removed only when the call returns [true] and
    the rank of the row is at least the start rank named by the token;
    when the call returns [false] the table is as it was. *)
Theorem deleteConversation_frame (conversationId : string) (db : Backend) :
  users (snd (deleteConversation conversationId db)) = users db
  /\ (fst (deleteConversation conversationId db) = false ->
      chat_history (snd (deleteConversation conversationId db))
      = chat_history db)
  /\ exists keep,
      chat_history (snd (deleteConversation conversationId db))
      = filter keep (chat_history db)
      /\ forall r,
          keep r = false ->
          fst (deleteConversation conversationId db) = true
          /\ exists startRank,
              parseConversationId conversationId = Some startRank
              /\ startRank <= chat_rank r.
Proof.
  unfold deleteConversation.
  destruct (parseConversationId conversationId) as [startRank|];
    [|split; [reflexivity|]; split; [reflexivity|];
      exists (fun _ => true); split;
      [symmetry; apply filter_true_id | discriminate]].
  unfold select_ranks_from, receive.
  destruct (faults db) as [|f1 fs].
  - destruct (map chat_rank _) as [|r0 ranks] eqn:Er;
      [split; [reflexivity|]; split; [reflexivity|];
       exists (fun _ => true); split;
       [symmetry; apply filter_true_id | discriminate]|].
    unfold delete_range, receive, with_rows. cbn.
    split; [reflexivity|]. split; [discriminate|].
    eexists. split; [reflexivity|].
    intros r Hr. split; [reflexivity|]. exists startRank.
    split; [reflexivity|].
    apply negb_false_iff in Hr. unfold in_range in Hr.
    apply andb_true_iff in Hr as [Hr _]. now apply Z.leb_le in Hr.
  - destruct f1;
      [split; [reflexivity|]; split; [reflexivity|];
       exists (fun _ => true); split;
       [symmetry; apply filter_true_id | discriminate]|].
    destruct (map chat_rank _) as [|r0 ranks] eqn:Er;
      [split; [reflexivity|]; split; [reflexivity|];
       exists (fun _ => true); split;
       [symmetry; apply filter_true_id | discriminate]|].
    unfold delete_range, receive, with_rows. cbn [faults].
    destruct fs as [|[|] fs]; cbn;
      (split; [reflexivity|]);
      (split; [first [discriminate | reflexivity]|]).
    + eexists. split; [reflexivity|].
      intros r Hr. split; [reflexivity|]. exists startRank.
      split; [reflexivity|].
      apply negb_false_iff in Hr. unfold in_range in Hr.
      apply andb_true_iff in Hr as [Hr _]. now apply Z.leb_le in Hr.
    + exists (fun _ => true). split;
        [symmetry; apply filter_true_id | discriminate].
    + eexists. split; [reflexivity|].
      intros r Hr. split; [reflexivity|]. exists startRank.
      split; [reflexivity|].
      apply negb_false_iff in Hr. unfold in_range in Hr.
      apply andb_true_iff in Hr as [Hr _]. now apply Z.leb_le in Hr.
Qed.

Section AbsentRank.

Lemma continuousEntries_absent (entries : list DbChatHistory) (r : Z) :
  (forall e, In e entries -> chat_rank e <> r) ->
  continuousEntries entries r = [].
Proof.
  destruct entries as [|e rest]; [reflexivity|]. intros H.
  cbn [continuousEntries].
  destruct (Z.eqb_spec (chat_rank e) r) as [E|_]; [|reflexivity].
  exfalso. apply (H e); [now left | assumption].
Qed.

Lemma select_from_In (startRank : Z) (db : Backend)
      (entries : list DbChatHistory) :
  fst (select_from startRank db) = Ok entries ->
  forall e, In e entries -> In e (chat_history db).
Proof.
  unfold select_from, receive.
  destruct (faults db) as [|[|] fs]; cbn [fst]; try discriminate;
    intros [= <-] e He; apply order_by_rank_In, filter_In in He; tauto.
Qed.

End AbsentRank.

(** X12. A token that names a rank no row has. On any table,
    [deleteConversation] then removes nothing and
    [getConversationMessages] returns no message; yet, when its two calls
    go through and some row has a higher rank, [deleteConversation]
    reports success. *)
Theorem absent_start_rank (env : Env) (conversationId : string)
        (startRank : Z) (db : Backend) :
  parseConversationId conversationId = Some startRank ->
  (forall r, In r (chat_history db) -> chat_rank r <> startRank) ->
  chat_history (snd (deleteConversation conversationId db)) = chat_history db
  /\ fst (getConversationMessages env conversationId db) = []
  /\ (reachableTwice db ->
      (exists r, In r (chat_history db) /\ startRank < chat_rank r) ->
      fst (deleteConversation conversationId db) = true).
Proof.
  intros Hparse Habsent.
  assert (Hno : forall rows,
             (forall r, In r rows -> In r (chat_history db)) ->
             ~ In startRank (map chat_rank rows)).
  { intros rows Hsub Hin. apply in_map_iff in Hin as (r & Hr & Hin).
    exact (Habsent r (Hsub r Hin) Hr). }
  assert (Hsub : forall r,
             In r (order_by_rank
                     (filter (gte_rank startRank) (chat_history db))) ->
             In r (chat_history db)).
  { intros r Hr. apply order_by_rank_In, filter_In in Hr. tauto. }
  assert (Hkeep : filter (fun r => negb (in_range startRank startRank r))
                         (chat_history db) = chat_history db).
  { apply filter_all_true. intros r Hr. apply negb_true_iff.
    unfold in_range. specialize (Habsent r Hr).
    destruct (Z.leb_spec startRank (chat_rank r));
      destruct (Z.leb_spec (chat_rank r) startRank); cbn; try reflexivity.
    lia. }
  split; [|split].
  - unfold deleteConversation. rewrite Hparse.
    unfold select_ranks_from, receive.
    destruct (faults db) as [|[|] fs]; cbn [fst snd]; try reflexivity;
      destruct (map chat_rank _) as [|r0 ranks] eqn:Er;
      try reflexivity;
      rewrite <- Er, (findEndRank_absent _ _ (Hno _ Hsub));
      unfold delete_range, receive, with_rows; cbn [faults];
      try (destruct fs as [|[|] fs]); cbn; try reflexivity; exact Hkeep.
  - unfold getConversationMessages. rewrite Hparse.
    destruct (select_from startRank db) as [[entries|e] db1] eqn:Esel;
      [|reflexivity].
    destruct entries as [|e0 entries]; [reflexivity|]. cbn [fst].
    rewrite continuousEntries_absent; [reflexivity|].
    intros e He. apply Habsent.
    apply (select_from_In startRank db (e0 :: entries));
      [now rewrite Esel | assumption].
  - intros [H1 H2] (r & Hr & Hgt).
    unfold deleteConversation. rewrite Hparse.
    unfold select_ranks_from. rewrite (receive_reachable _ _ H1).
    destruct (map chat_rank _) as [|r0 ranks] eqn:Er.
    + exfalso. apply map_eq_nil in Er.
      assert (Hin : In r (order_by_rank
                            (filter (gte_rank startRank) (chat_history db)))).
      { apply order_by_rank_In, filter_In. split; [assumption|].
        unfold gte_rank. apply Z.leb_le. lia. }
      rewrite Er in Hin. destruct Hin.
    + unfold delete_range. rewrite receive_reachable by exact H2.
      reflexivity.
Qed.

Lemma absent_start_rank_witness :
  chat_history (snd (deleteConversation "conv_3" mixedDb))
  = chat_history mixedDb
  /\ fst (getConversationMessages sampleEnv "conv_3" mixedDb) = []
  /\ (reachableTwice mixedDb ->
      (exists r, In r (chat_history mixedDb) /\ 3 < chat_rank r) ->
      fst (deleteConversation "conv_3" mixedDb) = true).
Proof.
  apply (absent_start_rank sampleEnv "conv_3" 3 mixedDb).
  - reflexivity.
  - intros r [<-|[<-|[<-|[<-|[]]]]]; discriminate.
Defined.

(* ================================================================== *)
(** * Chains of appends *)
(* ================================================================== *)

Section Chains.

Variable env : Env.

Lemma idsOwned_snoc (userId : string) (rows : list DbChatHistory)
      (row : DbChatHistory) :
  idsOwned userId rows ->
  (forall k, chat_id row = chatId userId k ->
             user_id row = userId /\ chat_rank row = k) ->
  idsOwned userId (rows ++ [row]).
Proof.
  intros Hrows Hrow r k Hr E. apply in_app_or in Hr as [Hr|[<-|[]]].
  - now apply (Hrows r k).
  - now apply Hrow.
Qed.

Lemma get_next_chat_rank_snoc (userId : string) (rows : list DbChatHistory)
      (row : DbChatHistory) :
  user_id row = userId ->
  chat_rank row = get_next_chat_rank userId rows ->
  get_next_chat_rank userId (rows ++ [row]) = chat_rank row + 1.
Proof.
  intros Hu Hn.
  destruct (get_next_chat_rank_above userId rows) as [Habove _].
  destruct (get_next_chat_rank_above userId (rows ++ [row]))
    as [Habove' [[Hnil _] | (r & Hr & Hur & Hrank)]].
  - exfalso. rewrite filter_eq_user_snoc in Hnil by assumption.
    now destruct (filter (eq_user userId) rows).
  - assert (Hrow : chat_rank row < get_next_chat_rank userId (rows ++ [row])).
    { apply Habove'; [|assumption]. apply in_or_app. right. now left. }
    apply in_app_or in Hr as [Hr|[<-|[]]]; [|lia].
    specialize (Habove r Hr Hur). lia.
Qed.

(** One successful append, as the next steps of a chain need it. *)
Lemma createChatEntry_step (userId userRequest aiResponse : string)
      (st : Session) (db : Backend) :
  faultFree db ->
  known_user userId db = true ->
  idsOwned userId (chat_history db) ->
  let n := get_next_chat_rank userId (chat_history db) in
  let db' := snd (createChatEntry env alone userId userRequest aiResponse
                    st db) in
  chat_history db'
  = chat_history db ++ [exchangeRow env userId n (userRequest, aiResponse)]
  /\ faultFree db'
  /\ known_user userId db' = true
  /\ idsOwned userId (chat_history db')
  /\ get_next_chat_rank userId (chat_history db') = n + 1.
Proof.
  intros Hf Hknown Hown n db'. subst db'.
  assert (Hup : reachableTwice db)
    by (unfold reachableTwice; unfold faultFree in Hf; rewrite Hf; now split).
  destruct (createChatEntry_alone env userId userRequest aiResponse st db Hup)
    as (_ & Hrows & Husers & Hfaults & _).
  destruct (get_next_chat_rank_above userId (chat_history db)) as [Habove _].
  rewrite Hknown, (key_free_above userId _ _ _ _ _ _ Hown Habove) in Hrows.
  cbn [negb] in Hrows. fold n in Hrows.
  change (mkRow (chatId userId n) userId userRequest aiResponse n
                (isoNow env) (isoNow env))
    with (exchangeRow env userId n (userRequest, aiResponse)) in Hrows.
  split; [assumption|].
  split; [unfold faultFree in *; rewrite Hfaults, Hf; reflexivity|].
  split; [unfold known_user in *; now rewrite Husers|].
  rewrite Hrows. split.
  - apply idsOwned_snoc; [assumption|].
    now apply derived_row_owned.
  - now rewrite get_next_chat_rank_snoc.
Qed.

(** A chain of appends stores the rows of its exchanges, in order, at
    the ranks that follow the user's history. *)
Lemma appendExchanges_rows (userId : string)
      (exchanges : list (string * string)) :
  forall (st : Session) (db : Backend),
    faultFree db ->
    known_user userId db = true ->
    idsOwned userId (chat_history db) ->
    chat_history (snd (appendExchanges env userId exchanges st db))
    = chat_history db
        ++ exchangeRows env userId
             (get_next_chat_rank userId (chat_history db)) exchanges
    /\ faultFree (snd (appendExchanges env userId exchanges st db)).
Proof.
  induction exchanges as [|[q a] rest IH]; intros st db Hf Hknown Hown.
  - cbn. now rewrite app_nil_r.
  - cbn [appendExchanges exchangeRows].
    destruct (createChatEntry_step userId q a st db Hf Hknown Hown)
      as (Hrows & Hf' & Hknown' & Hown' & Hnext).
    destruct (createChatEntry env alone userId q a st db) as [[res st'] db'].
    cbn [snd] in *.
    destruct (IH st' db' Hf' Hknown' Hown') as [Hrest Hff].
    split; [|assumption].
    rewrite Hrest, Hnext, Hrows, <- app_assoc. reflexivity.
Qed.

Lemma exchangeRows_consecutive (userId : string)
      (exchanges : list (string * string)) :
  forall n, consecutiveFrom n (exchangeRows env userId n exchanges).
Proof.
  induction exchanges as [|x rest IH]; intros n; cbn; auto.
Qed.

Lemma exchangeRows_user (userId : string)
      (exchanges : list (string * string)) :
  forall n, Forall (fun r => user_id r = userId)
                   (exchangeRows env userId n exchanges).
Proof.
  induction exchanges as [|x rest IH]; intros n; cbn; constructor;
    [reflexivity | apply IH].
Qed.

(** A list of consecutive ranks is already in rank order, and is one
    run. *)
Lemma consecutive_sorted (entries : list DbChatHistory) :
  forall r, consecutiveFrom r entries ->
            StronglySorted rank_lt entries
            /\ Forall (fun e => r <= chat_rank e) entries.
Proof.
  induction entries as [|e rest IH]; intros r Hc;
    [split; constructor|].
  destruct Hc as [He Hc]. destruct (IH (r + 1) Hc) as [Hs Hall].
  split.
  - constructor; [assumption|].
    eapply Forall_impl; [|exact Hall]. intros x Hx. cbn in Hx.
    unfold rank_lt. lia.
  - constructor; [lia|].
    eapply Forall_impl; [|exact Hall]. intros x Hx. cbn in Hx. lia.
Qed.

Lemma order_by_rank_sorted_id (entries : list DbChatHistory) :
  StronglySorted rank_lt entries -> order_by_rank entries = entries.
Proof.
  induction 1 as [|e rest Hs IH Hlt]; [reflexivity|].
  cbn [order_by_rank]. rewrite IH. apply insert_by_rank_least.
  eapply Forall_impl; [|exact Hlt]. intros x Hx. unfold rank_lt in Hx. lia.
Qed.

Lemma groupRuns_consecutive_one (entries : list DbChatHistory) :
  forall first, consecutiveFrom (chat_rank first) (first :: entries) ->
                groupRuns (first :: entries) = [(first, entries)].
Proof.
  induction entries as [|e rest IH]; intros first Hc; [reflexivity|].
  destruct Hc as [_ [He Hc]].
  change (groupRuns (first :: e :: rest))
    with (match groupRuns (e :: rest) with
          | (n, o) :: rs =>
              if chat_rank n =? chat_rank first + 1
              then (first, n :: o) :: rs
              else (first, []) :: (n, o) :: rs
          | [] => [(first, [])]
          end).
  rewrite (IH e); [|split; [reflexivity | now rewrite He]].
  apply Z.eqb_eq in He. now rewrite He.
Qed.

Lemma insert_by_rank_app (a : DbChatHistory) (l later : list DbChatHistory) :
  Forall (fun b => chat_rank a <= chat_rank b) later ->
  insert_by_rank a (l ++ later) = insert_by_rank a l ++ later.
Proof.
  intros Hlater. induction l as [|y l IH]; cbn [app insert_by_rank].
  - now apply insert_by_rank_least.
  - destruct (chat_rank a <=? chat_rank y); [reflexivity|]. now rewrite IH.
Qed.

(** Rows in rank order and above all the others sort last, as they are. *)
Lemma order_by_rank_app (l later : list DbChatHistory) :
  StronglySorted rank_lt later ->
  (forall a b, In a l -> In b later -> chat_rank a < chat_rank b) ->
  order_by_rank (l ++ later) = order_by_rank l ++ later.
Proof.
  intros Hs. induction l as [|a l IH]; intros Hlt.
  - now apply order_by_rank_sorted_id.
  - cbn [app order_by_rank].
    rewrite IH by (intros x b Hx Hb; apply Hlt; [now right | assumption]).
    apply insert_by_rank_app. rewrite Forall_forall. intros b Hb.
    specialize (Hlt a b (or_introl eq_refl) Hb). lia.
Qed.

Lemma filter_eq_user_app (userId : string) (rows added : list DbChatHistory) :
  Forall (fun r => user_id r = userId) added ->
  filter (eq_user userId) (rows ++ added)
  = filter (eq_user userId) rows ++ added.
Proof.
  intros Hadd. rewrite filter_app. f_equal.
  apply filter_all_true. rewrite Forall_forall in Hadd.
  intros r Hr. unfold eq_user. rewrite (Hadd r Hr). apply String.eqb_refl.
Qed.

(** The history of the user after a chain of appends. *)
Lemma appendExchanges_history (userId : string)
      (exchanges : list (string * string)) (st : Session) (db : Backend) :
  faultFree db ->
  known_user userId db = true ->
  idsOwned userId (chat_history db) ->
  historyOf userId (snd (appendExchanges env userId exchanges st db))
  = historyOf userId db
      ++ exchangeRows env userId
           (get_next_chat_rank userId (chat_history db)) exchanges.
Proof.
  intros Hf Hknown Hown.
  destruct (appendExchanges_rows userId exchanges st db Hf Hknown Hown)
    as [Hrows _].
  unfold historyOf. rewrite Hrows.
  rewrite filter_eq_user_app by apply exchangeRows_user.
  set (n := get_next_chat_rank userId (chat_history db)).
  destruct (consecutive_sorted _ n (exchangeRows_consecutive userId exchanges n))
    as [Hs Hge].
  apply order_by_rank_app; [assumption|].
  intros a b Ha Hb. apply filter_In in Ha as [Ha Hu].
  unfold eq_user in Hu. apply String.eqb_eq in Hu.
  destruct (get_next_chat_rank_above userId (chat_history db)) as [Habove _].
  specialize (Habove a Ha Hu). fold n in Habove.
  rewrite Forall_forall in Hge. specialize (Hge b Hb). lia.
Qed.

Lemma exchangeRows_texts (userId : string)
      (exchanges : list (string * string)) :
  forall n,
    map (fun r => (user_request r, ai_response r))
        (exchangeRows env userId n exchanges) = exchanges.
Proof.
  induction exchanges as [|[q a] rest IH]; intros n; cbn; [reflexivity|].
  now rewrite IH.
Qed.

Lemma exchangeRows_ranks (userId : string)
      (exchanges : list (string * string)) :
  forall n,
    map chat_rank (exchangeRows env userId n exchanges)
    = map (fun i => n + Z.of_nat i) (seq 0 (List.length exchanges)).
Proof.
  induction exchanges as [|x rest IH]; intros n; [reflexivity|].
  cbn [exchangeRows map List.length seq exchangeRow chat_rank].
  rewrite IH, <- seq_shift, map_map. f_equal; [lia|].
  apply map_ext. intros i. lia.
Qed.

(** The loop of [saveCurrentSession] on a well-formed session stores the
    rows of its exchanges. *)
Lemma savePairs_session (userId ids time : string)
      (exchanges : list (string * string)) :
  forall (db : Backend),
    faultFree db ->
    known_user userId db = true ->
    idsOwned userId (chat_history db) ->
    fst (savePairs env userId (sessionMessages ids time exchanges)
           (get_next_chat_rank userId (chat_history db)) db) = true
    /\ chat_history
         (snd (savePairs env userId (sessionMessages ids time exchanges)
                 (get_next_chat_rank userId (chat_history db)) db))
       = chat_history db
           ++ exchangeRows env userId
                (get_next_chat_rank userId (chat_history db)) exchanges.
Proof.
  induction exchanges as [|[q a] rest IH]; intros db Hf Hknown Hown.
  - cbn. now rewrite app_nil_r.
  - cbn [sessionMessages flat_map app fst snd savePairs isRole role andb
         content exchangeRows].
    fold (sessionMessages ids time rest).
    set (n := get_next_chat_rank userId (chat_history db)).
    assert (Hr : reachable db)
      by (unfold reachable; unfold faultFree in Hf; now rewrite Hf).
    rewrite insert_reachable by exact Hr.
    destruct (get_next_chat_rank_above userId (chat_history db)) as [Habove _].
    rewrite (key_free_above userId _ _ _ _ _ _ Hown Habove).
    cbn [user_id]. rewrite Hknown. cbn [negb].
    set (db' := mkBackend _ _ _ _).
    assert (Hnext : get_next_chat_rank userId (chat_history db') = n + 1).
    { unfold db'. cbn [chat_history].
      now rewrite get_next_chat_rank_snoc. }
    assert (Hf' : faultFree db')
      by (unfold faultFree, db' in *; cbn; now rewrite Hf).
    assert (Hown' : idsOwned userId (chat_history db')).
    { unfold db'. cbn [chat_history]. apply idsOwned_snoc; [assumption|].
      now apply derived_row_owned. }
    destruct (IH db' Hf' Hknown Hown') as [Hres Hrows].
    rewrite Hnext in Hres, Hrows. split; [assumption|].
    rewrite Hrows. unfold db'. cbn [chat_history].
    now rewrite <- app_assoc.
Qed.

Lemma sessionMessages_kept (ids time : string)
      (exchanges : list (string * string)) :
  noDefaultText exchanges ->
  filter (fun m => negb (isDefaultMessage m))
         (sessionMessages ids time exchanges)
  = sessionMessages ids time exchanges.
Proof.
  induction 1 as [|x rest [Hq Ha] _ IH]; [reflexivity|].
  cbn [sessionMessages flat_map app filter].
  fold (sessionMessages ids time rest).
  change (isDefaultMessage (mkMessage ids (fst x) user time None))
    with (isDefaultMessage (mkMessage "" (fst x) user "" None)).
  change (isDefaultMessage (mkMessage ids (snd x) assistant time None))
    with (isDefaultMessage (mkMessage "" (snd x) assistant "" None)).
  rewrite Hq, Ha. cbn [negb]. now rewrite IH.
Qed.

End Chains.

(** X13. Ranks grow by one. When the backend has no failure to come,
    the user is known and the user's ids are owned, a chain of calls of
    [createChatEntry] appends to the user's history, in order, one row per
    exchange with the texts of that exchange, at the ranks that follow the
    history one by one: [n], [n + 1], ... from the user's next rank [n],
    which is 1 for a user without rows. *)
Theorem appendExchanges_ranks (env : Env) (userId : string)
        (exchanges : list (string * string)) (st : Session) (db : Backend) :
  faultFree db ->
  known_user userId db = true ->
  idsOwned userId (chat_history db) ->
  exists added n,
    historyOf userId (snd (appendExchanges env userId exchanges st db))
    = historyOf userId db ++ added
    /\ map (fun r => (user_request r, ai_response r)) added = exchanges
    /\ map chat_rank added
       = map (fun i => n + Z.of_nat i) (seq 0 (List.length exchanges))
    /\ (forall r, In r (historyOf userId db) -> chat_rank r < n)
    /\ (historyOf userId db = [] -> n = 1).
Proof.
  intros Hf Hknown Hown.
  exists (exchangeRows env userId
            (get_next_chat_rank userId (chat_history db)) exchanges),
         (get_next_chat_rank userId (chat_history db)).
  split; [now apply appendExchanges_history|].
  split; [apply exchangeRows_texts|].
  split; [apply exchangeRows_ranks|].
  destruct (get_next_chat_rank_above userId (chat_history db))
    as [Habove Hn].
  split.
  - intros r Hr. apply order_by_rank_In, filter_In in Hr as [Hr Hu].
    apply Habove; [assumption|]. now apply String.eqb_eq in Hu.
  - intros Hnil. destruct Hn as [[_ Hn] | (r & Hr & Hu & _)]; [assumption|].
    exfalso.
    assert (Hin : In r (historyOf userId db)).
    { apply order_by_rank_In, filter_In. split; [assumption|].
      unfold eq_user. rewrite Hu. apply String.eqb_refl. }
    rewrite Hnil in Hin. destruct Hin.
Qed.

Lemma appendExchanges_ranks_witness :
  exists added n,
    historyOf "ann@example.com"
      (snd (appendExchanges sampleEnv "ann@example.com"
              [("one", "first"); ("two", "second")] initialSession mixedDb))
    = historyOf "ann@example.com" mixedDb ++ added
    /\ map (fun r => (user_request r, ai_response r)) added
       = [("one", "first"); ("two", "second")]
    /\ map chat_rank added
       = map (fun i => n + Z.of_nat i)
             (seq 0 (List.length [("one", "first"); ("two", "second")]))
    /\ (forall r, In r (historyOf "ann@example.com" mixedDb) ->
                  chat_rank r < n)
    /\ (historyOf "ann@example.com" mixedDb = [] -> n = 1).
Proof.
  apply appendExchanges_ranks.
  - reflexivity.
  - reflexivity.
  - exact mixedDb_owned.
Defined.

Lemma exchangeRows_messages (env : Env) (userId : string)
      (exchanges : list (string * string)) :
  forall n,
    map (fun m => (role m, content m))
        (flat_map (entryMessages env) (exchangeRows env userId n exchanges))
    = flat_map (fun x => [(user, fst x); (assistant, snd x)]) exchanges.
Proof.
  induction exchanges as [|x rest IH]; intros n; [reflexivity|].
  cbn [exchangeRows flat_map entryMessages app map exchangeRow role content
       user_request ai_response].
  now rewrite IH.
Qed.

(** X14. What is saved is what is read back. For a user without rows,
    when the backend has no failure to come, the user is known and the
    user's ids are owned, the conversation list read after a chain of
    appends is one conversation, starting at rank 1 with id ["conv_1"],
    whose messages are, in order, the request of each exchange as a user
    message followed by its answer as an assistant message. *)
Theorem chat_round_trip (env : Env) (userId : string)
        (exchanges : list (string * string)) (st : Session) (db : Backend) :
  faultFree db ->
  known_user userId db = true ->
  idsOwned userId (chat_history db) ->
  historyOf userId db = [] ->
  exchanges <> [] ->
  exists c,
    fst (fetchConversations env userId
           (snd (appendExchanges env userId exchanges st db))) = [c]
    /\ startRank c = 1
    /\ id c = "conv_1"
    /\ map (fun m => (role m, content m)) (messages c)
       = flat_map (fun x => [(user, fst x); (assistant, snd x)]) exchanges.
Proof.
  intros Hf Hknown Hown Hnew Hne.
  destruct (appendExchanges_rows env userId exchanges st db Hf Hknown Hown)
    as [_ Hf'].
  rewrite (fetchConversations_faultFree env userId _ Hf').
  rewrite (appendExchanges_history env userId exchanges st db Hf Hknown Hown).
  rewrite Hnew. cbn [app].
  assert (Hn : get_next_chat_rank userId (chat_history db) = 1).
  { destruct (get_next_chat_rank_above userId (chat_history db))
      as [_ [[_ Hn] | (r & Hr & Hu & _)]]; [assumption|].
    exfalso.
    assert (Hin : In r (historyOf userId db)).
    { apply order_by_rank_In, filter_In. split; [assumption|].
      unfold eq_user. rewrite Hu. apply String.eqb_refl. }
    rewrite Hnew in Hin. destruct Hin. }
  rewrite Hn.
  pose proof (exchangeRows_consecutive env userId exchanges 1) as Hc.
  pose proof (exchangeRows_messages env userId exchanges 1) as Hm.
  destruct exchanges as [|x rest]; [contradiction|].
  cbn [exchangeRows] in *.
  rewrite groupRuns_consecutive_one by exact Hc.
  eexists. split; [reflexivity|].
  cbn [conversationOf startRank id messages fst snd exchangeRow chat_rank].
  split; [reflexivity|]. split; [reflexivity|].
  rewrite pushMessages_flat_map. exact Hm.
Qed.

Lemma chat_round_trip_witness :
  exists c,
    fst (fetchConversations sampleEnv "bob@example.com"
           (snd (appendExchanges sampleEnv "bob@example.com"
                   [("one", "first"); ("two", "second")] initialSession
                   (sampleDb sampleLog [])))) = [c]
    /\ startRank c = 1
    /\ id c = "conv_1"
    /\ map (fun m => (role m, content m)) (messages c)
       = flat_map (fun x => [(user, fst x); (assistant, snd x)])
                  [("one", "first"); ("two", "second")].
Proof.
  apply chat_round_trip.
  - reflexivity.
  - reflexivity.
  - repeat (apply idsOwned_cons; [intros k E; discriminate E|]).
    apply idsOwned_nil.
  - reflexivity.
  - discriminate.
Defined.

(** X15. The two append paths agree. On a session made of exchanges
    (a user message followed by an assistant message for each) whose
    texts are not taken for the default greeting, when the backend has no
    failure to come, the user is known and the user's ids are owned,
    [saveCurrentSession] returns [true] and leaves in the table exactly
    the rows that calling [createChatEntry] for each exchange in turn
    leaves. *)
Theorem saveCurrentSession_as_chain (env : Env) (userId ids time : string)
        (exchanges : list (string * string)) (st : Session) (db : Backend) :
  faultFree db ->
  known_user userId db = true ->
  idsOwned userId (chat_history db) ->
  noDefaultText exchanges ->
  fst (saveCurrentSession env userId (sessionMessages ids time exchanges) db)
  = true
  /\ chat_history
       (snd (saveCurrentSession env userId
               (sessionMessages ids time exchanges) db))
     = chat_history (snd (appendExchanges env userId exchanges st db)).
Proof.
  intros Hf Hknown Hown Htexts.
  destruct (appendExchanges_rows env userId exchanges st db Hf Hknown Hown)
    as [Hchain _].
  rewrite Hchain. unfold saveCurrentSession.
  rewrite (sessionMessages_kept ids time exchanges Htexts).
  destruct exchanges as [|x rest]; [cbn; now rewrite app_nil_r|].
  cbn [sessionMessages flat_map app].
  fold (sessionMessages ids time rest).
  change (mkMessage ids (fst x) user time None
            :: mkMessage ids (snd x) assistant time None
            :: sessionMessages ids time rest)
    with (sessionMessages ids time (x :: rest)).
  assert (Hr : reachable db)
    by (unfold reachable; unfold faultFree in Hf; now rewrite Hf).
  rewrite (select_max_rank_reachable userId db Hr).
  rewrite nextRankOf_get_next_chat_rank.
  set (db1 := mkBackend _ _ _ _).
  assert (Hf1 : faultFree db1)
    by (unfold faultFree, db1 in *; cbn; now rewrite Hf).
  change (chat_history db) with (chat_history db1).
  apply (savePairs_session env userId ids time (x :: rest) db1 Hf1);
    assumption.
Qed.

Lemma saveCurrentSession_as_chain_witness :
  fst (saveCurrentSession sampleEnv "ann@example.com"
         (sessionMessages "msg" "10:13 PM" [("one", "first"); ("two", "second")])
         mixedDb)
  = true
  /\ chat_history
       (snd (saveCurrentSession sampleEnv "ann@example.com"
               (sessionMessages "msg" "10:13 PM"
                  [("one", "first"); ("two", "second")]) mixedDb))
     = chat_history
         (snd (appendExchanges sampleEnv "ann@example.com"
                 [("one", "first"); ("two", "second")] initialSession
                 mixedDb)).
Proof.
  apply saveCurrentSession_as_chain.
  - reflexivity.
  - reflexivity.
  - exact mixedDb_owned.
  - repeat constructor.
Defined.

(* ================================================================== *)
(** * The session tracker at append time *)
(* ================================================================== *)

(** X16. The session variables across an append. When the read of the
    greatest rank goes through, [createChatEntry] called after
    [clearCurrentSession] starts a session by itself, with a fresh id and
    the rank it is about to use as anchor, whether or not the insert then
    succeeds and whatever other writers do; called with a session in
    place, as after [startNewSession] or after [setCurrentSession] with a
    non-empty id, it leaves both variables as they are. *)
Theorem session_across_append (env env0 : Env)
        (meanwhile : Backend -> Backend)
        (userId userRequest aiResponse sessionId : string) (startRank : Z)
        (st : Session) (db : Backend) :
  reachable db ->
  sessionId <> EmptyString ->
  snd (fst (createChatEntry env meanwhile userId userRequest aiResponse
              (clearCurrentSession st) db))
  = mkSession (Some (freshSessionId env))
              (get_next_chat_rank userId (chat_history db))
  /\ snd (fst (createChatEntry env meanwhile userId userRequest aiResponse
                 (snd (startNewSession env0 st)) db))
     = snd (startNewSession env0 st)
  /\ snd (fst (createChatEntry env meanwhile userId userRequest aiResponse
                 (setCurrentSession sessionId startRank st) db))
     = setCurrentSession sessionId startRank st.
Proof.
  intros Hr Hid. unfold createChatEntry.
  rewrite (select_max_rank_reachable userId db Hr).
  rewrite nextRankOf_get_next_chat_rank.
  repeat split.
  - cbn [clearCurrentSession noSession currentSessionId].
    destruct (insert _ _) as [[|] ?]; reflexivity.
  - cbn [startNewSession snd noSession currentSessionId freshSessionId append].
    destruct (insert _ _) as [[|] ?]; reflexivity.
  - cbn [setCurrentSession noSession currentSessionId].
    destruct sessionId as [|c s]; [contradiction|].
    destruct (insert _ _) as [[|] ?]; reflexivity.
Qed.

Lemma session_across_append_witness :
  snd (fst (createChatEntry sampleEnv rival "ann@example.com" "question"
              "answer" (clearCurrentSession initialSession) collisionDb))
  = mkSession (Some (freshSessionId sampleEnv))
              (get_next_chat_rank "ann@example.com" (chat_history collisionDb))
  /\ snd (fst (createChatEntry sampleEnv rival "ann@example.com" "question"
                 "answer" (snd (startNewSession sampleEnv initialSession))
                 collisionDb))
     = snd (startNewSession sampleEnv initialSession)
  /\ snd (fst (createChatEntry sampleEnv rival "ann@example.com" "question"
                 "answer" (setCurrentSession "conv_1" 1 initialSession)
                 collisionDb))
     = setCurrentSession "conv_1" 1 initialSession.
Proof.
  apply (session_across_append sampleEnv sampleEnv rival "ann@example.com"
           "question" "answer" "conv_1" 1 initialSession collisionDb).
  - reflexivity.
  - discriminate.
Defined.

(* ================================================================== *)
(** * The single-conversation read on any table *)
(* ================================================================== *)

Section ReadAny.


End ReadAny.


(* ================================================================== *)
(** * Session ids as conversation tokens *)
(* ================================================================== *)

Section SessionTokens.
Import Js.

Lemma replace_absent (pat rep s : string) :
  includes pat s = false -> replace pat rep s = s.
Proof.
  induction s as [|c s IH]; cbn [includes replace]; intros H;
    apply orb_false_iff in H as [Hp Hs]; rewrite Hp; [reflexivity|].
  now rewrite IH.
Qed.

Lemma prefix_cons_inv (a : ascii) (p s : string) :
  prefix (String a p) s = true ->
  exists s', s = String a s' /\ prefix p s' = true.
Proof.
  destruct s as [|b s]; cbn [prefix]; [discriminate|].
  destruct (ascii_dec a b) as [<-|]; [|discriminate].
  intros H. exists s. split; [reflexivity | assumption].
Qed.

Lemma prefix_conv_underscore (s : string) :
  prefix "conv_" s = true -> noUnderscore s = false.
Proof.
  intros H.
  apply prefix_cons_inv in H as (s1 & -> & H).
  apply prefix_cons_inv in H as (s2 & -> & H).
  apply prefix_cons_inv in H as (s3 & -> & H).
  apply prefix_cons_inv in H as (s4 & -> & H).
  apply prefix_cons_inv in H as (s5 & -> & H).
  reflexivity.
Qed.

Lemma includes_conv_noUnderscore (s : string) :
  noUnderscore s = true -> includes "conv_" s = false.
Proof.
  induction s as [|c s IH]; intros Hs; [reflexivity|].
  cbn [includes]. apply orb_false_iff. split.
  - destruct (prefix "conv_" (String c s)) eqn:E; [|reflexivity].
    apply prefix_conv_underscore in E. congruence.
  - apply IH. cbn in Hs. now apply andb_true_iff in Hs as [_ Hs].
Qed.

Lemma includes_conv_digits (d t : string) :
  all_digits d = true ->
  includes "conv_" (d ++ t)%string = includes "conv_" t.
Proof.
  induction d as [|c d IH]; intros Hd; [reflexivity|].
  cbn in Hd. apply andb_true_iff in Hd as [Hc Hd].
  cbn [append includes prefix].
  destruct (ascii_dec "c" c) as [<-|_]; [vm_compute in Hc; discriminate Hc|].
  cbn [orb]. now apply IH.
Qed.

Lemma digit_prefix_then (d t : string) :
  all_digits d = true ->
  digit_prefix (d ++ String "_" t)%string = d.
Proof.
  induction d as [|c d IH]; intros Hd; [reflexivity|].
  cbn in Hd. apply andb_true_iff in Hd as [Hc Hd].
  cbn [append digit_prefix]. rewrite Hc. now rewrite IH.
Qed.

Lemma parseInt_uint_then (d : Decimal.uint) (t : string) :
  d <> Decimal.Nil ->
  parseInt (NilEmpty.string_of_uint d ++ String "_" t)%string
  = Some (Z.of_uint d).
Proof.
  intros Hd.
  rewrite <- (digits_value_uint d Hd).
  rewrite <- (digit_prefix_then _ t (JsFacts.all_digits_uint d)) at 2.
  destruct d; try contradiction; reflexivity.
Qed.

Lemma parseInt_toString_then (n : Z) (t : string) :
  0 <= n ->
  parseInt (toString n ++ String "_" t)%string = Some n.
Proof.
  destruct n as [|p|p]; intros Hn; [reflexivity| |lia].
  rewrite JsFacts.toString_pos, parseInt_uint_then
    by apply JsFacts.to_uint_nonnil.
  now rewrite of_uint_to_uint.
Qed.

Lemma replace_session_prefix (s : string) :
  replace "session_" "" ("session_" ++ s)%string = s.
Proof. destruct s; reflexivity. Qed.

End SessionTokens.

(** X18. A session id used as a conversation token names its timestamp.
    For a session id made by [startNewSession] at a time [Date.now()]
    that is not negative, with a random suffix free of underscores (it is
    written in base 36), the token parsing of [deleteConversation] and
    [getConversationMessages] yields [Date.now()] as the start rank. *)
Theorem session_id_parses_to_timestamp (env : Env) (st : Session) :
  0 <= dateNow env ->
  noUnderscore (randomSuffix env) = true ->
  parseConversationId (fst (startNewSession env st)) = Some (dateNow env).
Proof.
  intros Hn Hr. cbn [startNewSession fst].
  unfold parseConversationId, freshSessionId.
  rewrite (replace_absent "conv_").
  - rewrite replace_session_prefix.
    change ("_" ++ randomSuffix env)%string
      with (String "_" (randomSuffix env)).
    now apply parseInt_toString_then.
  - change (Js.includes "conv_"
              ("session_" ++ Js.toString (dateNow env) ++ "_"
                 ++ randomSuffix env)%string)
      with (Js.includes "conv_"
              (Js.toString (dateNow env) ++ String "_" (randomSuffix env))%string).
    rewrite includes_conv_digits by now apply JsFacts.toString_digits.
    change (Js.includes "conv_" (String "_" (randomSuffix env)))
      with (Js.includes "conv_" (randomSuffix env)).
    now apply includes_conv_noUnderscore.
Qed.

Lemma session_id_parses_to_timestamp_witness :
  parseConversationId (fst (startNewSession sampleEnv initialSession))
  = Some (dateNow sampleEnv).
Proof.
  apply session_id_parses_to_timestamp.
  - cbn. lia.
  - reflexivity.
Defined.

(* ================================================================== *)
(** * Feedback management *)
(* ================================================================== *)

Section FeedbackFacts.
Import Feedback.

Ltac closed_eqb :=
  repeat match goal with
         | |- context [String.eqb ?a ?b] =>
             let v := eval vm_compute in (String.eqb a b) in
             change (String.eqb a b) with v
         end.

Lemma feedback_receive_table (db : Store) :
  users (snd (receive db)) = users db
  /\ feedback_table (snd (receive db)) = feedback_table db.
Proof.
  unfold receive. destruct (faults db); cbn; split; reflexivity.
Qed.

Lemma feedback_receive_clear (db : Store) :
  faults db = [] -> receive db = (false, db).
Proof.
  intros H. unfold receive. rewrite H. reflexivity.
Qed.

Lemma id_taken_In (feedbackId : string) (rows : list FeedbackEntry) :
  id_taken feedbackId rows = true <-> In feedbackId (map feedback_id rows).
Proof.
  unfold id_taken. rewrite existsb_exists, in_map_iff. split.
  - intros (r & Hr & He). apply String.eqb_eq in He. now exists r.
  - intros (r & He & Hr). exists r. split; [assumption|].
    now apply String.eqb_eq.
Qed.

Lemma countStatus_app (s : string) (l1 l2 : list string) :
  countStatus s (l1 ++ l2) = countStatus s l1 + countStatus s l2.
Proof.
  unfold countStatus. rewrite filter_app, length_app. lia.
Qed.

Lemma countStatus_cons (s x : string) (l : list string) :
  countStatus s (x :: l)
  = (if String.eqb s x then 1 else 0) + countStatus s l.
Proof.
  unfold countStatus. cbn [filter]. destruct (String.eqb s x).
  - cbn [List.length]. lia.
  - lia.
Qed.

(** Statuses that are all among the three the module writes fall into the
    three counters. *)
Lemma statuses_partition (data : list string) :
  Forall (fun s => isStatus s = true) data ->
  Z.of_nat (List.length data)
  = countStatus "new" data + countStatus "reviewed" data
    + countStatus "resolved" data.
Proof.
  induction 1 as [|s l Hs _ IH].
  - reflexivity.
  - rewrite !countStatus_cons. cbn [List.length]. rewrite Nat2Z.inj_succ.
    rewrite (String.eqb_sym "new"), (String.eqb_sym "reviewed"),
      (String.eqb_sym "resolved").
    unfold isStatus in Hs. revert Hs.
    destruct (String.eqb_spec s "new") as [->|H1]; [intros _; closed_eqb; lia|].
    destruct (String.eqb_spec s "reviewed") as [->|H2];
      [intros _; closed_eqb; lia|].
    destruct (String.eqb_spec s "resolved") as [->|H3];
      [intros _; closed_eqb; lia|].
    discriminate.
Qed.

Lemma isStatus_statusText (s : Status) : isStatus (statusText s) = true.
Proof. destruct s; reflexivity. Qed.

Lemma user_allowed_users (u : option string) (db db' : Store) :
  users db' = users db -> user_allowed u db' = user_allowed u db.
Proof.
  intros H. unfold user_allowed. now rewrite H.
Qed.

Lemma wellFormed_receive (users0 : list string) (db : Store) :
  wellFormed users0 db -> wellFormed users0 (snd (receive db)).
Proof.
  intros (Hu & Hn & Hs & Hf).
  destruct (feedback_receive_table db) as [Eu Et].
  unfold wellFormed. rewrite Eu, Et. repeat split; try assumption.
  eapply Forall_impl; [|exact Hf]. intros r Hr. cbn beta in *.
  now rewrite (user_allowed_users _ db).
Qed.

Lemma submitFeedback_unfold (env : Env) (feedbackData : FeedbackData)
      (userId : option string) (db : Store) :
  submitFeedback env feedbackData userId db
  = (if fst (receive db)
        || id_taken (newFeedbackId env) (feedback_table db)
        || negb (user_allowed (orNull userId) db)
     then (None, snd (receive db))
     else (Some (newFeedbackId env),
           mkStore (users db)
                   (feedback_table db
                    ++ [submittedRow env feedbackData userId])
                   (faults (snd (receive db))))).
Proof.
  unfold submitFeedback, insert.
  destruct (feedback_receive_table db) as [Eu _].
  destruct (receive db) as [failed db'] eqn:Hr. cbn [fst snd] in *.
  destruct failed; [reflexivity|]. cbn [orb].
  change (feedback_id (submittedRow env feedbackData userId))
    with (newFeedbackId env).
  change (user_id (submittedRow env feedbackData userId))
    with (orNull userId).
  destruct (id_taken (newFeedbackId env) (feedback_table db));
    [reflexivity|]. cbn [orb].
  destruct (user_allowed (orNull userId) db); cbn [negb];
    [|reflexivity].
  now rewrite Eu.
Qed.

Lemma wellFormed_submit (users0 : list string) (env : Env)
      (feedbackData : FeedbackData) (userId : option string) (db : Store) :
  wellFormed users0 db ->
  wellFormed users0 (snd (submitFeedback env feedbackData userId db)).
Proof.
  intros Hw. pose proof (wellFormed_receive users0 db Hw) as Hw'.
  rewrite submitFeedback_unfold.
  destruct (fst (receive db)); [exact Hw'|]. cbn [orb].
  destruct (id_taken (newFeedbackId env) (feedback_table db)) eqn:Ht;
    [exact Hw'|]. cbn [orb].
  destruct (user_allowed (orNull userId) db) eqn:Ha; cbn [negb];
    [|exact Hw'].
  cbn [snd]. destruct Hw as (Hu & Hn & Hs & Hf).
  unfold wellFormed. cbn [users feedback_table].
  split; [assumption|]. split; [|split].
  - rewrite map_app. apply NoDup_app; [assumption| |].
    + cbn [map]. constructor; [intros []|constructor].
    + intros a Ha1 [<-|[]].
      apply (proj2 (id_taken_In _ _)) in Ha1.
      change (feedback_id (submittedRow env feedbackData userId))
        with (newFeedbackId env) in Ha1.
      congruence.
  - apply Forall_app. split; [assumption|].
    constructor; [reflexivity|constructor].
  - apply Forall_app. split.
    + eapply Forall_impl; [|exact Hf]. intros r Hr. exact Hr.
    + constructor; [|constructor]. exact Ha.
Qed.

Lemma map_id_update (feedbackId statusValue updatedAt : string)
      (rows : list FeedbackEntry) :
  map feedback_id
      (map (fun r => if String.eqb (feedback_id r) feedbackId
                     then set_status statusValue updatedAt r else r) rows)
  = map feedback_id rows.
Proof.
  rewrite map_map. apply map_ext. intros r.
  now destruct (String.eqb (feedback_id r) feedbackId).
Qed.

Lemma updateFeedbackStatus_unfold (env : Env) (feedbackId : string)
      (statusValue : Status) (db : Store) :
  updateFeedbackStatus env feedbackId statusValue db
  = (if fst (receive db) then (false, snd (receive db))
     else (true,
           mkStore (users db)
                   (map (fun r =>
                           if String.eqb (feedback_id r) feedbackId
                           then set_status (statusText statusValue)
                                           (isoNow env) r
                           else r) (feedback_table db))
                   (faults (snd (receive db))))).
Proof.
  unfold updateFeedbackStatus, update_status.
  destruct (feedback_receive_table db) as [Eu _].
  destruct (receive db) as [failed db'] eqn:Hr. cbn [fst snd] in *.
  destruct failed; [reflexivity|]. now rewrite Eu.
Qed.

Lemma wellFormed_update (users0 : list string) (env : Env)
      (feedbackId : string) (statusValue : Status) (db : Store) :
  wellFormed users0 db ->
  wellFormed users0 (snd (updateFeedbackStatus env feedbackId statusValue db)).
Proof.
  intros Hw. pose proof (wellFormed_receive users0 db Hw) as Hw'.
  rewrite updateFeedbackStatus_unfold.
  destruct (fst (receive db)); [exact Hw'|].
  cbn [snd]. destruct Hw as (Hu & Hn & Hs & Hf).
  unfold wellFormed. cbn [users feedback_table].
  split; [assumption|]. split; [|split].
  - now rewrite map_id_update.
  - apply Forall_map. eapply Forall_impl; [|exact Hs].
    intros r Hr. cbn beta.
    destruct (String.eqb (feedback_id r) feedbackId); [|exact Hr].
    apply isStatus_statusText.
  - apply Forall_map. eapply Forall_impl; [|exact Hf].
    intros r Hr. cbn beta.
    destruct (String.eqb (feedback_id r) feedbackId); exact Hr.
Qed.

Lemma getFeedbackStats_unfold (db : Store) :
  getFeedbackStats db
  = (if fst (receive db) then mkStats 0 0 0 0
     else
       let data := map status (feedback_table db) in
       mkStats (Z.of_nat (List.length data)) (countStatus "new" data)
               (countStatus "reviewed" data) (countStatus "resolved" data),
     snd (receive db)).
Proof.
  unfold getFeedbackStats, select_status.
  destruct (receive db) as [failed db']. cbn [fst snd].
  now destruct failed.
Qed.

Lemma wellFormed_call (users0 : list string) (c : Call) (db : Store) :
  wellFormed users0 db -> wellFormed users0 (call c db).
Proof.
  intros Hw. destruct c; cbn [call].
  - now apply wellFormed_submit.
  - now apply wellFormed_update.
  - rewrite getFeedbackStats_unfold. cbn [snd].
    now apply wellFormed_receive.
Qed.

Lemma wellFormed_calls (users0 : list string) (calls : list Call) :
  forall db, wellFormed users0 db ->
             wellFormed users0 (fold_left (fun db c => call c db) calls db).
Proof.
  induction calls as [|c calls IH]; intros db Hw; cbn [fold_left].
  - exact Hw.
  - apply IH. now apply wellFormed_call.
Qed.

(** X19. Invariant of the feedback table. In every store the module
    reaches from an empty table, by any sequence of [submitFeedback],
    [updateFeedbackStatus] and [getFeedbackStats] calls with any arguments
    and under any transport failures, no two entries share a
    [feedback_id], every [user_id] is [NULL] or in [users], every status is
    one of new, reviewed and resolved, and the counters [getFeedbackStats]
    returns add up: total = new + reviewed + resolved. *)
Theorem feedback_stats_add_up (users0 : list string) (faults0 : list bool)
        (calls : list Call) :
  let db := reached users0 faults0 calls in
  let stats := fst (getFeedbackStats db) in
  wellFormed users0 db
  /\ total stats = new stats + reviewed stats + resolved stats.
Proof.
  intros db stats.
  assert (Hw : wellFormed users0 db).
  { apply wellFormed_calls. unfold wellFormed. cbn.
    repeat split; constructor. }
  split; [exact Hw|].
  subst stats. rewrite getFeedbackStats_unfold. cbn [fst].
  destruct (fst (receive db)); [reflexivity|].
  cbn [total new reviewed resolved].
  apply statuses_partition. apply Forall_map.
  now destruct Hw as (_ & _ & Hs & _).
Qed.

(** X20. [submitFeedback] and the counters. With a failure-free backend,
    a submission that returns an id returns
    [feedback_<Date.now()>_<suffix>], appends one entry with status new
    (user, name and contact [NULL] where the argument was left out or
    empty, type general where none was given) and raises [total] and [new]
    of [getFeedbackStats] by one, leaving [reviewed] and [resolved]; one
    that returns [null] leaves store and counters as they were. *)
Theorem submitFeedback_counts (env : Env) (feedbackData : FeedbackData)
        (userId : option string) (db : Store) :
  faults db = [] ->
  let before := fst (getFeedbackStats db) in
  let after :=
    fst (getFeedbackStats (snd (submitFeedback env feedbackData userId db))) in
  match submitFeedback env feedbackData userId db with
  | (Some feedbackId, db') =>
      feedbackId = newFeedbackId env
      /\ feedback_table db'
         = feedback_table db ++ [submittedRow env feedbackData userId]
      /\ after = mkStats (total before + 1) (new before + 1)
                         (reviewed before) (resolved before)
  | (None, db') => db' = db /\ after = before
  end.
Proof.
  intros Hf before after. subst before after.
  rewrite submitFeedback_unfold, (feedback_receive_clear db Hf).
  cbn [fst snd orb].
  destruct (id_taken (newFeedbackId env) (feedback_table db)
            || negb (user_allowed (orNull userId) db)).
  - split; reflexivity.
  - split; [reflexivity|]. split; [reflexivity|].
    rewrite !getFeedbackStats_unfold.
    rewrite (feedback_receive_clear db Hf).
    rewrite feedback_receive_clear by (cbn; exact Hf).
    cbn [fst snd feedback_table total new reviewed resolved].
    cbv zeta. rewrite map_app, length_app, !countStatus_app.
    cbn [map List.length]. rewrite !countStatus_cons.
    change (status (submittedRow env feedbackData userId)) with "new".
    closed_eqb. unfold countStatus at 2 4 6. cbn [filter List.length].
    f_equal; lia.
Qed.

Lemma submitFeedback_counts_witness :
  faults sampleStore = []
  /\ fst (getFeedbackStats
            (snd (submitFeedback sampleEnv sampleFeedback None sampleStore)))
     = mkStats 1 1 0 0.
Proof.
  split; [reflexivity|].
  pose proof (submitFeedback_counts sampleEnv sampleFeedback None sampleStore
                                    eq_refl) as H.
  cbv zeta in H.
  destruct (submitFeedback sampleEnv sampleFeedback None sampleStore)
    as [[feedbackId|] db'] eqn:Hs.
  - destruct H as (_ & _ & H). exact H.
  - vm_compute in Hs. discriminate Hs.
Defined.

(** X21. Feedback under a user id that is not in [users]. Whatever the
    backend holds and whatever fails, [submitFeedback] called with a
    non-empty [userId] that [users] does not contain returns [null] and
    stores nothing: the foreign key of the table refuses the row. With no
    [userId] (left out, [null] or empty) the same submission is stored,
    with [user_id] [NULL], once the call goes through and the id is
    free. *)
Theorem feedback_of_unknown_user_lost (env : Env)
        (feedbackData : FeedbackData) (u : string) (db : Store) :
  u <> "" ->
  existsb (String.eqb u) (users db) = false ->
  (fst (submitFeedback env feedbackData (Some u) db) = None
   /\ feedback_table (snd (submitFeedback env feedbackData (Some u) db))
      = feedback_table db)
  /\ (forall userId,
        orNull userId = None ->
        fst (receive db) = false ->
        id_taken (newFeedbackId env) (feedback_table db) = false ->
        fst (submitFeedback env feedbackData userId db)
        = Some (newFeedbackId env)
        /\ exists row,
            feedback_table (snd (submitFeedback env feedbackData userId db))
            = feedback_table db ++ [row]
            /\ user_id row = None
            /\ feedback_text row = feedback feedbackData).
Proof.
  intros Hu Hk. split.
  - rewrite submitFeedback_unfold.
    assert (Ha : user_allowed (orNull (Some u)) db = false).
    { destruct u as [|c u']; [congruence|]. exact Hk. }
    rewrite Ha. cbn [negb]. rewrite !orb_true_r. cbn [fst snd].
    split; [reflexivity|]. apply feedback_receive_table.
  - intros userId Hn Hr Ht. rewrite submitFeedback_unfold.
    rewrite Hr, Ht, Hn. cbn [user_allowed negb orb fst snd feedback_table].
    split; [reflexivity|].
    exists (submittedRow env feedbackData userId).
    split; [reflexivity|]. split; [|reflexivity].
    cbn [submittedRow user_id]. exact Hn.
Qed.

Lemma feedback_of_unknown_user_lost_witness :
  fst (submitFeedback sampleEnv sampleFeedback (Some "bob@example.com")
                      sampleStore) = None
  /\ fst (submitFeedback sampleEnv sampleFeedback (Some "") sampleStore)
     = Some (newFeedbackId sampleEnv).
Proof.
  assert (Hu : "bob@example.com" <> "") by discriminate.
  assert (Hk : existsb (String.eqb "bob@example.com") (users sampleStore)
               = false) by reflexivity.
  destruct (feedback_of_unknown_user_lost sampleEnv sampleFeedback
              "bob@example.com" sampleStore Hu Hk) as [[H1 _] H2].
  split; [exact H1|].
  apply (H2 (Some "") eq_refl eq_refl eq_refl).
Defined.

Lemma countStatus_update (t feedbackId statusValue updatedAt : string)
      (rows : list FeedbackEntry) :
  NoDup (map feedback_id rows) ->
  let rows' :=
    map (fun r => if String.eqb (feedback_id r) feedbackId
                  then set_status statusValue updatedAt r else r) rows in
  match find (fun r => String.eqb (feedback_id r) feedbackId) rows with
  | Some r =>
      countStatus t (map status rows') + one_if (String.eqb t (status r))
      = countStatus t (map status rows) + one_if (String.eqb t statusValue)
  | None => rows' = rows
  end.
Proof.
  intros Hn rows'. subst rows'.
  induction rows as [|x rows IH]; [reflexivity|].
  cbn [map feedback_id] in Hn. apply NoDup_cons_iff in Hn.
  destruct Hn as [Hx Hn]. specialize (IH Hn).
  cbn [find map].
  destruct (String.eqb (feedback_id x) feedbackId) eqn:He.
  - apply String.eqb_eq in He.
    assert (Hfind : find (fun r => String.eqb (feedback_id r) feedbackId)
                         rows = None).
    { destruct (find _ rows) as [r|] eqn:Hf; [|reflexivity].
      apply find_some in Hf. destruct Hf as [Hin Heq].
      apply String.eqb_eq in Heq. exfalso. apply Hx.
      rewrite He, <- Heq. now apply in_map. }
    rewrite Hfind in IH. rewrite IH.
    rewrite !countStatus_cons. cbn [set_status status]. unfold one_if.
    destruct (String.eqb t statusValue), (String.eqb t (status x)); lia.
  - destruct (find _ rows) as [r|].
    + rewrite !countStatus_cons. destruct (String.eqb t (status x)); lia.
    + now rewrite IH.
Qed.

(** X22. [updateFeedbackStatus] moves one entry. With a failure-free
    backend and a table in which no two entries share a [feedback_id], the
    call returns true, keeps the entries' ids and so the total, and for
    each status moves exactly the entry of that id from the counter of its
    old status to the counter of the new one; when no entry has the id the
    table is left as it was, and the call still returns true. *)
Theorem updateFeedbackStatus_moves_one (env : Env) (feedbackId : string)
        (statusValue : Status) (db : Store) :
  faults db = [] ->
  NoDup (map feedback_id (feedback_table db)) ->
  let '(ok, db') := updateFeedbackStatus env feedbackId statusValue db in
  ok = true
  /\ map feedback_id (feedback_table db') = map feedback_id (feedback_table db)
  /\ match find (fun r => String.eqb (feedback_id r) feedbackId)
                (feedback_table db) with
     | Some r =>
         forall t,
           countStatus t (map status (feedback_table db'))
           + one_if (String.eqb t (status r))
           = countStatus t (map status (feedback_table db))
             + one_if (String.eqb t (statusText statusValue))
     | None => feedback_table db' = feedback_table db
     end.
Proof.
  intros Hf Hn. rewrite updateFeedbackStatus_unfold.
  rewrite (feedback_receive_clear db Hf). cbn [fst snd feedback_table].
  split; [reflexivity|]. split; [apply map_id_update|].
  destruct (find (fun r => String.eqb (feedback_id r) feedbackId)
                 (feedback_table db)) as [r|] eqn:Hfind.
  - intros t.
    pose proof (countStatus_update t feedbackId (statusText statusValue)
                                   (isoNow env) (feedback_table db) Hn) as H.
    cbv zeta in H. now rewrite Hfind in H.
  - pose proof (countStatus_update "" feedbackId (statusText statusValue)
                                   (isoNow env) (feedback_table db) Hn) as H.
    cbv zeta in H. now rewrite Hfind in H.
Qed.

Lemma updateFeedbackStatus_moves_one_witness :
  let db := mkStore [] [sampleEntry "feedback_1_a" "new";
                        sampleEntry "feedback_2_b" "new"] [] in
  faults db = []
  /\ NoDup (map feedback_id (feedback_table db))
  /\ fst (updateFeedbackStatus sampleEnv "feedback_2_b" Resolved db) = true
  /\ countStatus "resolved"
        (map status
             (feedback_table
                (snd (updateFeedbackStatus sampleEnv "feedback_2_b"
                                           Resolved db)))) = 1.
Proof.
  intros db.
  assert (Hn : NoDup (map feedback_id (feedback_table db))).
  { cbn. constructor; [intros [H|[]]; discriminate H|].
    constructor; [intros []|constructor]. }
  split; [reflexivity|]. split; [exact Hn|].
  pose proof (updateFeedbackStatus_moves_one sampleEnv "feedback_2_b"
                                             Resolved db eq_refl Hn) as H.
  destruct (updateFeedbackStatus sampleEnv "feedback_2_b" Resolved db)
    as [ok db'] eqn:Hu.
  destruct H as (Hok & _ & H). split; [exact Hok|].
  cbn [snd]. change (find _ _) with (Some (sampleEntry "feedback_2_b" "new"))
    in H.
  specialize (H "resolved").
  change (one_if (String.eqb "resolved"
                             (status (sampleEntry "feedback_2_b" "new"))))
    with 0 in H.
  change (one_if (String.eqb "resolved" (statusText Resolved))) with 1 in H.
  change (countStatus "resolved" (map status (feedback_table db))) with 0
    in H.
  lia.
Defined.

End FeedbackFacts.

(* ================================================================== *)
(** * Display of a conversation's age *)
(* ================================================================== *)

(** X23. The age shown for a conversation. [formatTimestamp] prints
    "Just now" below one minute, also for a date in the future; then the
    whole minutes passed, from 1 to 59; then the whole hours, from 1 to 23,
    "1 hour" in the singular and "hours" from 2 on; then the whole days,
    from 1 to 6, "1 day" in the singular; and the locale date from seven
    days on. It never prints a count of 0. *)
Theorem formatTimestamp_ranges (toLocaleDateString : Z -> string)
        (now date : Z) :
  let shown := Display.formatTimestamp toLocaleDateString now date in
  let age := now - date in
  (age < 60000 /\ shown = "Just now")
  \/ (exists k, 1 <= k <= 59 /\ Display.wholeUnits 60000 k age
                /\ shown = (Js.toString k ++ " min ago")%string)
  \/ (Display.wholeUnits 3600000 1 age /\ shown = "1 hour ago")
  \/ (exists k, 2 <= k <= 23 /\ Display.wholeUnits 3600000 k age
                /\ shown = (Js.toString k ++ " hours ago")%string)
  \/ (Display.wholeUnits 86400000 1 age /\ shown = "1 day ago")
  \/ (exists k, 2 <= k <= 6 /\ Display.wholeUnits 86400000 k age
                /\ shown = (Js.toString k ++ " days ago")%string)
  \/ (604800000 <= age /\ shown = toLocaleDateString date).
Proof.
  intros shown age. subst shown. unfold Display.formatTimestamp.
  fold age. cbv zeta. unfold Display.wholeUnits.
  pose proof (Z.div_mod age 60000 ltac:(lia)) as Em.
  pose proof (Z.mod_pos_bound age 60000 ltac:(lia)) as Bm.
  pose proof (Z.div_mod age 3600000 ltac:(lia)) as Eh.
  pose proof (Z.mod_pos_bound age 3600000 ltac:(lia)) as Bh.
  pose proof (Z.div_mod age 86400000 ltac:(lia)) as Ed.
  pose proof (Z.mod_pos_bound age 86400000 ltac:(lia)) as Bd.
  set (m := age / 60000) in *. set (h := age / 3600000) in *.
  set (d := age / 86400000) in *.
  destruct (Z.ltb_spec m 1) as [Hm1|Hm1]; [left; split; [lia|reflexivity]|].
  right.
  destruct (Z.ltb_spec m 60) as [Hm60|Hm60].
  { left. exists m. split; [lia|]. split; [lia|reflexivity]. }
  right.
  destruct (Z.ltb_spec h 24) as [Hh24|Hh24].
  { destruct (Z.ltb_spec 1 h) as [Hh1|Hh1].
    - right. left. exists h. split; [lia|]. split; [lia|reflexivity].
    - left. assert (h = 1) as -> by lia. split; [lia|reflexivity]. }
  right. right.
  destruct (Z.ltb_spec d 7) as [Hd7|Hd7].
  { destruct (Z.ltb_spec 1 d) as [Hd1|Hd1].
    - right. left. exists d. split; [lia|]. split; [lia|reflexivity].
    - left. assert (d = 1) as -> by lia. split; [lia|reflexivity]. }
  right. right. split; [lia|reflexivity].
Qed.

(* ================================================================== *)
(** * The answer generator and its retries *)
(* ================================================================== *)

Section Retries.
Import Gemini.

Lemma callsLeft_retry (retryCount : nat) (sv : Service) :
  (retryCount < 3)%nat ->
  (S (callsLeft (S retryCount) (backOff retryCount (called sv)))
   = callsLeft retryCount sv)%nat.
Proof.
  unfold callsLeft, backOff, called. cbn [currentModelIndex]. lia.
Qed.

Lemma callsLeft_next (retryCount : nat) (sv sv2 : Service) :
  tryNextModel (called sv) = Some sv2 ->
  (S (callsLeft 0 sv2) <= callsLeft retryCount sv)%nat
  /\ currentModelIndex sv2 = S (currentModelIndex sv)
  /\ (currentModelIndex sv2 <= 3)%nat
  /\ calls sv2 = S (calls sv)
  /\ waited sv2 = waited sv.
Proof.
  unfold tryNextModel, called, callsLeft. cbn [currentModelIndex calls waited].
  change (List.length modelNames - 1)%nat with 3%nat.
  destruct (Nat.ltb_spec (currentModelIndex sv) 3); [|discriminate].
  intros [= <-]. cbn [currentModelIndex calls waited]. lia.
Qed.

Lemma backOffLeft_retry (retryCount : nat) (sv : Service) :
  (retryCount < 3)%nat ->
  2 ^ Z.of_nat retryCount * 1000
  + backOffLeft (S retryCount) (backOff retryCount (called sv))
  = backOffLeft retryCount sv.
Proof.
  intros H. unfold backOffLeft, backOff, called. cbn [currentModelIndex].
  rewrite !Nat.min_l by lia.
  rewrite Nat2Z.inj_succ, Z.pow_succ_r by lia. lia.
Qed.

Lemma backOffLeft_nonneg (retryCount : nat) (sv : Service) :
  0 <= backOffLeft retryCount sv
  /\ 7000 * Z.of_nat (3 - currentModelIndex sv) <= backOffLeft retryCount sv.
Proof.
  unfold backOffLeft.
  assert (2 ^ Z.of_nat (Nat.min retryCount 3) <= 2 ^ 3).
  { apply Z.pow_le_mono_r; lia. }
  change (2 ^ 3) with 8 in H. lia.
Qed.

Lemma backOffLeft_next (retryCount : nat) (sv sv2 : Service) :
  tryNextModel (called sv) = Some sv2 ->
  backOffLeft 0 sv2 <= backOffLeft retryCount sv.
Proof.
  intros H. destruct (callsLeft_next retryCount sv sv2 H) as (_ & Hi & Hle & _).
  pose proof (backOffLeft_nonneg retryCount sv) as [_ Hb].
  unfold backOffLeft at 1. rewrite Hi. cbn [Nat.min].
  change (2 ^ Z.of_nat 0) with 1.
  replace (3 - currentModelIndex sv)%nat
    with (S (3 - S (currentModelIndex sv)))%nat in Hb by lia.
  rewrite Nat2Z.inj_succ in Hb. lia.
Qed.

Lemma generateResponse_enough_fuel (rt : Runtime) :
  forall fuel retryCount sv,
    (callsLeft retryCount sv <= fuel)%nat ->
    exists reply sv',
      generateResponse fuel rt retryCount sv = Some (reply, sv')
      /\ withinBounds retryCount sv sv'.
Proof.
  assert (Hstay : forall retryCount sv, withinBounds retryCount sv sv).
  { intros rc sv. pose proof (backOffLeft_nonneg rc sv) as [Hb _].
    unfold withinBounds. lia. }
  assert (Hcalled : forall retryCount sv,
             withinBounds retryCount sv (called sv)).
  { intros rc sv. pose proof (backOffLeft_nonneg rc sv) as [Hb _].
    unfold withinBounds, called, callsLeft.
    cbn [calls currentModelIndex waited]. lia. }
  induction fuel as [|fuel IH]; intros rc sv Hfuel.
  - unfold callsLeft in Hfuel. lia.
  - cbn [generateResponse].
    destruct (negb (isApiKeyConfigured rt)).
    { exists Throws, sv. split; [reflexivity|apply Hstay]. }
    destruct (generateContent rt (calls sv)) as [text|message|].
    + eexists _, _. split; [reflexivity|apply Hcalled].
    + assert (Hretry :
        exists reply sv',
          (if (rc <? maxRetries)%nat && retryable rt message
           then generateResponse fuel rt (S rc) (backOff rc (called sv))
           else Some (Apology (Some message), called sv))
          = Some (reply, sv')
          /\ withinBounds rc sv sv').
      { unfold maxRetries.
        destruct (Nat.ltb_spec rc 3) as [Hrc|Hrc]; cbn [andb];
          [destruct (retryable rt message)|];
          try (eexists _, _; split; [reflexivity|apply Hcalled]).
        pose proof (callsLeft_retry rc sv Hrc) as Hc.
        pose proof (backOffLeft_retry rc sv Hrc) as Hb.
        destruct (IH (S rc) (backOff rc (called sv)) ltac:(lia))
          as (reply & sv' & Hrun & Hin).
        exists reply, sv'. split; [exact Hrun|].
        assert (0 <= 2 ^ Z.of_nat rc * 1000).
        { apply Z.mul_nonneg_nonneg; [apply Z.pow_nonneg|]; lia. }
        assert (E1 : calls (backOff rc (called sv)) = S (calls sv))
          by reflexivity.
        assert (E2 : currentModelIndex (backOff rc (called sv))
                     = currentModelIndex sv) by reflexivity.
        assert (E3 : waited (backOff rc (called sv))
                     = waited sv + 2 ^ Z.of_nat rc * 1000) by reflexivity.
        unfold withinBounds in Hin |- *. rewrite E1, E2, E3 in Hin. lia. }
      destruct (Js.includes "404" message); [|exact Hretry].
      destruct (tryNextModel (called sv)) as [sv2|] eqn:Hnext;
        [|exact Hretry].
      destruct (callsLeft_next rc sv sv2 Hnext) as (Hc & Hi & Hle & Hcs & Hw).
      pose proof (backOffLeft_next rc sv sv2 Hnext) as Hb.
      destruct (IH 0%nat sv2 ltac:(lia)) as (reply & sv' & Hrun & Hin).
      exists reply, sv'. split; [exact Hrun|].
      unfold withinBounds in Hin |- *. lia.
    + eexists _, _. split; [reflexivity|apply Hcalled].
Qed.

(** X24. Bound on the retries of [generateResponse]. Whatever the API
    answers, a call from [handleSendMessage] returns: with a reply, or by
    throwing when no key is configured. It calls the API at most four
    times for the current model and for each model after it, 16 times at
    most, and spends at most 7 seconds per model in back-off, 28 seconds
    at most; the model index never goes back and stays within
    [modelNames]. The bound is reached: against an API that answers 503
    and, on every fourth call, 404, a run makes 16 calls, waits 28 seconds
    and ends on the last model with an apology. *)
Theorem generateResponse_bounded :
  (forall rt sv,
      exists reply sv',
        generateResponse (callsLeft 0 sv) rt 0 sv = Some (reply, sv')
        /\ withinBounds 0 sv sv'
        /\ (callsLeft 0 sv <= 16)%nat
        /\ backOffLeft 0 sv <= 28000)
  /\ generateResponse 16 worstRuntime 0 (mkService 0 0 0)
     = Some (Apology (Some "404 Not Found"), mkService 3 16 28000).
Proof.
  split; [|vm_compute; reflexivity].
  intros rt sv.
  destruct (generateResponse_enough_fuel rt (callsLeft 0 sv) 0 sv
              (Nat.le_refl _)) as (reply & sv' & Hrun & Hin).
  exists reply, sv'. split; [exact Hrun|]. split; [exact Hin|].
  unfold callsLeft, backOffLeft.
  change (Nat.max 1 (4 - 0)) with 4%nat.
  change (2 ^ Z.of_nat (Nat.min 0 3)) with 1. lia.
Qed.

End Retries.

(* ================================================================== *)
(** * Restoring the active conversation *)
(* ================================================================== *)

Lemma fetched_conversation_shape (env : Env) (userId : string)
      (db : Backend) (c : Conversation) :
  In c (fst (fetchConversations env userId db)) ->
  sessionId c = ("conv_" ++ Js.toString (startRank c))%string
  /\ id c = sessionId c
  /\ (0 <? List.length (messages c))%nat = true.
Proof.
  rewrite fetchConversations_groupRuns.
  destruct (hd false (faults db)); [intros []|].
  intros Hc. apply in_rev, in_map_iff in Hc as (g & <- & Hg).
  cbn [conversationOf id sessionId startRank messages].
  split; [reflexivity|]. split; [reflexivity|].
  pose proof (pushMessages_nonempty env (fst g) (snd g)) as Hne.
  destruct (pushMessages env (fst g :: snd g)); [congruence|reflexivity].
Qed.

(** X25. Restoring the active conversation from the fetched list. When
    [fetchConversations] returns no conversation the loader shows the
    default messages and starts a new session. Otherwise it always shows a
    conversation of the list and sets the session to that conversation's
    token ['conv_' + startRank] and start rank: the one whose id was saved,
    when the list has it, and the first of the list (the newest) when no
    id was saved or the list does not have it. The branches that start a
    new session although conversations exist are never taken, since every
    fetched conversation has a message. *)
Theorem restoreActiveConversation_after_fetch (env : Env) (userId : string)
        (db : Backend) (savedActiveConv : option string) (st : Session) :
  let dbConversations := fst (fetchConversations env userId db) in
  let restored :=
    restoreActiveConversation env savedActiveConv dbConversations st in
  match dbConversations with
  | [] => restored = (None, snd (startNewSession env st))
  | newest :: _ =>
      exists conv,
        In conv dbConversations
        /\ restored
           = (Some conv,
              mkSession (Some ("conv_" ++ Js.toString (startRank conv))%string)
                        (startRank conv))
        /\ (Some (id conv) = savedActiveConv
            \/ (conv = newest
                /\ forall other, In other dbConversations ->
                                 Some (id other) = savedActiveConv ->
                                 savedActiveConv = Some ""))
  end.
Proof.
  intros dbConversations restored. subst restored.
  pose proof (fetched_conversation_shape env userId db) as Hshape.
  fold dbConversations in Hshape.
  destruct dbConversations as [|newest rest] eqn:E.
  - now destruct savedActiveConv as [[|c s]|].
  - assert (Hrecent :
      useMostRecent env (newest :: rest) st
      = (Some newest,
         mkSession (Some ("conv_" ++ Js.toString (startRank newest))%string)
                   (startRank newest))).
    { unfold useMostRecent.
      destruct (Hshape newest (or_introl eq_refl)) as (Hs & _ & Hm).
      rewrite Hm. unfold setCurrentSession. now rewrite Hs. }
    unfold restoreActiveConversation.
    destruct savedActiveConv as [[|c s]|].
    + exists newest. split; [now left|]. split; [exact Hrecent|].
      right. split; [reflexivity|]. intros _ _ _. reflexivity.
    + destruct (find (fun conv => String.eqb (id conv) (String c s))
                     (newest :: rest)) as [lastConversation|] eqn:Hfind.
      * apply find_some in Hfind. destruct Hfind as [Hin Hid].
        apply String.eqb_eq in Hid.
        destruct (Hshape lastConversation Hin) as (Hs & _ & Hm).
        rewrite Hm. exists lastConversation. split; [exact Hin|].
        split; [unfold setCurrentSession; now rewrite Hs|].
        left. now rewrite Hid.
      * exists newest. split; [now left|]. split; [exact Hrecent|].
        right. split; [reflexivity|]. intros other Hin Hid. exfalso.
        pose proof (find_none _ _ Hfind other Hin) as Hno. cbn beta in Hno.
        injection Hid as Hid. rewrite Hid, String.eqb_refl in Hno.
        discriminate Hno.
    + exists newest. split; [now left|]. split; [exact Hrecent|].
      right. split; [reflexivity|]. intros other _ Hid. discriminate Hid.
Qed.
